(* ===== verification/_CoqProject ===== *)
-Q . S2P
Prelude.v
JsValue.v
Decoder.v
Encoder.v
RoundTrip.v
Transport.v
MapSurface.v
Tracker.v
Renderer.v
Component.v
Placer.v
Lifecycle.v
Delivery.v
Resources.v
