(* ===== verification/Prelude.v ===== *)
(** * A verification library for the Angular live-location map client

    ** The program

    The repository is one Angular component, [MapComponent]
    (src/map Linux/src/app/map/map.component.ts).  [ngOnInit] creates a
    Leaflet map, a paho-mqtt client subscribed to the topic [MapL], and a
    current-position marker [nowMarker].  Each MQTT message is parsed with
    [JSON.parse] and its [Latitude]/[Longitude] fields are handed to
    [getLine], which draws a red segment from the previous point
    ([lastX], [lastY]) to the new one, moves the marker there, opens its
    popup, zooms to 17 and pans.  [lastX == 0 && lastY == 0] (JavaScript
    loose equality) stands for "no fix yet": the first fix snaps the
    previous point onto itself.  [getStreetLine] is the road-following
    variant (leaflet-routing-machine); [sendMessage] publishes four demo
    points; [getMarker], [mqttMarker], [gpsMarker] drop ad-hoc markers;
    [ngOnDestroy] unsubscribes.

    ** Files

    - [Prelude] (this file): the exception-and-state monad [M] in which
      every method is written (an outcome keeps the state at a throw, as
      JavaScript does not roll back the assignments made before it), its
      notation scope [exn_monad_scope], the hint databases [exn_run] and
      [exn_rw], the invariant rules [preserves] with the tactic
      [preserve], and list lemmas ([replace_nth] models updating one
      layer).
    - [JsValue]: the values of the [any]-typed fields ([jsval]: undefined,
      null, booleans, binary64 numbers as [PrimFloat.float], byte strings,
      arrays, objects), ECMAScript [ToNumber] with a complete
      [StringToNumber] (white space, decimal with correctly rounded
      binary64 conversion through [SpecFloat], Infinity, 0x/0o/0b), the
      loose equality [v == 0] of line 112, and property reads.
    - [Decoder] (Module [Json]): [JSON.parse] of line 57 on the payload's
      UTF-8 bytes, a fuel-indexed recursive-descent parser
      ([parse_value], [parse_elems], [parse_members]) with escapes,
      surrogate pairs, numbers through the same binary64 conversion, and
      duplicate keys as [CreateDataProperty] does them.
    - [Encoder] (Module [Encode]): [JSON.stringify] of lines 95-98, with
      ECMAScript [Number::toString] (the shortest decimal that reads back
      as the same double, in fixed or exponential layout) and
      [QuoteJSONString]; ECMAScript [ToString] for the popup text of
      [mqttMarker].
    - [RoundTrip] (Module [RoundTrip]): [JSON.parse] reads back what
      [JSON.stringify] writes ([json_parse_stringify]), proved through the
      string grammar ([QuoteJSONString] is undone escape by escape), the
      number grammar (a number text is read up to the delimiter that
      follows it) and nested arrays and objects; [Component] uses it for
      the echo of what the component publishes.
    - [Transport]: the contract between the component and its MQTT
      client, as two classes: [MqttClient] (the calls [map.component.ts]
      makes: [new Client], [connect], [subscribe], [unsubscribe],
      [publish], and the connection callbacks and [_disconnected]) and
      [MqttLaws] (what paho-mqtt documents of them: calls that need the
      connection throw ["Invalid state not connected"] without it, keep it
      with it, and [publish] appends to what was sent); their generic
      consequences (Section [Contract]); and Module [Paho], a model of
      paho-mqtt's client with the instances [paho_client] and
      [paho_laws] that discharge the contract.  A library: its documented
      behaviour, not its code.
    - [MapSurface] (Module [Leaflet]): the map state the component changes
      (layers, centre, zoom, open popup; a marker handle is its layer
      index) and Leaflet's behaviour on coordinates: [new LatLng] throws
      on NaN, [L.polyline]'s flat/non-flat conversion ([add_polyline]
      throws in the constructor, or after registering the layer when the
      projection fails: [polyline_failed]), [L.latLng]'s [toLatLng],
      [L.marker], [bindPopup], and [openPopup] with the popup's
      [autoPan]: the pan depends on the pixel sizes of the page, so the
      map carries it as a function of the centre, zoom and marker
      ([popup_pan]), fixed when [ngOnInit] creates the map.  Also a
      library.
    - [Tracker] (Module [Tracker]): [getLine] and [getStreetLine] on the
      component's fields [map], [lastX], [lastY], [nowMarker] (record
      [track]), statement by statement; the spec's abstract tracker
      (Module [Spec]: [TrackerState], [Transition], [ingestFix]); the
      abstraction [abs] and the refinement and safety theorems.
    - [Renderer] (Module [Renderer]): the spec's Map Surface interface
      (section 6) as the operational class [MapSurface] ([drawLine],
      [moveMarker], [openPopup], [setZoom], [panTo], [computeRoute], and
      [observe], the view through the current-position marker) with the
      laws class [MapSurfaceLaws]; the spec's Path Renderer (section 4.3)
      as [render] in its two modes, proved against the interface to have
      the effect [render_view] describes on every lawful surface, up to
      the centre after a popup opens ([view_equiv], with [Proper]
      instances for setoid rewriting); Leaflet
      as the instance [leaflet_surface]/[leaflet_laws], whose operations
      are the calls [getLine] and [getStreetLine] make ([draw_line],
      [move_marker], [compute_route]); and the refinement of the two
      methods, alone and in mixed sequences ([draw_all]), by the tracker
      step followed by [render].
    - [Component] (Module [Component]): the class's fields ([comp]) inside
      the session ([world]: plus Leaflet's default icon, the broker's
      queue for this client, whether the view exists, pending geolocation
      requests); [ngOnInit] as the state it builds on a page whose
      layout pans popups as [lay]; [onSuccess],
      [onMessageArrived], [getMarker], [sendMessage], [mqttMarker],
      [gpsMarker] and its callback, [ngOnDestroy] as operations of [M] on
      the session; the event loop [step] (connection answer, a remote
      publish, paho delivering the next message, clicks, geolocation
      answers, destruction, a connection ended by the network or the
      broker), [run] and [reachable] (from [ngOnInit] on every
      layout).  paho's catching of a
      handler's exception (it disconnects) is [paho_callback]; Angular's
      for template handlers (it logs) is [ui_handler].  Everything is in
      Section [Session], over any client [C] meeting [MqttLaws]: the
      theorems hold of every such client, and their witnesses run them
      on the [Paho] instance.
    - [Placer] (Module [Placer]): the spec's Manual Marker Placer.  Its
      [placeMarker] contract on Leaflet's map ([placed]: one new marker
      after every layer, with a popup, that popup open, the zoom kept,
      the centre moved only by [autoPan]);
      the configuration [ngOnInit] sets and no handler writes
      ([this.data], [this.myIcon], Leaflet's default icon:
      [config_reachable]); [getMarker], [mqttMarker] and the callback of
      [gpsMarker] measured against the contract.
    - [Lifecycle] (Module [Lifecycle]): the connection lifecycle
      ([Connecting], [Online], [Offline]) as an inductive step relation
      [lifecycle] on session events, the phase a session is in
      ([phase_of]) and its subscription ([link_of]), and the simulation
      of [Component.step] by the relation, proved with the reachable
      invariant that an online session is subscribed to [MapL].
    - [Delivery] (Module [Delivery]): the ingest path end to end (paho's
      delivery, [JSON.parse], [getLine], the renderer), the spec's
      decoder [decode] (section 4.1), against which the component's
      acceptance of non-numeric coordinates is shown.
    - [Resources] (Module [Resources]): how a layer may change once it is
      on the map ([persists]: a marker may move, nothing else changes)
      lifted index by index to the layer list ([grows], a preorder), the
      combinators [keeps] and [adds_one] that walk a handler statement by
      statement, and the bound on the map's growth.

    ** What is proved

    - Refinement (C1): on fixes Leaflet accepts that are not loosely
      [(0, 0)], a run of [getLine] implements the spec's [ingestFix]
      sequence and draws one segment per transition; (C16) the same holds
      for a JSON message delivered in a reachable session, and (C22, a
      liveness property) for a whole queue of them: as many deliveries as
      messages process every fix, in queue order, and lose none.
    - The first-fix sentinel (C2-C4): a first message without [Latitude]
      stores [lastX = undefined] and then throws, after which the tracker
      never draws again (each message only registers a polyline Leaflet
      cannot project); a fix at the origin is not recorded.
    - Errors (C5, C11, C14, C23): a rejected fix after a recorded one
      throws before any assignment; [getStreetLine] silently accepts
      missing coordinates; a payload that is not JSON disconnects the
      client, and so does, in any state, every payload that does not
      carry a point Leaflet accepts.
    - Invariants (C6, C7, C10, C17): one current-position marker,
      append-only path, road mode never moves the marker; in every
      reachable session, on every page layout, [nowMarker] is the marker
      [ngOnInit] made and the connection state is consistent.
    - Functional behaviour (C8, C9, C15): view after a fix, zero-length
      segment for a repeated fix, the exact four texts [sendMessage]
      publishes.
    - Round trip (C18): a value the component publishes on [MapL] comes
      back through the broker's echo as [this.mqttData], equal to it,
      for every value the wire format carries ([wire_safe]).
    - Session safety (C12, C13): the demo broadcast echoes back on the
      subscribed topic and ends tracking for good; teardown leaves [MapL]
      subscribed.
    - Marker placement (C19-C21): [getMarker] and [mqttMarker] refine the
      spec's [placeMarker] on every page layout (the map pans only as the
      popup's [autoPan] requires); [mqttMarker] puts its label into the
      popup's HTML unescaped; the marker [gpsMarker] places has [myIcon]
      (through the prototype-wide default) but no popup.
    - Connection lifecycle (C24, C25): every event is a step of the
      lifecycle relation: a connection that is up ends exactly on a
      connection loss or on a delivery whose handler throws, an online
      session is subscribed to [MapL], and an [Offline] session never
      reconnects and never draws again; (C34) a view destroyed while the
      connection is pending still gets subscribed to [MapL] when the
      broker accepts.
    - The renderer (C26-C29): [getLine] and [getStreetLine] are exactly
      the spec's [ingestFix] followed by the spec's [render] on Leaflet,
      straight-line and road-following, the first fix rendered as a
      zero-length move; a caller mixing the two renders every transition
      in order, and the drawn lines and requested routes only grow;
      (C35) the marker ends at the last fix drawn in straight-line mode.
    - Publishing offline (C30): while the connection is not up, the
      broadcast button changes nothing: the first publish throws, Angular
      logs it, nothing is sent.
    - The ingest path (C31, C32): a delivered fix is the spec's tracker
      step rendered by the spec's renderer; a record whose coordinates
      are strings, a [MalformedPayload] for the spec's decoder, is
      recorded and drawn.
    - Resources (C33): no event removes or replaces a layer of the map
      (a marker may only move) and each adds at most one, so [n] events
      add at most [n] layers.

    ** Modelling choices and bounds

    Numbers are IEEE binary64 exactly as JavaScript has them; the only
    arithmetic is the conversion between decimal strings and doubles.
    Decimal exponents are cut off at 400 and at [log2 m + 1 + e < -324],
    bounds outside which the double is already infinite or zero.
    [JSON.parse] runs with fuel [2n + 2] for an [n]-byte payload: each
    level of the parser consumes a byte or descends one level, and
    [Json.parse_enough_fuel] proves fuel above [2n] never runs out.
    [Number::toString] tries [k = 1 .. 17] significant digits: 17 digits
    always read back as the same double.  Every other function is structurally recursive.  Each
    event of the session runs one JavaScript task to completion, as the
    browser's event loop does; the broker is a single MQTT 3.1.1 broker
    at QoS 0 that delivers in publication order.

    Not modelled: the template (which buttons call which method: any
    sequence of clicks is allowed), tile rendering, projection, route
    computation (external services), the pixel geometry behind
    [autoPan] (kept as a function of the layout: every theorem holds for
    every such function), zoom and pan animations (their end state is
    taken at once), the listeners a registered but unprojectable
    polyline leaves on the map, QoS above 0, retained messages, messages
    of one WebSocket frame delivered after a disconnection, and Angular's
    change detection (it changes no state
    the component reads); [NgZone.run] (line 55) runs its callback and
    rethrows what it throws, so [onMessageArrived] is its callback.  No
    handler calls [getStreetLine]: it enters a session only through
    [Renderer.draw_all], a caller choosing the mode of each fix.  The
    spec's [createMarker] is not an operation of [MapSurface]: the
    renderer never creates a marker, and the placer's markers are
    measured on Leaflet's model ([Placer]).

    ** What remains open

    1. [Number::toString] reads back for every finite double other than
       [-0] (so that [number_ok] becomes a theorem and [to_number]'s
       shortcut for one-element arrays is proved equal to
       [ToNumber(ToString(a))]): this needs the correct rounding of
       [decimal_to_float], a proof about [SpecFloat]'s
       [binary_normalize] and division that the installed libraries do
       not provide.
    2. The component's session theorems are stated on Leaflet's model;
       only the renderer's are proved over every lawful [MapSurface].
    3. paho-mqtt and Leaflet are modelled from their documented
       behaviour (status [partly]): they are libraries the component
       calls, not code of the repository. *)

From Stdlib Require Import List String Bool ZArith Lia.
Import ListNotations.

(** ** The exception-and-state monad

    The component's handlers are TypeScript methods that mutate fields of
    [this] one statement after the other and may throw part-way through
    (Leaflet's [LatLng] constructor, [JSON.parse], paho's [send]).  A thrown
    exception does not undo the statements already executed, so an
    outcome carries the state at the point of the throw. *)

Inductive outcome (E S A : Type) : Type :=
| Done (a : A) (s : S)
| Raised (e : E) (s : S).
Arguments Done {E S A} a s.
Arguments Raised {E S A} e s.

Definition M (E S A : Type) : Type := S -> outcome E S A.

Section Monad.
Context {E S : Type}.

Definition ret {A} (a : A) : M E S A := fun s => Done a s.

Definition bind {A B} (c : M E S A) (k : A -> M E S B) : M E S B :=
  fun s => match c s with
           | Done a s' => k a s'
           | Raised e s' => Raised e s'
           end.

Definition get : M E S S := fun s => Done s s.
Definition put (s : S) : M E S unit := fun _ => Done tt s.
Definition modify (f : S -> S) : M E S unit := fun s => Done tt (f s).
Definition raise {A} (e : E) : M E S A := fun s => Raised e s.

(** [try c catch h]: the handler sees the state the throw left. *)
Definition catch {A} (c : M E S A) (h : E -> M E S A) : M E S A :=
  fun s => match c s with
           | Done a s' => Done a s'
           | Raised e s' => h e s'
           end.

(** Lift a fallible pure step ([None] = it throws [e]). *)
Definition lift_opt {A} (e : E) (o : option A) : M E S A :=
  match o with Some a => ret a | None => raise e end.

(** The state an outcome leaves, thrown or not. *)
Definition final_state {A} (o : outcome E S A) : S :=
  match o with Done _ s | Raised _ s => s end.

Definition is_raised {A} (o : outcome E S A) : bool :=
  match o with Done _ _ => false | Raised _ _ => true end.
End Monad.

Declare Scope exn_monad_scope.
Delimit Scope exn_monad_scope with exn.
Notation "x <- c ;; k" := (bind c (fun x => k))
  (at level 61, c at next level, right associativity) : exn_monad_scope.
Notation "c ;; k" := (bind c (fun _ => k))
  (at level 61, right associativity) : exn_monad_scope.

(** ** Monad laws and run lemmas *)

Section MonadLaws.
Context {E S : Type}.

Lemma bind_ret_l {A B} (a : A) (k : A -> M E S B) : bind (ret a) k = k a.
Proof. reflexivity. Qed.

Lemma bind_assoc {A B C} (c : M E S A) (f : A -> M E S B) (g : B -> M E S C) s :
  bind (bind c f) g s = bind c (fun a => bind (f a) g) s.
Proof. unfold bind. destruct (c s); reflexivity. Qed.

Lemma run_bind_done {A B} (c : M E S A) (k : A -> M E S B) s a s' :
  c s = Done a s' -> bind c k s = k a s'.
Proof. unfold bind. intros ->. reflexivity. Qed.

Lemma run_bind_raised {A B} (c : M E S A) (k : A -> M E S B) s e s' :
  c s = Raised e s' -> bind c k s = Raised e s'.
Proof. unfold bind. intros ->. reflexivity. Qed.

Lemma bind_get {B} (k : S -> M E S B) s : bind get k s = k s s.
Proof. reflexivity. Qed.

Lemma lift_opt_some {A} (e : E) (a : A) s : lift_opt e (Some a) s = @Done E S A a s.
Proof. reflexivity. Qed.

Lemma lift_opt_none {A} (e : E) s : lift_opt e (@None A) s = @Raised E S A e s.
Proof. reflexivity. Qed.
End MonadLaws.

Create HintDb exn_run discriminated.
Create Rewrite HintDb exn_rw.
#[export] Hint Rewrite @lift_opt_some @lift_opt_none : exn_rw.
#[export] Hint Unfold ret bind get put modify raise lift_opt : exn_run.

(** [run_exn] unfolds the monad and evaluates the cases the test
    hypotheses decide. *)
Ltac run_exn :=
  repeat autounfold with exn_run; cbn beta iota;
  repeat match goal with
         | H : ?b = _ |- context [if ?b then _ else _] => rewrite H
         | H : ?o = _ |- context [match ?o with Some _ => _ | None => _ end] => rewrite H
         end; cbn beta iota.

(** ** Generic list lemmas shared by the components *)

Lemma last_app_single {A} (l : list A) (x d : A) : last (l ++ [x]) d = x.
Proof. induction l as [|y [|z l] IH]; simpl; auto. Qed.

Lemma length_app_single {A} (l : list A) (x : A) : List.length (l ++ [x]) = S (List.length l).
Proof. rewrite length_app. simpl. lia. Qed.

#[export] Hint Rewrite @last_app_single @length_app_single : exn_rw.

(** ** Lifting fallible library calls *)

Definition lift_sum {E S A} (r : E + A) : M E S A :=
  match r with inl e => raise e | inr a => ret a end.

Lemma lift_sum_inr {E S A} (a : A) s : @lift_sum E S A (inr a) s = Done a s.
Proof. reflexivity. Qed.

Lemma lift_sum_inl {E S A} (e : E) s : @lift_sum E S A (inl e) s = Raised e s.
Proof. reflexivity. Qed.

#[export] Hint Rewrite @lift_sum_inr @lift_sum_inl : exn_rw.
#[export] Hint Unfold lift_sum : exn_run.

(** ** Invariants of monadic code

    [preserves P c]: whatever [c] does, completing or throwing, it leaves a
    state satisfying [P] when started in one.  The rules follow the
    monad's constructors, so an invariant of a handler is checked
    statement by statement. *)

Section Preserves.
Context {E S : Type} (P : S -> Prop).

Definition preserves {A} (c : M E S A) : Prop := forall s, P s -> P (final_state (c s)).

Lemma preserves_ret {A} (a : A) : preserves (ret a).
Proof. intros s Hs. exact Hs. Qed.

Lemma preserves_raise {A} (e : E) : preserves (@raise E S A e).
Proof. intros s Hs. exact Hs. Qed.

Lemma preserves_lift_sum {A} (r : E + A) : preserves (lift_sum r).
Proof. intros s Hs. destruct r; exact Hs. Qed.

Lemma preserves_lift_opt {A} (e : E) (o : option A) : preserves (lift_opt e o).
Proof. intros s Hs. destruct o; exact Hs. Qed.

Lemma preserves_modify (f : S -> S) : (forall s, P s -> P (f s)) -> preserves (modify f).
Proof. intros Hf s Hs. exact (Hf s Hs). Qed.

Lemma preserves_bind {A B} (c : M E S A) (k : A -> M E S B) :
  preserves c -> (forall a, preserves (k a)) -> preserves (bind c k).
Proof.
  intros Hc Hk s Hs. specialize (Hc s Hs). unfold bind.
  destruct (c s) as [a s'|e s']; cbn in *; [apply Hk|]; exact Hc.
Qed.

Lemma preserves_get : preserves get.
Proof. intros s Hs. exact Hs. Qed.

End Preserves.

Lemma preserves_and {E S A} (P Q : S -> Prop) (c : M E S A) :
  preserves P c -> preserves Q c -> preserves (fun s => P s /\ Q s) c.
Proof. intros HP HQ s [Hp Hq]. split; [apply HP|apply HQ]; assumption. Qed.

(** [preserve] splits a handler into its statements and discharges the
    ones that cannot change the state. *)
Ltac preserve :=
  repeat lazymatch goal with
  | |- preserves _ (bind _ _) => apply preserves_bind; [|intros ?a]
  | |- preserves _ get => apply preserves_get
  | |- preserves _ (ret _) => apply preserves_ret
  | |- preserves _ (raise _) => apply preserves_raise
  | |- preserves _ (lift_sum _) => apply preserves_lift_sum
  | |- preserves _ (lift_opt _ _) => apply preserves_lift_opt
  end.

(** ** In-place update of a list element (an array slot or a layer) *)

Fixpoint replace_nth {A} (n : nat) (x : A) (l : list A) : list A :=
  match l, n with
  | [], _ => []
  | _ :: r, O => x :: r
  | y :: r, S n' => y :: replace_nth n' x r
  end.

Lemma replace_nth_length {A} n (x : A) l : List.length (replace_nth n x l) = List.length l.
Proof. revert n; induction l as [|y l IH]; intros [|n]; simpl; auto. Qed.

Lemma nth_error_replace_same {A} n (x : A) l :
  n < List.length l -> nth_error (replace_nth n x l) n = Some x.
Proof.
  revert n; induction l as [|y l IH]; intros [|n] H; simpl in *; try lia; auto.
  apply IH. lia.
Qed.

Lemma nth_error_replace_other {A} n k (x : A) l :
  n <> k -> nth_error (replace_nth n x l) k = nth_error l k.
Proof.
  revert n k; induction l as [|y l IH]; intros [|n] [|k] H; simpl; try congruence.
  apply IH. lia.
Qed.

Lemma replace_nth_app_l {A} n (x : A) l1 l2 :
  n < List.length l1 -> replace_nth n x (l1 ++ l2) = replace_nth n x l1 ++ l2.
Proof.
  revert n; induction l1 as [|y l1 IH]; intros [|n] H; simpl in *; try lia; auto.
  rewrite IH by lia. reflexivity.
Qed.

(** Replacing the element just appended. *)
Lemma replace_nth_last {A} (x y : A) l : replace_nth (List.length l) y (l ++ [x]) = l ++ [y].
Proof. induction l as [|z l IH]; simpl; [reflexivity|]. rewrite IH. reflexivity. Qed.

(** Filtering a key [t] out of a list of keys changes no other key's
    membership (topics of a client, keys of an object). *)
Lemma existsb_filter_other (t u : string) ts :
  t <> u ->
  existsb (String.eqb u) (filter (fun v => negb (String.eqb t v)) ts) = existsb (String.eqb u) ts.
Proof.
  intros Htu. induction ts as [|v vs IH]; [reflexivity|]. cbn.
  destruct (String.eqb t v) eqn:Etv; cbn; rewrite IH; [|reflexivity].
  apply String.eqb_eq in Etv. subst v.
  destruct (String.eqb u t) eqn:E; [apply String.eqb_eq in E; congruence|reflexivity].
Qed.

(** Replacing an element by one that contributes the same to a
    [flat_map] leaves the [flat_map] as it was. *)
Lemma flat_map_replace_nth {A B} (f : A -> list B) n (x : A) l :
  (exists y, nth_error l n = Some y /\ f y = f x) -> flat_map f (replace_nth n x l) = flat_map f l.
Proof.
  revert n; induction l as [|z l IH]; intros [|n] [y [Hy Hf]]; cbn in *; try discriminate.
  - injection Hy as <-. rewrite Hf. reflexivity.
  - rewrite IH by eauto. reflexivity.
Qed.

#[export] Hint Rewrite @replace_nth_length : exn_rw.
