(* ===== verification/JsValue.v ===== *)
(** * JavaScript values and the coercions the component relies on

    The fields [lastX], [lastY], [mqttData] of [MapComponent] are typed
    [any]: they hold whatever [JSON.parse] produced.  This file models those
    values ([jsval]), numbers as IEEE binary64 ([PrimFloat.float]), and the
    ECMAScript operations the source applies to them: [ToNumber] (used by
    [Number(nowX)] in [getLine] and by Leaflet's [isNaN] checks), the loose
    equality [x == 0] of [getLine]'s first-fix test, and [.Latitude] /
    [.Longitude] property reads.  Strings are byte strings: the UTF-8 form
    in which the MQTT payload travels. *)

From Stdlib Require Import List String Bool ZArith Lia PrimFloat SpecFloat FloatOps.
From Stdlib Require Import Strings.Byte DecimalString.
From S2P Require Import Prelude.
Set Warnings "-register-all -inexact-float".
Local Open Scope Z_scope.
Import ListNotations.

(** ** Values *)

Inductive jsval : Type :=
| JUndefined
| JNull
| JBool (b : bool)
| JNumber (n : float)
| JString (s : string)
| JArray (elems : list jsval)
| JObject (props : list (string * jsval)).

(** The exceptions the modelled code can throw. *)
Inductive exn : Type :=
| TypeError (what : string)        (** property read on [null]/[undefined] *)
| SyntaxError                      (** [JSON.parse] on a malformed payload *)
| InvalidLatLng                    (** Leaflet: [new LatLng] with a NaN coordinate *)
| InvalidState (what : string).    (** paho: operation on a client not connected *)

(** [typeof v === 'object'] *)
Definition typeof_object (v : jsval) : bool :=
  match v with JNull | JArray _ | JObject _ => true | _ => false end.

(** ** Decimal and integer literals to binary64, rounding to nearest even *)

Definition f64_prec : Z := 53.
Definition f64_emax : Z := 1024.

Definition signed_zero (neg : bool) : float := if neg then neg_zero else zero.
Definition signed_inf (neg : bool) : float := if neg then neg_infinity else infinity.

(** The number [(-1)^neg * m * 10^e] rounded to binary64.  Exponents far
    out of range are decided without computing [10^e]: for [e > 400] the
    value exceeds the largest double; when [log2 m + 1 + e < -324] it is
    below [10^-324], under half the least subnormal [2^-1075]. *)
Definition decimal_to_float (neg : bool) (m : Z) (e : Z) : float :=
  if Z.leb m 0 then signed_zero neg
  else if Z.ltb 400 e then signed_inf neg
  else if Z.ltb (Z.log2 m + 1 + e) (-324) then signed_zero neg
  else if Z.leb 0 e then
    SF2Prim (binary_normalize f64_prec f64_emax (if neg then Z.opp (m * 10 ^ e) else m * 10 ^ e) 0 neg)
  else
    let '(q, e', l) := SFdiv_core_binary f64_prec f64_emax m 0 (10 ^ (- e)) 0 in
    SF2Prim (binary_round_aux f64_prec f64_emax neg q e' l).

Example decimal_to_float_lat :
  decimal_to_float false 239494324 (-7) = 23.9494324%float.
Proof. vm_compute. reflexivity. Qed.

(** ** StringToNumber (ECMAScript 7.1.4.1.1) on the UTF-8 bytes of a string *)

(** Leading [StrWhiteSpaceChar]s: WhiteSpace and LineTerminator code points,
    TAB VT FF SP NBSP ZWNBSP, the Zs spaces, LF CR LS PS. *)
Fixpoint strip_ws (l : list byte) : list byte :=
  match l with
  | (x09 | x0a | x0b | x0c | x0d | x20) :: r => strip_ws r
  | xc2 :: xa0 :: r => strip_ws r
  | xef :: xbb :: xbf :: r => strip_ws r
  | xe1 :: x9a :: x80 :: r => strip_ws r
  | xe2 :: x80 :: (x80 | x81 | x82 | x83 | x84 | x85 | x86 | x87 | x88 | x89 | x8a
                  | xa8 | xa9 | xaf) :: r => strip_ws r
  | xe2 :: x81 :: x9f :: r => strip_ws r
  | xe3 :: x80 :: x80 :: r => strip_ws r
  | _ => l
  end.

(** The same on a reversed byte list (trailing white space). *)
Fixpoint strip_ws_rev (l : list byte) : list byte :=
  match l with
  | (x09 | x0a | x0b | x0c | x0d | x20) :: r => strip_ws_rev r
  | xa0 :: xc2 :: r => strip_ws_rev r
  | xbf :: xbb :: xef :: r => strip_ws_rev r
  | x80 :: x9a :: xe1 :: r => strip_ws_rev r
  | (x80 | x81 | x82 | x83 | x84 | x85 | x86 | x87 | x88 | x89 | x8a
     | xa8 | xa9 | xaf) :: x80 :: xe2 :: r => strip_ws_rev r
  | x9f :: x81 :: xe2 :: r => strip_ws_rev r
  | x80 :: x80 :: xe3 :: r => strip_ws_rev r
  | _ => l
  end.

Definition trim (l : list byte) : list byte := rev (strip_ws_rev (rev (strip_ws l))).

(** The value of a digit in base [base] (2, 8, 10 or 16). *)
Definition digit_value (base : Z) (b : byte) : option Z :=
  let n := Z.of_N (Byte.to_N b) in
  let v := if Z.leb 48 n && Z.leb n 57 then Some (n - 48)
           else if Z.leb 97 n && Z.leb n 102 then Some (n - 87)
           else if Z.leb 65 n && Z.leb n 70 then Some (n - 55)
           else None in
  match v with Some d => if Z.ltb d base then Some d else None | None => None end.

(** Longest run of digits: accumulated value, count, rest. *)
Fixpoint take_digits (base acc : Z) (count : nat) (l : list byte) : Z * nat * list byte :=
  match l with
  | b :: r => match digit_value base b with
              | Some d => take_digits base (acc * base + d) (S count) r
              | None => (acc, count, l)
              end
  | [] => (acc, count, l)
  end.

(** [ExponentPart] after the mantissa, [None] if malformed or trailing
    bytes remain. *)
Definition parse_exponent (l : list byte) : option Z :=
  match l with
  | [] => Some 0
  | (x65 | x45) :: r =>
      let '(neg, r') := match r with
                        | x2b :: r' => (false, r') | x2d :: r' => (true, r')
                        | _ => (false, r) end in
      match take_digits 10 0 0 r' with
      | (v, S _, []) => Some (if neg then - v else v)
      | _ => None
      end
  | _ => None
  end.

(** [StrUnsignedDecimalLiteral] *)
Definition parse_unsigned_decimal (neg : bool) (l : list byte) : float :=
  if String.eqb (string_of_list_byte l) "Infinity" then signed_inf neg
  else
    let '(mi, ni, r) := take_digits 10 0 0 l in
    let '(m, nf, r) := match r with
                       | x2e :: r' => take_digits 10 mi 0 r'
                       | _ => (mi, 0%nat, r) end in
    match (ni + nf)%nat, parse_exponent r with
    | S _, Some e => decimal_to_float neg m (e - Z.of_nat nf)
    | _, _ => nan
    end.

(** [NonDecimalIntegerLiteral] digits, all of the rest. *)
Definition parse_radix (base : Z) (l : list byte) : float :=
  match take_digits base 0 0 l with
  | (v, S _, []) => decimal_to_float false v 0
  | _ => nan
  end.

Definition string_to_number (s : string) : float :=
  match trim (list_byte_of_string s) with
  | [] => zero
  | x30 :: (x78 | x58) :: r => parse_radix 16 r
  | x30 :: (x6f | x4f) :: r => parse_radix 8 r
  | x30 :: (x62 | x42) :: r => parse_radix 2 r
  | x2b :: r => parse_unsigned_decimal false r
  | x2d :: r => parse_unsigned_decimal true r
  | l => parse_unsigned_decimal false l
  end.

(** ** ToNumber (ECMAScript 7.1.4) *)

(** An array converts through [ToPrimitive], i.e. [Array.prototype.join]:
    [[]] gives [""] (0), two or more elements give a string with a comma
    (NaN), and [[x]] gives [ToString(x)], whose number is [x] itself for a
    number ([Number::toString] round-trips, and maps -0 to ["0"]), [""] for
    [null]/[undefined], and NaN for booleans and plain objects
    (["[object Object]"]). *)
Fixpoint to_number (v : jsval) : float :=
  match v with
  | JUndefined => nan
  | JNull => zero
  | JBool b => if b then one else zero
  | JNumber n => n
  | JString s => string_to_number s
  | JArray [] => zero
  | JArray [x] =>
      match x with
      | JNumber n => if is_zero n then zero else n
      | JNull | JUndefined => zero
      | JBool _ | JObject _ => nan
      | JString s => string_to_number s
      | JArray _ => to_number x
      end
  | JArray _ => nan
  | JObject _ => nan
  end.

(** [x == 0] (IsLooselyEqual with the number +0): [null] and [undefined]
    are equal only to each other; every other value is compared through
    [ToNumber] (objects through [ToPrimitive] first, which [to_number]
    already includes). *)
Definition loose_eq_zero (v : jsval) : bool :=
  match v with
  | JUndefined | JNull => false
  | _ => PrimFloat.eqb (to_number v) zero
  end.

(** ** Property reads *)

Fixpoint assoc_lookup (k : string) (props : list (string * jsval)) : option jsval :=
  match props with
  | [] => None
  | (k', v) :: r => if String.eqb k k' then Some v else assoc_lookup k r
  end.

(** [v.k] for a key [k] that names no property of the built-in prototypes
    and is not an array index or ["length"] (the source reads [Latitude]
    and [Longitude]): [TypeError] on [null] and [undefined], the own
    property of an object, [undefined] otherwise. *)
Definition get_field (v : jsval) (k : string) : option jsval :=
  match v with
  | JUndefined | JNull => None
  | JObject props => Some (match assoc_lookup k props with Some x => x | None => JUndefined end)
  | _ => Some JUndefined
  end.

(** [ToString(n)] of an array index: the property key [v[n]] reads. *)
Definition index_key (n : nat) : string := NilEmpty.string_of_uint (Nat.to_uint n).

(** [v[n]] for an integer index [n]: array elements, string code units
    (strings here are ASCII when indexed), the own property ["n"] of an
    object; [undefined] when absent. *)
Definition get_index (v : jsval) (n : nat) : option jsval :=
  match v with
  | JUndefined | JNull => None
  | JArray l => Some (nth n l JUndefined)
  | JString s => Some (match String.get n s with Some c => JString (String c EmptyString)
                                            | None => JUndefined end)
  | JObject props => Some (match assoc_lookup (index_key n) props with Some x => x | None => JUndefined end)
  | _ => Some JUndefined
  end.
