(* ===== verification/Decoder.v ===== *)
(** * Message decoder: [JSON.parse] of the MQTT payload

    [onMessageArrived] (map.component.ts, lines 56-57) stores
    [message.payloadString] in [this.messages] and parses it with
    [JSON.parse].  This file models [JSON.parse] (ECMA-404 grammar, as
    ECMAScript's [JSON.parse] applies it) on the payload's UTF-8 bytes:
    white space, literals, numbers (rounded to binary64 with the same
    conversion as [Number()]), strings with their escapes (a [\uXXXX]
    escape is re-encoded in UTF-8, a surrogate pair as one code point),
    arrays, and objects (a repeated key keeps its first position and takes
    the last value, as [CreateDataProperty] does).  A malformed payload is
    a [SyntaxError].

    The parser is recursive on a fuel argument; [json_parse] gives it
    [2 * length + 2], and [parse_enough_fuel] shows that it never
    runs out with that much. *)

From Stdlib Require Import List String Bool ZArith Lia PrimFloat.
From Stdlib Require Import Strings.Byte.
From S2P Require Import Prelude JsValue.
Import ListNotations.
Local Open Scope Z_scope.

Module Json.

(** The three ways a parser can end. *)
Inductive presult (A : Type) : Type :=
| POk (a : A) (rest : list byte)
| PErr
| POutOfFuel.
Arguments POk {A} a rest.
Arguments PErr {A}.
Arguments POutOfFuel {A}.

(** JSON white space: space, tab, line feed, carriage return. *)
Fixpoint skip_ws (l : list byte) : list byte :=
  match l with
  | (x20 | x09 | x0a | x0d) :: r => skip_ws r
  | _ => l
  end.

(** ** Strings *)

Definition byte_of_Z (z : Z) : byte :=
  match Byte.of_N (Z.to_N z) with Some b => b | None => x00 end.

(** UTF-8 bytes of a code point (a lone surrogate gets the 3-byte form). *)
Definition utf8_encode (cp : Z) : list byte :=
  if cp <? 128 then [byte_of_Z cp]
  else if cp <? 2048 then
    [byte_of_Z (192 + Z.shiftr cp 6); byte_of_Z (128 + Z.land cp 63)]
  else if cp <? 65536 then
    [byte_of_Z (224 + Z.shiftr cp 12); byte_of_Z (128 + Z.land (Z.shiftr cp 6) 63);
     byte_of_Z (128 + Z.land cp 63)]
  else
    [byte_of_Z (240 + Z.shiftr cp 18); byte_of_Z (128 + Z.land (Z.shiftr cp 12) 63);
     byte_of_Z (128 + Z.land (Z.shiftr cp 6) 63); byte_of_Z (128 + Z.land cp 63)].

(** Four hexadecimal digits. *)
Definition hex4 (a b c d : byte) : option Z :=
  match digit_value 16 a, digit_value 16 b, digit_value 16 c, digit_value 16 d with
  | Some a, Some b, Some c, Some d => Some (((a * 16 + b) * 16 + c) * 16 + d)
  | _, _, _, _ => None
  end.

Definition prepend (bs : list byte) (o : option (list byte * list byte)) :=
  option_map (fun '(s, r) => (bs ++ s, r)) o.

(** The character a two-character escape [\c] stands for. *)
Definition short_unescape (c : byte) : option byte :=
  match c with
  | x22 => Some x22 | x5c => Some x5c | x2f => Some x2f | x62 => Some x08
  | x66 => Some x0c | x6e => Some x0a | x72 => Some x0d | x74 => Some x09
  | _ => None
  end.

(** The characters of a string after its opening quote, up to and
    without the closing quote: the content's bytes and what follows.  A
    [\uXXXX] escape of a high surrogate followed by one of a low surrogate
    stands for one code point; any other [\uXXXX] for its code unit. *)
Fixpoint parse_chars (l : list byte) : option (list byte * list byte) :=
  match l with
  | [] => None
  | b :: r =>
      if Byte.eqb b x22 then Some ([], r)
      else if Byte.eqb b x5c then
        match r with
        | [] => None
        | c :: r1 =>
            match short_unescape c with
            | Some u => prepend [u] (parse_chars r1)
            | None =>
                if Byte.eqb c x75 then
                  match r1 with
                  | a :: b :: c :: d :: r2 =>
                      match hex4 a b c d with
                      | None => None
                      | Some hi =>
                          match r2 with
                          | p :: q :: e :: f :: g :: h :: r' =>
                              if Byte.eqb p x5c && Byte.eqb q x75 then
                                match hex4 e f g h with
                                | Some lo =>
                                    if (55296 <=? hi) && (hi <=? 56319) && (56320 <=? lo) && (lo <=? 57343)
                                    then prepend (utf8_encode (65536 + (hi - 55296) * 1024 + (lo - 56320)))
                                                 (parse_chars r')
                                    else prepend (utf8_encode hi) (parse_chars r2)
                                | None => None
                                end
                              else prepend (utf8_encode hi) (parse_chars r2)
                          | _ => prepend (utf8_encode hi) (parse_chars r2)
                          end
                      end
                  | _ => None
                  end
                else None
            end
        end
      else if Z.of_N (Byte.to_N b) <? 32 then None
      else prepend [b] (parse_chars r)
  end.

(** ** Numbers *)

(** [0 | [1-9][0-9]*]: the integer part's value and what follows. *)
Definition json_int_part (l : list byte) : option (Z * list byte) :=
  match l with
  | [] => None
  | b :: r =>
      if Byte.eqb b x30 then Some (0, r)
      else match digit_value 10 b with
           | Some _ => let '(m, _, r') := take_digits 10 0 0 l in Some (m, r')
           | None => None
           end
  end.

(** [(. [0-9]+)?]: the mantissa so far extended by the fraction digits,
    their count, and what follows. *)
Definition json_frac_part (mi : Z) (l : list byte) : option (Z * Z * list byte) :=
  match l with
  | x2e :: r => match take_digits 10 mi 0 r with
                | (m, S k, r') => Some (m, Z.of_nat (S k), r')
                | _ => None
                end
  | _ => Some (mi, 0, l)
  end.

(** [([eE] [+-]? [0-9]+)?] *)
Definition json_exp_part (l : list byte) : option (Z * list byte) :=
  match l with
  | (x65 | x45) :: r =>
      let '(eneg, r') := match r with
                         | x2b :: r' => (false, r') | x2d :: r' => (true, r')
                         | _ => (false, r) end in
      match take_digits 10 0 0 r' with
      | (e, S _, r'') => Some (if eneg then - e else e, r'')
      | _ => None
      end
  | _ => Some (0, l)
  end.

(** [-? int frac? exp?] *)
Definition parse_json_number (l : list byte) : option (float * list byte) :=
  let '(neg, l1) := match l with x2d :: r => (true, r) | _ => (false, l) end in
  match json_int_part l1 with
  | None => None
  | Some (mi, r1) =>
      match json_frac_part mi r1 with
      | None => None
      | Some (m, nf, r2) =>
          match json_exp_part r2 with
          | None => None
          | Some (e, r3) => Some (decimal_to_float neg m (e - nf), r3)
          end
      end
  end.

(** ** Objects: [CreateDataProperty] on a fresh object *)

Fixpoint obj_insert (k : string) (v : jsval) (props : list (string * jsval)) : list (string * jsval) :=
  match props with
  | [] => [(k, v)]
  | (k', v') :: r => if String.eqb k k' then (k, v) :: r else (k', v') :: obj_insert k v r
  end.

(** ** Values *)

(** [p] at the head of [l]: what follows it. *)
Fixpoint strip_prefix (p l : list byte) : option (list byte) :=
  match p, l with
  | [], _ => Some l
  | a :: p', b :: l' => if Byte.eqb a b then strip_prefix p' l' else None
  | _ :: _, [] => None
  end.

(** The literals [true], [false], [null]. *)
Definition true_lit : list byte := [x74; x72; x75; x65].
Definition false_lit : list byte := [x66; x61; x6c; x73; x65].
Definition null_lit : list byte := [x6e; x75; x6c; x6c].

Definition parse_literal (l : list byte) : option (jsval * list byte) :=
  match strip_prefix true_lit l with
  | Some r => Some (JBool true, r)
  | None =>
      match strip_prefix false_lit l with
      | Some r => Some (JBool false, r)
      | None =>
          match strip_prefix null_lit l with
          | Some r => Some (JNull, r)
          | None => None
          end
      end
  end.

(** A literal or a number. *)
Definition parse_scalar (l : list byte) : presult jsval :=
  match parse_literal l with
  | Some (v, r) => POk v r
  | None => match parse_json_number l with
            | Some (n, r) => POk (JNumber n) r
            | None => PErr
            end
  end.

(** The byte [c] at the head of [l]: what follows it. *)
Definition strip_byte (c : byte) (l : list byte) : option (list byte) :=
  match l with
  | b :: r => if Byte.eqb b c then Some r else None
  | [] => None
  end.

(** What starts a value: [{], [[], a quote, or a literal or number. *)
Inductive head : Type :=
| HObject (r : list byte)
| HArray (r : list byte)
| HString (r : list byte)
| HScalar (l : list byte).

Definition value_head (l : list byte) : head :=
  match l with
  | b :: r => if Byte.eqb b x7b then HObject r
              else if Byte.eqb b x5b then HArray r
              else if Byte.eqb b x22 then HString r
              else HScalar l
  | [] => HScalar []
  end.

(** What follows an element or a member: a comma, the closing bracket
    [close], or anything else (an error). *)
Inductive sep : Type :=
| SComma (r : list byte)
| SClose (r : list byte)
| SBad.

Definition after_item (close : byte) (l : list byte) : sep :=
  match skip_ws l with
  | b :: r => if Byte.eqb b x2c then SComma r else if Byte.eqb b close then SClose r else SBad
  | [] => SBad
  end.

Fixpoint parse_value (fuel : nat) (l : list byte) : presult jsval :=
  match fuel with
  | O => POutOfFuel
  | S f =>
      match value_head (skip_ws l) with
      | HObject r => parse_members f [] true r
      | HArray r => parse_elems f [] true r
      | HString r => match parse_chars r with
                     | Some (s, r') => POk (JString (string_of_list_byte s)) r'
                     | None => PErr
                     end
      | HScalar l' => parse_scalar l'
      end
  end

(** The elements of an array after [[] ([first]) or after a comma;
    [acc] holds the elements read so far, last first. *)
with parse_elems (fuel : nat) (acc : list jsval) (first : bool) (l : list byte) : presult jsval :=
  match fuel with
  | O => POutOfFuel
  | S f =>
      match (if first then strip_byte x5d (skip_ws l) else None) with
      | Some r => POk (JArray []) r
      | None =>
          match parse_value f l with
          | POk v r =>
              match after_item x5d r with
              | SComma r' => parse_elems f (v :: acc) false r'
              | SClose r' => POk (JArray (rev (v :: acc))) r'
              | SBad => PErr
              end
          | PErr => PErr
          | POutOfFuel => POutOfFuel
          end
      end
  end

(** The members of an object after [{] ([first]) or after a comma. *)
with parse_members (fuel : nat) (props : list (string * jsval)) (first : bool) (l : list byte)
  : presult jsval :=
  match fuel with
  | O => POutOfFuel
  | S f =>
      match (if first then strip_byte x7d (skip_ws l) else None) with
      | Some r => POk (JObject []) r
      | None =>
          match strip_byte x22 (skip_ws l) with
          | None => PErr
          | Some r =>
              match parse_chars r with
              | None => PErr
              | Some (k, r1) =>
                  match strip_byte x3a (skip_ws r1) with
                  | None => PErr
                  | Some r2 =>
                      match parse_value f r2 with
                      | POk v r3 =>
                          let props' := obj_insert (string_of_list_byte k) v props in
                          match after_item x7d r3 with
                          | SComma r4 => parse_members f props' false r4
                          | SClose r4 => POk (JObject props') r4
                          | SBad => PErr
                          end
                      | PErr => PErr
                      | POutOfFuel => POutOfFuel
                      end
                  end
              end
          end
      end
  end.

(** [JSON.parse(s)]: one value, white space around it, nothing else. *)
Definition json_parse (s : string) : exn + jsval :=
  let l := list_byte_of_string s in
  match parse_value (2 * List.length l + 2) l with
  | POk v r => match skip_ws r with [] => inr v | _ => inl SyntaxError end
  | _ => inl SyntaxError
  end.

(** ** Every parser consumes input *)

Lemma skip_ws_length l : (List.length (skip_ws l) <= List.length l)%nat.
Proof. induction l as [|b l IH]; [reflexivity|]. destruct b; cbn; lia. Qed.

Lemma prepend_some bs o s r : prepend bs o = Some (s, r) -> exists s', o = Some (s', r).
Proof. destruct o as [[s' r']|]; cbn; intros H; inversion H; subst; eauto. Qed.

Lemma parse_chars_shorter : forall l s r, parse_chars l = Some (s, r) -> (List.length r < List.length l)%nat.
Proof.
  intros l. induction l as [l IH] using (induction_ltof1 _ (@List.length byte)). unfold ltof in IH.
  intros s r H. destruct l as [|b l]; [discriminate|].
  assert (Hrec : forall r' k s0, prepend k (parse_chars r') = Some (s0, r) ->
                 (List.length r' < List.length (b :: l))%nat -> (List.length r < List.length (b :: l))%nat).
  { intros r' k s0 Hp Hlt. apply prepend_some in Hp as [s' Hp]. apply IH in Hp; [lia|exact Hlt]. }
  cbn [parse_chars] in H.
  destruct (Byte.eqb b x22); [inversion H; subst; cbn; lia|].
  destruct (Byte.eqb b x5c).
  - destruct l as [|c l]; [discriminate|].
    destruct (short_unescape c); [eapply Hrec; [exact H|cbn; lia]|].
    destruct (Byte.eqb c x75); [|discriminate].
    destruct l as [|a [|b0 [|c0 [|d l]]]]; try discriminate.
    destruct (hex4 a b0 c0 d) as [hi|]; [|discriminate].
    destruct l as [|p [|q [|e [|f [|g [|h l]]]]]]; try (eapply Hrec; [exact H|cbn; lia]).
    destruct (Byte.eqb p x5c && Byte.eqb q x75); [|eapply Hrec; [exact H|cbn; lia]].
    destruct (hex4 e f g h); [|discriminate].
    destruct (_ && _); eapply Hrec; (exact H || cbn; lia).
  - destruct (_ <? 32)%Z; [discriminate|]. eapply Hrec; [exact H|cbn; lia].
Qed.

Lemma take_digits_length base acc c l v k r :
  take_digits base acc c l = (v, k, r) -> (List.length r + k = List.length l + c)%nat.
Proof.
  revert acc c. induction l as [|b l IH]; intros acc c H; cbn in H.
  - inversion H; subst. reflexivity.
  - destruct (digit_value base b).
    + apply IH in H. cbn. lia.
    + inversion H; subst. cbn. lia.
Qed.

Lemma take_digits_count base acc c l v k r :
  take_digits base acc c l = (v, k, r) -> (c <= k)%nat.
Proof.
  revert acc c. induction l as [|b l IH]; intros acc c H; cbn in H.
  - inversion H; subst. lia.
  - destruct (digit_value base b); [apply IH in H; lia|inversion H; subst; lia].
Qed.

Lemma json_int_part_shorter l m r :
  json_int_part l = Some (m, r) -> (List.length r < List.length l)%nat.
Proof.
  destruct l as [|b l]; cbn; [discriminate|].
  destruct (Byte.eqb b x30); [intros H; inversion H; subst; lia|].
  destruct (digit_value 10 b) as [d|] eqn:Hd; [|discriminate].
  destruct (take_digits _ _ _ l) as [[v k] r'] eqn:Ht.
  intros H; inversion H; subst.
  pose proof (take_digits_length _ _ _ _ _ _ _ Ht). pose proof (take_digits_count _ _ _ _ _ _ _ Ht). lia.
Qed.

Lemma json_frac_part_shorter mi l m nf r :
  json_frac_part mi l = Some (m, nf, r) -> (List.length r <= List.length l)%nat.
Proof.
  destruct l as [|b l]; cbn; [intros H; inversion H; subst; cbn; lia|].
  destruct b; try (intros H; inversion H; subst; cbn; lia).
  destruct (take_digits 10 mi 0 l) as [[v [|k]] r'] eqn:Ht; [discriminate|].
  intros H; inversion H; subst. apply take_digits_length in Ht. lia.
Qed.

Lemma json_exp_part_shorter l e r :
  json_exp_part l = Some (e, r) -> (List.length r <= List.length l)%nat.
Proof.
  assert (Hd : forall eneg r0 l0, (eneg, r0) = match l0 with x2b :: r' => (false, r') | x2d :: r' => (true, r')
                                               | _ => (false, l0) end -> (List.length r0 <= List.length l0)%nat)
    by (intros ? ? [|[] ?] E; inversion E; cbn; lia).
  destruct l as [|b l]; cbn; [intros H; inversion H; subst; cbn; lia|].
  destruct b; try (intros H; inversion H; subst; cbn; lia);
  destruct (match l with x2b :: _ => _ | _ => _ end) as [eneg r'] eqn:E;
  specialize (Hd eneg r' l (eq_sym E));
  destruct (take_digits 10 0 0 r') as [[v [|k]] r''] eqn:Ht; try discriminate;
  intros H; inversion H; subst; apply take_digits_length in Ht; lia.
Qed.

Lemma parse_json_number_shorter l n r :
  parse_json_number l = Some (n, r) -> (List.length r < List.length l)%nat.
Proof.
  unfold parse_json_number.
  assert (Hneg : forall neg l1, (neg, l1) = match l with x2d :: r => (true, r) | _ => (false, l) end ->
                 (List.length l1 <= List.length l)%nat)
    by (intros ? ? E; destruct l as [|[] ?]; inversion E; cbn; lia).
  destruct (match l with x2d :: _ => _ | _ => _ end) as [neg l1] eqn:E1.
  specialize (Hneg neg l1 eq_refl).
  destruct (json_int_part l1) as [[mi r1]|] eqn:E2; [|discriminate].
  destruct (json_frac_part mi r1) as [[[m nf] r2]|] eqn:E3; [|discriminate].
  destruct (json_exp_part r2) as [[e r3]|] eqn:E4; [|discriminate].
  intros H; inversion H; subst.
  apply json_int_part_shorter in E2. apply json_frac_part_shorter in E3.
  apply json_exp_part_shorter in E4. lia.
Qed.

Lemma strip_prefix_length p l r :
  strip_prefix p l = Some r -> (List.length r + List.length p = List.length l)%nat.
Proof.
  revert l; induction p as [|a p IH]; intros [|b l] H; cbn in H; try discriminate.
  - inversion H; subst. cbn. lia.
  - inversion H; subst. cbn. lia.
  - destruct (Byte.eqb a b); [apply IH in H; cbn; lia|discriminate].
Qed.

Lemma parse_literal_shorter l v r :
  parse_literal l = Some (v, r) -> (List.length r < List.length l)%nat.
Proof.
  unfold parse_literal.
  destruct (strip_prefix true_lit l) as [r1|] eqn:E1;
    [intros H; inversion H; subst; apply strip_prefix_length in E1; cbn in E1; lia|].
  destruct (strip_prefix false_lit l) as [r2|] eqn:E2;
    [intros H; inversion H; subst; apply strip_prefix_length in E2; cbn in E2; lia|].
  destruct (strip_prefix null_lit l) as [r3|] eqn:E3;
    [intros H; inversion H; subst; apply strip_prefix_length in E3; cbn in E3; lia|discriminate].
Qed.

(** What a value after white space may be when it is none of [{], [[],
    a string: a literal or a number, each consuming input. *)
Lemma scalar_shorter l v r : parse_scalar l = POk v r -> (List.length r < List.length l)%nat.
Proof.
  unfold parse_scalar. destruct (parse_literal l) as [[v' r']|] eqn:E; [intros H; inversion H; subst; exact (parse_literal_shorter _ _ _ E)|].
  destruct (parse_json_number l) as [[n r']|] eqn:E'; [|discriminate].
  intros H; inversion H; subst. exact (parse_json_number_shorter _ _ _ E').
Qed.

Lemma strip_byte_shorter c l r : strip_byte c l = Some r -> (List.length r < List.length l)%nat.
Proof. destruct l as [|b l]; cbn; [discriminate|]. destruct (Byte.eqb b c); intros H; inversion H; subst; cbn; lia. Qed.

Lemma value_head_shorter l :
  match value_head l with
  | HObject r | HArray r | HString r => (List.length r < List.length l)%nat
  | HScalar l' => l' = l
  end.
Proof.
  destruct l as [|b l]; cbn; [reflexivity|].
  destruct (Byte.eqb b x7b); [lia|]. destruct (Byte.eqb b x5b); [lia|].
  destruct (Byte.eqb b x22); [lia|reflexivity].
Qed.

Lemma after_item_shorter c l :
  match after_item c l with
  | SComma r | SClose r => (List.length r < List.length l)%nat
  | SBad => True
  end.
Proof.
  unfold after_item. pose proof (skip_ws_length l).
  destruct (skip_ws l) as [|b r]; [exact I|]. cbn in *.
  destruct (Byte.eqb b x2c); [lia|]. destruct (Byte.eqb b c); [lia|exact I].
Qed.

(** The shape of the three parsers one step down, shared by the proofs. *)
Ltac head_cases l :=
  let H := fresh "Hh" in
  pose proof (value_head_shorter (skip_ws l)) as H; pose proof (skip_ws_length l);
  destruct (value_head (skip_ws l)).

Ltac sep_cases c r :=
  let H := fresh "Hs" in
  pose proof (after_item_shorter c r) as H; destruct (after_item c r).

Lemma parse_consumes n :
  (forall l v r, parse_value n l = POk v r -> (List.length r < List.length l)%nat) /\
  (forall acc first l v r, parse_elems n acc first l = POk v r -> (List.length r < List.length l)%nat) /\
  (forall props first l v r, parse_members n props first l = POk v r -> (List.length r < List.length l)%nat).
Proof.
  induction n as [|f IH]; [repeat split; intros; discriminate|].
  destruct IH as (IHv & IHe & IHm). split; [|split].
  - intros l v r H. cbn [parse_value] in H. head_cases l.
    + apply IHm in H. lia.
    + apply IHe in H. lia.
    + destruct (parse_chars r0) as [[s r']|] eqn:Ec; inversion H; subst.
      apply parse_chars_shorter in Ec. lia.
    + subst. apply scalar_shorter in H. lia.
  - intros acc first l v r H. cbn [parse_elems] in H.
    destruct (if first then strip_byte x5d (skip_ws l) else None) as [r0|] eqn:Eb.
    + inversion H; subst. pose proof (skip_ws_length l).
      destruct first; [apply strip_byte_shorter in Eb; lia|discriminate].
    + destruct (parse_value f l) as [v0 r0| |] eqn:Ev; try discriminate.
      apply IHv in Ev. sep_cases x5d r0; [apply IHe in H; lia|inversion H; subst; lia|discriminate].
  - intros props first l v r H. cbn [parse_members] in H. pose proof (skip_ws_length l).
    destruct (if first then strip_byte x7d (skip_ws l) else None) as [r0|] eqn:Eb.
    + inversion H; subst. destruct first; [apply strip_byte_shorter in Eb; lia|discriminate].
    + destruct (strip_byte x22 (skip_ws l)) as [r0|] eqn:Eq; [|discriminate].
      apply strip_byte_shorter in Eq.
      destruct (parse_chars r0) as [[k r1]|] eqn:Ec; [|discriminate]. apply parse_chars_shorter in Ec.
      pose proof (skip_ws_length r1).
      destruct (strip_byte x3a (skip_ws r1)) as [r2|] eqn:Ecol; [|discriminate].
      apply strip_byte_shorter in Ecol.
      destruct (parse_value f r2) as [v0 r3| |] eqn:Ev; try discriminate. apply IHv in Ev.
      sep_cases x7d r3; [apply IHm in H; lia|inversion H; subst; lia|discriminate].
Qed.

Lemma parse_scalar_fuel l : parse_scalar l <> POutOfFuel.
Proof.
  unfold parse_scalar. destruct (parse_literal l) as [[]|]; [discriminate|].
  destruct (parse_json_number l) as [[]|]; discriminate.
Qed.

Lemma parse_enough_fuel n :
  (forall l, (2 * List.length l < n)%nat -> parse_value n l <> POutOfFuel) /\
  (forall acc first l, (2 * List.length l + 1 < n)%nat -> parse_elems n acc first l <> POutOfFuel) /\
  (forall props first l, (2 * List.length l + 1 < n)%nat -> parse_members n props first l <> POutOfFuel).
Proof.
  induction n as [|f IH]; [repeat split; intros; lia|].
  destruct IH as (IHv & IHe & IHm).
  destruct (parse_consumes f) as (Cv & _ & _). split; [|split].
  - intros l Hn. cbn [parse_value]. head_cases l.
    + apply IHm. lia.
    + apply IHe. lia.
    + destruct (parse_chars r) as [[]|]; discriminate.
    + apply parse_scalar_fuel.
  - intros acc first l Hn. cbn [parse_elems].
    destruct (if first then strip_byte x5d (skip_ws l) else None); [discriminate|].
    destruct (parse_value f l) as [v0 r0| |] eqn:Ev; try discriminate.
    + apply Cv in Ev. sep_cases x5d r0; try discriminate. apply IHe. lia.
    + exfalso. apply (IHv l); [lia|exact Ev].
  - intros props first l Hn. cbn [parse_members]. pose proof (skip_ws_length l).
    destruct (if first then strip_byte x7d (skip_ws l) else None); [discriminate|].
    destruct (strip_byte x22 (skip_ws l)) as [r0|] eqn:Eq; [|discriminate].
    apply strip_byte_shorter in Eq.
    destruct (parse_chars r0) as [[k r1]|] eqn:Ec; [|discriminate]. apply parse_chars_shorter in Ec.
    pose proof (skip_ws_length r1).
    destruct (strip_byte x3a (skip_ws r1)) as [r2|] eqn:Ecol; [|discriminate].
    apply strip_byte_shorter in Ecol.
    destruct (parse_value f r2) as [v0 r3| |] eqn:Ev; try discriminate.
    + apply Cv in Ev. sep_cases x7d r3; try discriminate. apply IHm. lia.
    + exfalso. apply (IHv r2); [lia|exact Ev].
Qed.

Lemma parse_fuel_mono n :
  (forall l k, parse_value n l <> POutOfFuel -> parse_value (n + k) l = parse_value n l) /\
  (forall acc first l k, parse_elems n acc first l <> POutOfFuel ->
     parse_elems (n + k) acc first l = parse_elems n acc first l) /\
  (forall props first l k, parse_members n props first l <> POutOfFuel ->
     parse_members (n + k) props first l = parse_members n props first l).
Proof.
  induction n as [|f IH];
    [repeat split; intros; match goal with H : _ <> _ |- _ => exfalso; apply H; reflexivity end|].
  destruct IH as (IHv & IHe & IHm). split; [|split].
  - intros l k. cbn [Nat.add parse_value].
    destruct (value_head (skip_ws l)); try reflexivity; intros H; [rewrite IHm | rewrite IHe]; auto.
  - intros acc first l k. cbn [Nat.add parse_elems].
    destruct (if first then strip_byte x5d (skip_ws l) else None); [reflexivity|].
    destruct (parse_value f l) as [v0 r0| |] eqn:Ev;
      [| rewrite (IHv l k) by (rewrite Ev; discriminate); rewrite Ev; reflexivity
       | intros Hc; exfalso; apply Hc; reflexivity].
    rewrite (IHv l k) by (rewrite Ev; discriminate); rewrite Ev.
    destruct (after_item x5d r0); try reflexivity. intros H; rewrite IHe; auto.
  - intros props first l k. cbn [Nat.add parse_members].
    destruct (if first then strip_byte x7d (skip_ws l) else None); [reflexivity|].
    destruct (strip_byte x22 (skip_ws l)) as [r0|]; [|reflexivity].
    destruct (parse_chars r0) as [[key r1]|]; [|reflexivity].
    destruct (strip_byte x3a (skip_ws r1)) as [r2|]; [|reflexivity].
    destruct (parse_value f r2) as [v0 r3| |] eqn:Ev;
      [| rewrite (IHv r2 k) by (rewrite Ev; discriminate); rewrite Ev; reflexivity
       | intros Hc; exfalso; apply Hc; reflexivity].
    rewrite (IHv r2 k) by (rewrite Ev; discriminate); rewrite Ev.
    destruct (after_item x7d r3); try reflexivity. intros H; rewrite IHm; auto.
Qed.

End Json.
