(* ===== verification/Encoder.v ===== *)
(** * [JSON.stringify] and [Number::toString]

    [sendMessage] (map.component.ts, lines 93-99) publishes
    [JSON.stringify({x: ..., y: ..., name: ...})].  This file models
    [JSON.stringify] on the values of [JsValue] (ECMAScript
    [SerializeJSONProperty], [QuoteJSONString]) and the number-to-string
    conversion it uses, [Number::toString] (ECMAScript 6.1.6.1.20): the
    shortest digit string [s] with [k] digits and exponent [n] whose value
    rounds back to the number, the closest one when several exist, laid
    out in plain, fractional or exponential form. *)

From Stdlib Require Import List String Ascii Bool ZArith Lia PrimFloat SpecFloat FloatOps.
From Stdlib Require Import Strings.Byte DecimalString.
From S2P Require Import Prelude JsValue.
Import ListNotations.
Local Open Scope string_scope.
Local Open Scope Z_scope.
Set Warnings "-inexact-float".

Module Encode.

(** ** Number::toString *)

(** Decimal digits of a non-negative integer. *)
Definition digits (z : Z) : string := NilZero.string_of_uint (N.to_uint (Z.to_N z)).

(** The exact value [num / den] of a positive finite double. *)
Definition exact_value (x : float) : Z * Z :=
  match Prim2SF x with
  | S754_finite _ m e => if 0 <=? e then (Zpos m * 2 ^ e, 1) else (Zpos m, 2 ^ (- e))
  | _ => (0, 1)
  end.

(** [num / den >= 10 ^ t] *)
Definition ge_pow10 (num den t : Z) : bool :=
  if 0 <=? t then den * 10 ^ t <=? num else 10 ^ (- t) * num >=? den.

(** The [n] of a positive value: [10 ^ (n - 1) <= num / den < 10 ^ n]. *)
Definition decimal_exponent (num den : Z) : Z :=
  let t := Z.of_nat (String.length (digits num)) - Z.of_nat (String.length (digits den)) in
  if ge_pow10 num den t then t + 1 else t.

(** [floor (num / den * 10 ^ t)], the remainder and the divisor. *)
Definition scaled_floor (num den t : Z) : Z * Z * Z :=
  if 0 <=? t then (num * 10 ^ t / den, (num * 10 ^ t) mod den, den)
  else (num / (den * 10 ^ (- t)), num mod (den * 10 ^ (- t)), den * 10 ^ (- t)).

(** [s * 10 ^ (n - k)] reads back as [x]. *)
Definition reads_back (x : float) (s n k : Z) : bool :=
  PrimFloat.eqb (decimal_to_float false s (n - k)) x.

(** The best [k]-digit representation [(s, n)] of a positive finite [x],
    if one reads back: the two [k]-digit neighbours of [x], the closer
    one when both do, the even one on a tie. *)
Definition candidate (x : float) (k : Z) : option (Z * Z) :=
  let '(num, den) := exact_value x in
  let n := decimal_exponent num den in
  let '(slo, rem, dv) := scaled_floor num den (k - n) in
  let lo_ok := reads_back x slo n k in
  let '(shi, nhi) := if slo + 1 =? 10 ^ k then (10 ^ (k - 1), n + 1) else (slo + 1, n) in
  let hi_ok := negb (rem =? 0) && reads_back x shi nhi k in
  if lo_ok && hi_ok then
    match Z.compare (2 * rem) dv with
    | Lt => Some (slo, n)
    | Gt => Some (shi, nhi)
    | Eq => if Z.even slo then Some (slo, n) else Some (shi, nhi)
    end
  else if lo_ok then Some (slo, n)
  else if hi_ok then Some (shi, nhi)
  else None.

(** The smallest [k] from [k0] on (at most 17 digits are ever needed for
    a double; the 17-digit lower neighbour is kept otherwise). *)
Fixpoint shortest (x : float) (k0 : Z) (fuel : nat) : Z * Z * Z :=
  match fuel with
  | O => let '(num, den) := exact_value x in
         let n := decimal_exponent num den in
         let '(slo, _, _) := scaled_floor num den (17 - n) in (slo, 17, n)
  | S f => match candidate x k0 with
           | Some (s, n) => (s, k0, n)
           | None => shortest x (k0 + 1) f
           end
  end.

Fixpoint zeros (n : nat) : string :=
  match n with O => EmptyString | S m => String "0" (zeros m) end.

(** Steps 6 to 10: the layout of [s], [k] digits, exponent [n]. *)
Definition layout (s k n : Z) : string :=
  let ds := digits s in
  if (k <=? n) && (n <=? 21) then ds ++ zeros (Z.to_nat (n - k))
  else if (0 <? n) && (n <=? 21) then
    substring 0 (Z.to_nat n) ds ++ "." ++ substring (Z.to_nat n) (Z.to_nat (k - n)) ds
  else if (-6 <? n) && (n <=? 0) then "0." ++ zeros (Z.to_nat (- n)) ++ ds
  else
    let e := n - 1 in
    let exp := "e" ++ (if 0 <=? e then "+" else "-") ++ digits (Z.abs e) in
    if k =? 1 then ds ++ exp
    else substring 0 1 ds ++ "." ++ substring 1 (Z.to_nat (k - 1)) ds ++ exp.

Definition number_to_string (x : float) : string :=
  if is_nan x then "NaN"
  else if is_zero x then "0"
  else if is_infinity x then (if (x <? zero)%float then "-Infinity" else "Infinity")
  else
    let ax := PrimFloat.abs x in
    let '(s, k, n) := shortest ax 1 17 in
    (if (x <? zero)%float then "-" else EmptyString) ++ layout s k n.

Example number_to_string_demo :
  map number_to_string [23.952; 120.9272588; 0.1; 1e21; 1e-7; 5e-324; 100; 1.5; -0.000001]%float =
  ["23.952"; "120.9272588"; "0.1"; "1e+21"; "1e-7"; "5e-324"; "100"; "1.5"; "-0.000001"].
Proof. vm_compute. reflexivity. Qed.

(** ** QuoteJSONString on the UTF-8 bytes of a string *)

(** A lowercase hexadecimal digit. *)
Definition hex_digit (z : Z) : byte :=
  match Byte.of_N (Z.to_N (if z <? 10 then 48 + z else 87 + z)) with Some b => b | None => x30 end.

(** [\uXXXX] with lowercase digits. *)
Definition u_escape (cu : Z) : list byte :=
  [x5c; x75; hex_digit (Z.shiftr cu 12); hex_digit (Z.land (Z.shiftr cu 8) 15);
   hex_digit (Z.land (Z.shiftr cu 4) 15); hex_digit (Z.land cu 15)].

(** The letter of the two-character escape of a control character. *)
Definition short_escape (b : byte) : option byte :=
  match b with
  | x08 => Some x62 | x09 => Some x74 | x0a => Some x6e | x0c => Some x66 | x0d => Some x72
  | _ => None
  end.

(** One byte of the body: a backslash before a quote or a backslash, the
    short escapes b t n f r, [\u00XX] for the other control characters,
    the byte itself otherwise. *)
Definition escape_byte (b : byte) : list byte :=
  if Byte.eqb b x22 then [x5c; x22]
  else if Byte.eqb b x5c then [x5c; x5c]
  else match short_escape b with
       | Some c => [x5c; c]
       | None => let n := Z.of_N (Byte.to_N b) in if n <? 32 then u_escape n else [b]
       end.

(** The escaped body: [\uDXXX] for a lone surrogate (its 3-byte form
    [ED A0..BF xx]), every other byte by [escape_byte]. *)
Fixpoint quote_bytes (l : list byte) : list byte :=
  match l with
  | [] => []
  | b :: r =>
      if Byte.eqb b xed then
        match r with
        | b1 :: b2 :: r2 =>
            let n1 := Z.of_N (Byte.to_N b1) in
            if (160 <=? n1) && (n1 <=? 191)
            then u_escape (55296 + (n1 - 160) * 64 + (Z.of_N (Byte.to_N b2) - 128)) ++ quote_bytes r2
            else xed :: quote_bytes r
        | _ => xed :: quote_bytes r
        end
      else escape_byte b ++ quote_bytes r
  end.

Definition quote (s : string) : string :=
  string_of_list_byte (x22 :: quote_bytes (list_byte_of_string s) ++ [x22]).

(** ** SerializeJSONProperty *)

Fixpoint join (sep : string) (l : list string) : string :=
  match l with
  | [] => EmptyString
  | [a] => a
  | a :: r => a ++ sep ++ join sep r
  end.

(** [None] when the result is [undefined] (an [undefined] value). *)
(** ECMAScript [ToString], as [+] applies it to a non-string operand:
    arrays through [Array.prototype.join] (elements [undefined] and [null]
    as empty strings), plain objects as ["[object Object]"]. *)
Fixpoint to_js_string (v : jsval) : string :=
  match v with
  | JUndefined => "undefined"
  | JNull => "null"
  | JBool b => if b then "true" else "false"
  | JNumber n => number_to_string n
  | JString s => s
  | JArray l =>
      join "," (map (fun e => match e with JUndefined | JNull => EmptyString | _ => to_js_string e end) l)
  | JObject _ => "[object Object]"
  end.

Fixpoint json_stringify (v : jsval) : option string :=
  match v with
  | JUndefined => None
  | JNull => Some "null"
  | JBool b => Some (if b then "true" else "false")
  | JNumber n => Some (if is_finite n then number_to_string n else "null")
  | JString s => Some (quote s)
  | JArray l =>
      Some ("[" ++ join "," (map (fun e => match json_stringify e with
                                              | Some t => t | None => "null" end) l) ++ "]")
  | JObject props =>
      Some ("{" ++ join "," (flat_map (fun '(k, e) => match json_stringify e with
                                                      | Some t => [quote k ++ ":" ++ t]
                                                      | None => [] end) props) ++ "}")
  end.

End Encode.
