(* ===== verification/RoundTrip.v ===== *)
(** * Round trips between [JSON.stringify] and [JSON.parse]

    The component's wire format is JSON both ways: [sendMessage]
    serializes with [JSON.stringify] (Encoder) and [onMessageArrived]
    deserializes with [JSON.parse] (Decoder).  This file proves that the
    decoder reads back what the encoder writes: string bodies
    ([QuoteJSONString] against the string grammar of [JSON.parse]) for
    every byte string that is not a UTF-8 surrogate, then whole values. *)

From Stdlib Require Import List String Ascii Bool ZArith Lia PrimFloat SpecFloat FloatOps FloatAxioms.
From Stdlib Require Import Strings.Byte.
From S2P Require Import Prelude JsValue Decoder Encoder.
Import ListNotations.
Local Open Scope Z_scope.
Set Warnings "-inexact-float".

Module RoundTrip.
Import Json Encode.

(** ** Bytes and hexadecimal digits *)

Definition bval (b : byte) : Z := Z.of_N (Byte.to_N b).

Lemma bval_range b : 0 <= bval b <= 255.
Proof. unfold bval. pose proof (Byte.to_N_bounded b). lia. Qed.

Lemma byte_of_Z_bval b : byte_of_Z (bval b) = b.
Proof. unfold byte_of_Z, bval. rewrite N2Z.id, Byte.of_to_N. reflexivity. Qed.

Lemma eqb_true b c : Byte.eqb b c = true -> b = c.
Proof. apply Byte.byte_dec_bl. Qed.

Lemma hex_digit_value d : 0 <= d < 16 -> digit_value 16 (hex_digit d) = Some d.
Proof.
  intros Hd.
  assert (d = 0 \/ d = 1 \/ d = 2 \/ d = 3 \/ d = 4 \/ d = 5 \/ d = 6 \/ d = 7 \/ d = 8 \/
          d = 9 \/ d = 10 \/ d = 11 \/ d = 12 \/ d = 13 \/ d = 14 \/ d = 15) as Hc by lia.
  repeat destruct Hc as [->|Hc]; try (subst; reflexivity).
Qed.

(** The four digits of [\uXXXX] read back as the code unit. *)
Lemma hex4_u_escape cu :
  0 <= cu < 65536 ->
  hex4 (hex_digit (Z.shiftr cu 12)) (hex_digit (Z.land (Z.shiftr cu 8) 15))
       (hex_digit (Z.land (Z.shiftr cu 4) 15)) (hex_digit (Z.land cu 15)) = Some cu.
Proof.
  intros Hc. rewrite !Z.shiftr_div_pow2 by lia.
  change (2 ^ 12) with 4096. change (2 ^ 8) with 256. change (2 ^ 4) with 16.
  change 15 with (Z.ones 4). rewrite !Z.land_ones by lia. change (2 ^ 4) with 16.
  unfold hex4.
  rewrite (hex_digit_value (cu / 4096)), (hex_digit_value ((cu / 256) mod 16)),
          (hex_digit_value ((cu / 16) mod 16)), (hex_digit_value (cu mod 16))
    by (first [apply Z.mod_pos_bound; lia | split; [apply Z.div_pos; lia | apply Z.div_lt_upper_bound; lia]]).
  f_equal.
  assert (E1 : cu / 256 / 16 = cu / 4096) by (rewrite Z.div_div by lia; reflexivity).
  assert (E2 : cu / 16 / 16 = cu / 256) by (rewrite Z.div_div by lia; reflexivity).
  rewrite !Z.mod_eq by lia. rewrite E1, E2. ring.
Qed.

(** ** [QuoteJSONString] byte by byte *)

(** [ED] followed by [A0]-[BF]: the UTF-8 form of a surrogate code unit,
    which well-formed UTF-8 never contains. *)
Definition surrogate_lead (b1 : byte) : bool := (160 <=? bval b1) && (bval b1 <=? 191).

Fixpoint no_surrogate (l : list byte) : bool :=
  match l with
  | [] => true
  | b :: r =>
      (negb (Byte.eqb b xed) || match r with b1 :: _ => negb (surrogate_lead b1) | [] => true end)
      && no_surrogate r
  end.

(** Without surrogates, [quote_bytes] escapes byte by byte. *)
Lemma quote_bytes_cons b r :
  no_surrogate (b :: r) = true -> quote_bytes (b :: r) = escape_byte b ++ quote_bytes r.
Proof.
  cbn [no_surrogate quote_bytes]. intros H. apply andb_prop in H as [H _].
  destruct (Byte.eqb b xed) eqn:E; [|reflexivity].
  apply eqb_true in E. subst b. cbn [negb orb] in H.
  destruct r as [|b1 [|b2 r]]; try reflexivity.
  unfold surrogate_lead, bval in H.
  destruct ((160 <=? Z.of_N (Byte.to_N b1)) && (Z.of_N (Byte.to_N b1) <=? 191)); [discriminate|reflexivity].
Qed.

Lemma no_surrogate_tail b r : no_surrogate (b :: r) = true -> no_surrogate r = true.
Proof. cbn [no_surrogate]. intros H. apply andb_prop in H. apply H. Qed.

Lemma short_escape_unescape b c : short_escape b = Some c -> short_unescape c = Some b.
Proof. destruct b; cbn; intros H; inversion H; reflexivity. Qed.

Lemma short_escape_not_u b c : short_escape b = Some c -> Byte.eqb c x75 = false.
Proof. destruct b; cbn; intros H; inversion H; reflexivity. Qed.

(** What follows a [\uXXXX] escape: another [\u] escape has four
    hexadecimal digits. *)
Definition u_ok (X : list byte) : Prop :=
  forall p q e f g h r, X = p :: q :: e :: f :: g :: h :: r ->
    Byte.eqb p x5c && Byte.eqb q x75 = true -> hex4 e f g h <> None.

(** The string grammar of [JSON.parse], case by case. *)
Lemma eqb_5c_22 : Byte.eqb x5c x22 = false. Proof. reflexivity. Qed.
Lemma eqb_5c_5c : Byte.eqb x5c x5c = true. Proof. reflexivity. Qed.
Lemma eqb_75_75 : Byte.eqb x75 x75 = true. Proof. reflexivity. Qed.
Lemma unescape_75 : short_unescape x75 = None. Proof. reflexivity. Qed.

(** One step of [parse_chars] on a backslash. *)
Ltac unfold_escape :=
  cbn [parse_chars]; rewrite ?eqb_5c_22, ?eqb_5c_5c, ?unescape_75, ?eqb_75_75; cbv beta iota.

Lemma parse_chars_short c u r :
  short_unescape c = Some u -> parse_chars (x5c :: c :: r) = prepend [u] (parse_chars r).
Proof. intros H. unfold_escape. rewrite H. reflexivity. Qed.

Lemma parse_chars_u a b c d X hi :
  hex4 a b c d = Some hi -> hi < 55296 -> u_ok X ->
  parse_chars (x5c :: x75 :: a :: b :: c :: d :: X) = prepend (utf8_encode hi) (parse_chars X).
Proof.
  intros H Hhi HX. unfold_escape. rewrite H.
  destruct X as [|p [|q [|e [|f [|g [|h r]]]]]]; try reflexivity.
  destruct (Byte.eqb p x5c && Byte.eqb q x75) eqn:E; [|reflexivity].
  destruct (hex4 e f g h) eqn:Eh; [|exfalso; exact (HX _ _ _ _ _ _ _ eq_refl E Eh)].
  replace (55296 <=? hi) with false by (symmetry; apply Z.leb_gt; lia). reflexivity.
Qed.

Lemma parse_chars_plain b r :
  Byte.eqb b x22 = false -> Byte.eqb b x5c = false -> (Z.of_N (Byte.to_N b) <? 32) = false ->
  parse_chars (b :: r) = prepend [b] (parse_chars r).
Proof. intros E1 E2 E3. cbn [parse_chars]. rewrite E1, E2, E3. reflexivity. Qed.

Lemma parse_escape_byte b X :
  u_ok X -> parse_chars (escape_byte b ++ X) = prepend [b] (parse_chars X).
Proof.
  intros HX. unfold escape_byte.
  destruct (Byte.eqb b x22) eqn:E1; [apply eqb_true in E1; subst; reflexivity|].
  destruct (Byte.eqb b x5c) eqn:E2; [apply eqb_true in E2; subst; reflexivity|].
  destruct (short_escape b) as [c|] eqn:E3.
  { apply parse_chars_short, short_escape_unescape, E3. }
  destruct (Z.of_N (Byte.to_N b) <? 32) eqn:E4.
  - apply Z.ltb_lt in E4. pose proof (bval_range b) as Hb. unfold bval in Hb.
    unfold u_escape. cbn [app].
    rewrite (parse_chars_u _ _ _ _ _ (Z.of_N (Byte.to_N b))) by (first [apply hex4_u_escape | idtac]; lia || exact HX).
    unfold utf8_encode. replace (Z.of_N (Byte.to_N b) <? 128) with true by (symmetry; apply Z.ltb_lt; lia).
    fold (bval b). rewrite byte_of_Z_bval. reflexivity.
  - apply parse_chars_plain; assumption.
Qed.

(** Whatever follows an escaped byte, a [\u] in it has its digits. *)
Lemma u_ok_escape b Y : u_ok (escape_byte b ++ Y).
Proof.
  intros p q e f g h r Heq Hpq. apply andb_prop in Hpq as [Hp Hq].
  unfold escape_byte in Heq.
  destruct (Byte.eqb b x22) eqn:E1; [inversion Heq; subst; cbv in Hq; discriminate|].
  destruct (Byte.eqb b x5c) eqn:E2; [inversion Heq; subst; cbv in Hq; discriminate|].
  destruct (short_escape b) as [c|] eqn:E3.
  { inversion Heq; subst. rewrite (short_escape_not_u _ _ E3) in Hq. discriminate. }
  destruct (Z.of_N (Byte.to_N b) <? 32) eqn:E4.
  - apply Z.ltb_lt in E4. pose proof (bval_range b) as Hb. unfold bval in Hb.
    unfold u_escape in Heq. inversion Heq; subst. rewrite hex4_u_escape by lia. discriminate.
  - inversion Heq; subst. congruence.
Qed.

Lemma u_ok_quote r rest : no_surrogate r = true -> u_ok (quote_bytes r ++ x22 :: rest).
Proof.
  destruct r as [|b r]; intros H.
  - intros p q e f g h r' Heq Hpq. inversion Heq; subst. cbv in Hpq. discriminate.
  - rewrite quote_bytes_cons by exact H. rewrite <- app_assoc. apply u_ok_escape.
Qed.

(** [JSON.parse]'s string grammar reads back [QuoteJSONString]'s body. *)
Lemma parse_chars_quote l rest :
  no_surrogate l = true -> parse_chars (quote_bytes l ++ x22 :: rest) = Some (l, rest).
Proof.
  induction l as [|b r IH]; intros H; [reflexivity|].
  rewrite quote_bytes_cons by exact H. rewrite <- app_assoc.
  pose proof (no_surrogate_tail _ _ H) as Hr.
  rewrite parse_escape_byte by (apply u_ok_quote; exact Hr).
  rewrite (IH Hr). reflexivity.
Qed.

Lemma parse_value_quoted fuel l rest :
  no_surrogate l = true ->
  parse_value (S fuel) (x22 :: quote_bytes l ++ x22 :: rest) = POk (JString (string_of_list_byte l)) rest.
Proof.
  intros H. cbn [parse_value skip_ws value_head].
  change (Byte.eqb x22 x7b) with false. change (Byte.eqb x22 x5b) with false.
  change (Byte.eqb x22 x22) with true. cbv beta iota.
  rewrite parse_chars_quote by exact H. reflexivity.
Qed.

(** ** Values *)

Lemma lbs_app (s1 s2 : string) :
  list_byte_of_string (s1 ++ s2) = list_byte_of_string s1 ++ list_byte_of_string s2.
Proof.
  unfold list_byte_of_string. rewrite <- List.map_app. f_equal.
  induction s1 as [|c s1 IH]; cbn; [reflexivity|]. rewrite IH. reflexivity.
Qed.

Lemma strip_prefix_app p rest : strip_prefix p (p ++ rest) = Some rest.
Proof. induction p as [|a p IH]; cbn; [reflexivity|]. rewrite (@Byte.byte_dec_lb a a eq_refl). exact IH. Qed.

(** JSON white space. *)
Definition is_ws (b : byte) : bool := match b with x20 | x09 | x0a | x0d => true | _ => false end.

Lemma skip_ws_cons b r : skip_ws (b :: r) = if is_ws b then skip_ws r else b :: r.
Proof. destruct b; reflexivity. Qed.

Lemma is_ws_bval b : is_ws b = true -> bval b = 32 \/ bval b = 9 \/ bval b = 10 \/ bval b = 13.
Proof. destruct b; cbn; intros H; try discriminate; auto. Qed.

Lemma eqb_false_bval b c : bval b <> bval c -> Byte.eqb b c = false.
Proof. intros H. destruct (Byte.eqb b c) eqn:E; [|reflexivity]. apply eqb_true in E. subst. tauto. Qed.

Lemma digit_value_range b d : digit_value 10 b = Some d -> 48 <= bval b <= 57.
Proof.
  unfold digit_value, bval. set (n := Z.of_N (Byte.to_N b)).
  destruct (Z.leb 48 n && Z.leb n 57) eqn:E1.
  - apply andb_prop in E1 as [E1 E2]. apply Z.leb_le in E1, E2. lia.
  - destruct (Z.leb 97 n && Z.leb n 102) eqn:E2.
    + apply andb_prop in E2 as [E2 _]. apply Z.leb_le in E2.
      destruct (n - 87 <? 10) eqn:E3; [apply Z.ltb_lt in E3; lia|discriminate].
    + destruct (Z.leb 65 n && Z.leb n 70) eqn:E3; [|discriminate].
      apply andb_prop in E3 as [E3 _]. apply Z.leb_le in E3.
      destruct (n - 55 <? 10) eqn:E4; [apply Z.ltb_lt in E4; lia|discriminate].
Qed.

(** Leibniz equality of doubles, decided on their [SpecFloat] form. *)
Definition spec_eqb (a b : spec_float) : bool :=
  match a, b with
  | S754_zero s, S754_zero t | S754_infinity s, S754_infinity t => Bool.eqb s t
  | S754_nan, S754_nan => true
  | S754_finite s m e, S754_finite t n f => Bool.eqb s t && Pos.eqb m n && Z.eqb e f
  | _, _ => false
  end.

Definition same_float (x y : float) : bool := spec_eqb (Prim2SF x) (Prim2SF y).

Lemma same_float_eq x y : same_float x y = true -> x = y.
Proof.
  unfold same_float. intros H. apply Prim2SF_inj.
  destruct (Prim2SF x), (Prim2SF y); cbn in H; try discriminate;
    repeat match goal with
           | H : _ && _ = true |- _ => apply andb_prop in H as [? ?]
           | H : Bool.eqb _ _ = true |- _ => apply Bool.eqb_prop in H
           | H : Pos.eqb _ _ = true |- _ => apply Pos.eqb_eq in H
           | H : Z.eqb _ _ = true |- _ => apply Z.eqb_eq in H
           end; subst; reflexivity.
Qed.

(** ** Numbers are read up to the delimiter that follows them *)

Lemma take_digits_app base acc c l v k r rest :
  take_digits base acc c l = (v, k, r) ->
  (r = [] -> match rest with b :: _ => digit_value base b = None | [] => True end) ->
  take_digits base acc c (l ++ rest) = (v, k, r ++ rest).
Proof.
  revert acc c. induction l as [|b l IH]; intros acc c H Hr; cbn in H |- *.
  - inversion H; subst. specialize (Hr eq_refl).
    destruct rest as [|b rest]; [reflexivity|]. cbn. rewrite Hr. reflexivity.
  - destruct (digit_value base b); [apply IH; assumption|]. inversion H; subst. reflexivity.
Qed.

Lemma sign_cons b l :
  match b :: l with x2d :: r => (true, r) | _ => (false, b :: l) end =
  if Byte.eqb b x2d then (true, l) else (false, b :: l).
Proof. destruct b; reflexivity. Qed.

Lemma json_int_part_cons b r :
  json_int_part (b :: r) =
  if Byte.eqb b x30 then Some (0, r)
  else match digit_value 10 b with
       | Some _ => let '(m, _, r') := take_digits 10 0 0 (b :: r) in Some (m, r')
       | None => None
       end.
Proof. reflexivity. Qed.

Lemma json_frac_part_cons mi b r :
  json_frac_part mi (b :: r) =
  if Byte.eqb b x2e then
    match take_digits 10 mi 0 r with (m, S k, r') => Some (m, Z.of_nat (S k), r') | _ => None end
  else Some (mi, 0, b :: r).
Proof. destruct b; reflexivity. Qed.

Lemma json_exp_part_cons b r :
  json_exp_part (b :: r) =
  if Byte.eqb b x65 || Byte.eqb b x45 then
    let '(eneg, r') := match r with
                       | c :: r'' => if Byte.eqb c x2b then (false, r'') else if Byte.eqb c x2d then (true, r'')
                                     else (false, r)
                       | [] => (false, r)
                       end in
    match take_digits 10 0 0 r' with
    | (e, S _, r'') => Some (if eneg then - e else e, r'')
    | _ => None
    end
  else Some (0, b :: r).
Proof. destruct b; try reflexivity; destruct r as [|c r]; try reflexivity; destruct c; reflexivity. Qed.

(** What may follow a number: nothing, or a byte that is not a digit, a
    decimal point or an exponent mark. *)
Definition num_delim (rest : list byte) : bool :=
  match rest with
  | [] => true
  | b :: _ => match digit_value 10 b with Some _ => false | None => true end
              && negb (Byte.eqb b x2e) && negb (Byte.eqb b x65) && negb (Byte.eqb b x45)
  end.

Lemma num_delim_digit rest :
  num_delim rest = true -> match rest with b :: _ => digit_value 10 b = None | [] => True end.
Proof.
  destruct rest as [|b rest]; [trivial|]. cbn. destruct (digit_value 10 b); [discriminate|reflexivity].
Qed.

Lemma num_delim_cons b rest :
  num_delim (b :: rest) = true ->
  Byte.eqb b x2e = false /\ Byte.eqb b x65 = false /\ Byte.eqb b x45 = false.
Proof.
  cbn. destruct (digit_value 10 b); [discriminate|].
  destruct (Byte.eqb b x2e), (Byte.eqb b x65), (Byte.eqb b x45); cbn; auto; discriminate.
Qed.

Lemma take_digits_delim acc c l v k r rest :
  take_digits 10 acc c l = (v, k, r) -> num_delim rest = true ->
  take_digits 10 acc c (l ++ rest) = (v, k, r ++ rest).
Proof. intros H Hd. apply (take_digits_app _ _ _ _ _ _ _ _ H). intros _. apply num_delim_digit, Hd. Qed.

Lemma json_int_part_app l mi r rest :
  json_int_part l = Some (mi, r) -> num_delim rest = true -> json_int_part (l ++ rest) = Some (mi, r ++ rest).
Proof.
  intros H Hd. destruct l as [|b l]; [discriminate|].
  change ((b :: l) ++ rest) with (b :: (l ++ rest)).
  rewrite json_int_part_cons in H |- *. destruct (Byte.eqb b x30); [inversion H; reflexivity|].
  destruct (digit_value 10 b); [|discriminate].
  destruct (take_digits 10 0 0 (b :: l)) as [[m k] r'] eqn:Et. inversion H; subst.
  change (b :: l ++ rest) with ((b :: l) ++ rest).
  rewrite (take_digits_delim _ _ _ _ _ _ _ Et Hd). reflexivity.
Qed.

Lemma json_frac_part_app mi l m nf r rest :
  json_frac_part mi l = Some (m, nf, r) -> num_delim rest = true ->
  json_frac_part mi (l ++ rest) = Some (m, nf, r ++ rest).
Proof.
  intros H Hd. destruct l as [|b l].
  - cbn in H. inversion H; subst. destruct rest as [|c rest]; [reflexivity|].
    cbn [app]. rewrite json_frac_part_cons. rewrite (proj1 (num_delim_cons _ _ Hd)). reflexivity.
  - change ((b :: l) ++ rest) with (b :: (l ++ rest)).
    rewrite json_frac_part_cons in H |- *. destruct (Byte.eqb b x2e); [|inversion H; reflexivity].
    destruct (take_digits 10 mi 0 l) as [[m' [|k]] r'] eqn:Et; [discriminate|]. inversion H; subst.
    rewrite (take_digits_delim _ _ _ _ _ _ _ Et Hd). reflexivity.
Qed.

Lemma json_exp_part_app l e r rest :
  json_exp_part l = Some (e, r) -> num_delim rest = true -> json_exp_part (l ++ rest) = Some (e, r ++ rest).
Proof.
  intros H Hd. destruct l as [|b l].
  - cbn in H. inversion H; subst. destruct rest as [|c rest]; [reflexivity|].
    destruct (num_delim_cons _ _ Hd) as (_ & H1 & H2). cbn [app].
    rewrite json_exp_part_cons, H1, H2. reflexivity.
  - change ((b :: l) ++ rest) with (b :: (l ++ rest)).
    rewrite json_exp_part_cons in H |- *. destruct (Byte.eqb b x65 || Byte.eqb b x45); [|inversion H; reflexivity].
    destruct l as [|c l]; [discriminate|].
    change ((c :: l) ++ rest) with (c :: (l ++ rest)). cbv beta iota in H |- *.
    destruct (Byte.eqb c x2b); [|destruct (Byte.eqb c x2d)].
    + destruct (take_digits 10 0 0 l) as [[e' [|k]] r'] eqn:Et; [discriminate|]. inversion H; subst.
      rewrite (take_digits_delim _ _ _ _ _ _ _ Et Hd). reflexivity.
    + destruct (take_digits 10 0 0 l) as [[e' [|k]] r'] eqn:Et; [discriminate|]. inversion H; subst.
      rewrite (take_digits_delim _ _ _ _ _ _ _ Et Hd). reflexivity.
    + destruct (take_digits 10 0 0 (c :: l)) as [[e' [|k]] r'] eqn:Et; [discriminate|]. inversion H; subst.
      change (c :: l ++ rest) with ((c :: l) ++ rest).
      rewrite (take_digits_delim _ _ _ _ _ _ _ Et Hd). reflexivity.
Qed.

(** A number text read to its end is read the same when a delimiter
    follows it. *)
Lemma parse_json_number_app l x rest :
  parse_json_number l = Some (x, []) -> num_delim rest = true ->
  parse_json_number (l ++ rest) = Some (x, rest).
Proof.
  intros H Hd. destruct l as [|b l]; [discriminate|].
  unfold parse_json_number in *. change ((b :: l) ++ rest) with (b :: (l ++ rest)).
  cbv beta iota in H |- *. rewrite sign_cons in H |- *.
  destruct (Byte.eqb b x2d);
    [ destruct (json_int_part l) as [[mi r1]|] eqn:E1; [|discriminate]
    | destruct (json_int_part (b :: l)) as [[mi r1]|] eqn:E1; [|discriminate];
      change (b :: l ++ rest) with ((b :: l) ++ rest) ];
    rewrite (json_int_part_app _ _ _ _ E1 Hd);
    destruct (json_frac_part mi r1) as [[[m nf] r2]|] eqn:E2; try discriminate;
    rewrite (json_frac_part_app _ _ _ _ _ _ E2 Hd);
    destruct (json_exp_part r2) as [[e r3]|] eqn:E3; try discriminate;
    rewrite (json_exp_part_app _ _ _ _ E3 Hd); inversion H; subst; reflexivity.
Qed.

(** ** Which values the wire format carries unchanged *)

(** The text [Number::toString] gives for [x] reads back as [x].  It fails
    for NaN, the infinities and [-0] (printed ["0"]); it is decided by
    running both sides. *)
Definition number_ok (x : float) : bool :=
  is_finite x &&
  match parse_json_number (list_byte_of_string (number_to_string x)) with
  | Some (y, []) => same_float y x
  | _ => false
  end.

Fixpoint keys_distinct (ps : list (string * jsval)) : bool :=
  match ps with
  | [] => true
  | (k, _) :: r => negb (existsb (fun kv => String.eqb k (fst kv)) r) && keys_distinct r
  end.

(** No [undefined] (dropped or turned into [null]), numbers that read
    back, strings and keys without surrogates, distinct keys. *)
Fixpoint wire_safe (v : jsval) : bool :=
  match v with
  | JUndefined => false
  | JNull | JBool _ => true
  | JNumber x => number_ok x
  | JString s => no_surrogate (list_byte_of_string s)
  | JArray l => forallb wire_safe l
  | JObject ps =>
      keys_distinct ps &&
      forallb (fun kv => no_surrogate (list_byte_of_string (fst kv)) && wire_safe (snd kv)) ps
  end.

(** Induction on values through their arrays and objects. *)
Section JsvalInd.
Variable P : jsval -> Prop.
Hypothesis HU : P JUndefined.
Hypothesis HN : P JNull.
Hypothesis HB : forall b, P (JBool b).
Hypothesis HD : forall x, P (JNumber x).
Hypothesis HS : forall s, P (JString s).
Hypothesis HA : forall l, Forall P l -> P (JArray l).
Hypothesis HO : forall ps, Forall (fun kv => P (snd kv)) ps -> P (JObject ps).

Fixpoint jsval_rect' (v : jsval) : P v :=
  match v with
  | JUndefined => HU
  | JNull => HN
  | JBool b => HB b
  | JNumber x => HD x
  | JString s => HS s
  | JArray l =>
      HA l ((fix go (l : list jsval) : Forall P l :=
               match l with [] => Forall_nil _ | x :: r => Forall_cons _ (jsval_rect' x) (go r) end) l)
  | JObject ps =>
      HO ps ((fix go (ps : list (string * jsval)) : Forall (fun kv => P (snd kv)) ps :=
                match ps with
                | [] => Forall_nil _
                | kv :: r => Forall_cons _ (jsval_rect' (snd kv)) (go r)
                end) ps)
  end.
End JsvalInd.

(** [v] is read back from its text followed by [rest], with any fuel from
    some point on. *)
Definition reads_back_at (t : string) (v : jsval) : Prop :=
  forall rest, num_delim rest = true ->
  exists n, forall m, (n <= m)%nat -> parse_value m (list_byte_of_string t ++ rest) = POk v rest.

(** The first byte of a value's text: not white space, not a closing
    bracket or brace. *)
Definition lead_ok (t : string) : Prop :=
  exists b l, list_byte_of_string t = b :: l /\ is_ws b = false /\ Byte.eqb b x5d = false.

(** A value whose text does not start with [{], [[] or a quote is a
    scalar. *)
Lemma parse_value_scalar m b r :
  is_ws b = false -> Byte.eqb b x7b = false -> Byte.eqb b x5b = false -> Byte.eqb b x22 = false ->
  parse_value (S m) (b :: r) = parse_scalar (b :: r).
Proof. intros H1 H2 H3 H4. cbn [parse_value]. rewrite skip_ws_cons, H1. cbn [value_head]. rewrite H2, H3, H4. reflexivity. Qed.

Lemma literal_reads_back (lit : list byte) (v : jsval) (t : string) :
  list_byte_of_string t = lit ->
  (forall rest, parse_scalar (lit ++ rest) = POk v rest) ->
  is_ws (hd x00 lit) = false -> Byte.eqb (hd x00 lit) x7b = false -> Byte.eqb (hd x00 lit) x5b = false ->
  Byte.eqb (hd x00 lit) x22 = false -> lit <> [] ->
  reads_back_at t v.
Proof.
  intros Ht Hs H1 H2 H3 H4 Hne rest _. exists 1%nat. intros m Hm.
  destruct m as [|m]; [lia|]. rewrite Ht. destruct lit as [|b l]; [congruence|].
  cbn [hd] in *. cbn [app]. rewrite parse_value_scalar by assumption. exact (Hs rest).
Qed.

Lemma null_reads_back : reads_back_at "null" JNull /\ lead_ok "null".
Proof.
  split; [|do 2 eexists; split; [reflexivity|split; reflexivity]].
  apply (literal_reads_back null_lit); first [reflexivity | discriminate | intros rest; reflexivity].
Qed.

Lemma bool_reads_back (b : bool) :
  reads_back_at (if b then "true" else "false") (JBool b) /\ lead_ok (if b then "true" else "false").
Proof.
  destruct b; (split; [|do 2 eexists; split; [reflexivity|split; reflexivity]]).
  - apply (literal_reads_back true_lit); first [reflexivity | discriminate | intros rest; reflexivity].
  - apply (literal_reads_back false_lit); first [reflexivity | discriminate | intros rest; reflexivity].
Qed.

(** A number text starts with a minus sign or a digit. *)
Lemma parse_json_number_lead b l y r :
  parse_json_number (b :: l) = Some (y, r) -> bval b = 45 \/ 48 <= bval b <= 57.
Proof.
  unfold parse_json_number. cbv beta iota. rewrite sign_cons. intros H.
  destruct (Byte.eqb b x2d) eqn:E; [left; apply eqb_true in E; subst; reflexivity|].
  rewrite json_int_part_cons in H. right.
  destruct (Byte.eqb b x30) eqn:E0; [apply eqb_true in E0; subst; cbn; lia|].
  destruct (digit_value 10 b) eqn:Ed; [exact (digit_value_range _ _ Ed)|discriminate].
Qed.

Lemma number_lead_facts b :
  bval b = 45 \/ 48 <= bval b <= 57 ->
  is_ws b = false /\ Byte.eqb b x7b = false /\ Byte.eqb b x5b = false /\ Byte.eqb b x22 = false /\
  Byte.eqb b x5d = false /\ Byte.eqb x74 b = false /\ Byte.eqb x66 b = false /\ Byte.eqb x6e b = false.
Proof.
  intros Hb.
  assert (Hws : is_ws b = false)
    by (destruct (is_ws b) eqn:E; [apply is_ws_bval in E; lia|reflexivity]).
  repeat split; [exact Hws|..]; apply eqb_false_bval; cbn; lia.
Qed.

Lemma parse_literal_none b r :
  Byte.eqb x74 b = false -> Byte.eqb x66 b = false -> Byte.eqb x6e b = false -> parse_literal (b :: r) = None.
Proof. intros H1 H2 H3. unfold parse_literal. cbn [strip_prefix true_lit false_lit null_lit]. rewrite H1, H2, H3. reflexivity. Qed.

Lemma number_reads_back x :
  number_ok x = true -> reads_back_at (number_to_string x) (JNumber x) /\ lead_ok (number_to_string x).
Proof.
  unfold number_ok. intros H. apply andb_prop in H as [_ H].
  destruct (parse_json_number (list_byte_of_string (number_to_string x))) as [[y [|c r]]|] eqn:Ep;
    try discriminate.
  apply same_float_eq in H. subst y.
  destruct (list_byte_of_string (number_to_string x)) as [|b l] eqn:El; [discriminate|].
  destruct (number_lead_facts b (parse_json_number_lead _ _ _ _ Ep)) as (H1 & H2 & H3 & H4 & H5 & H6 & H7 & H8).
  split; [|exists b, l; auto].
  intros rest Hd. exists 1%nat. intros m Hm. destruct m as [|m]; [lia|].
  rewrite El. cbn [app]. rewrite parse_value_scalar by assumption.
  unfold parse_scalar. rewrite parse_literal_none by assumption.
  change (b :: l ++ rest) with ((b :: l) ++ rest). rewrite (parse_json_number_app _ _ _ Ep Hd). reflexivity.
Qed.

Lemma string_reads_back s :
  no_surrogate (list_byte_of_string s) = true -> reads_back_at (quote s) (JString s) /\ lead_ok (quote s).
Proof.
  intros H. unfold quote. split.
  - intros rest _. exists 1%nat. intros m Hm. destruct m as [|m]; [lia|].
    rewrite list_byte_of_string_of_list_byte. cbn [app]. rewrite <- app_assoc. cbn [app].
    rewrite parse_value_quoted by exact H. rewrite string_of_list_byte_of_string. reflexivity.
  - unfold lead_ok. rewrite list_byte_of_string_of_list_byte. do 2 eexists. split; [reflexivity|split; reflexivity].
Qed.

(** ** Arrays *)

(** An element's text ([undefined] is written [null]). *)
Definition elem_text (e : jsval) : string :=
  match json_stringify e with Some t => t | None => "null" end.

Lemma after_item_comma close r : after_item close (x2c :: r) = SComma r.
Proof. reflexivity. Qed.

Lemma after_item_close_array r : after_item x5d (x5d :: r) = SClose r.
Proof. reflexivity. Qed.

Lemma first_check (first : bool) b l :
  is_ws b = false -> Byte.eqb b x5d = false ->
  (if first then strip_byte x5d (skip_ws (b :: l)) else None) = None.
Proof. intros H1 H2. destruct first; [|reflexivity]. rewrite skip_ws_cons, H1. cbn. rewrite H2. reflexivity. Qed.

Lemma num_delim_comma r : num_delim (x2c :: r) = true.
Proof. reflexivity. Qed.

Lemma num_delim_rbracket r : num_delim (x5d :: r) = true.
Proof. reflexivity. Qed.

Lemma num_delim_rbrace r : num_delim (x7d :: r) = true.
Proof. reflexivity. Qed.

Lemma join_cons (a b : string) r : join "," (a :: b :: r) = (a ++ "," ++ join "," (b :: r))%string.
Proof. reflexivity. Qed.

(** The elements of a non-empty array, then its closing bracket. *)
Lemma parse_elems_list (es : list jsval) :
  es <> [] ->
  Forall (fun e => reads_back_at (elem_text e) e /\ lead_ok (elem_text e)) es ->
  forall acc first rest,
  exists n, forall m, (n <= m)%nat ->
    parse_elems m acc first (list_byte_of_string (join "," (List.map elem_text es)) ++ x5d :: rest) =
    POk (JArray (rev acc ++ es)) rest.
Proof.
  induction es as [|e es IH]; intros Hne HF acc first rest; [congruence|].
  inversion HF as [|? ? [He (b & l & Hl & Hws & Hb)] HF']; subst.
  destruct es as [|e2 es].
  - destruct (He (x5d :: rest) (num_delim_rbracket rest)) as [n Hn].
    exists (S n). intros m Hm. destruct m as [|m]; [lia|]. cbn [List.map join].
    cbn [parse_elems]. rewrite Hl. cbn [app]. rewrite first_check by assumption.
    change (b :: l ++ x5d :: rest) with ((b :: l) ++ x5d :: rest). rewrite <- Hl.
    rewrite Hn by lia. rewrite after_item_close_array. cbn [rev]. reflexivity.
  - destruct (IH ltac:(discriminate) HF' (e :: acc) false rest) as [n2 Hn2].
    set (R := list_byte_of_string (join "," (List.map elem_text (e2 :: es))) ++ x5d :: rest).
    destruct (He (x2c :: R) (num_delim_comma R)) as [n Hn].
    exists (S (Nat.max n n2)). intros m Hm. destruct m as [|m]; [lia|].
    change (List.map elem_text (e :: e2 :: es)) with (elem_text e :: List.map elem_text (e2 :: es)).
    cbn [List.map]. rewrite join_cons, !lbs_app, <- !app_assoc.
    cbn [parse_elems]. rewrite Hl. cbn [app]. rewrite first_check by assumption.
    change (b :: l ++ _) with ((b :: l) ++ list_byte_of_string "," ++
      list_byte_of_string (join "," (elem_text e2 :: List.map elem_text es)) ++ x5d :: rest).
    rewrite <- Hl. cbn [list_byte_of_string List.map list_ascii_of_string app].
    change (byte_of_ascii ",") with x2c. fold R.
    rewrite Hn by lia. rewrite after_item_comma. rewrite Hn2 by lia.
    cbn [rev]. rewrite <- app_assoc. reflexivity.
Qed.

(** ** Objects *)

(** A member's text, as [JSON.stringify] writes it. *)
Definition member_text (kv : string * jsval) : list string :=
  let '(k, e) := kv in
  match json_stringify e with Some t => [quote k ++ ":" ++ t]%string | None => [] end.

Definition member_line (kv : string * jsval) : string := (quote (fst kv) ++ ":" ++ elem_text (snd kv))%string.

Lemma member_texts ps :
  Forall (fun kv => json_stringify (snd kv) <> None) ps ->
  flat_map member_text ps = List.map member_line ps.
Proof.
  induction 1 as [|[k e] ps He _ IH]; [reflexivity|]. cbn [flat_map member_text List.map].
  unfold member_line, elem_text. cbn [fst snd] in He |- *.
  destruct (json_stringify e); [|congruence]. cbn. rewrite IH. reflexivity.
Qed.

Definition has_key (k : string) (props : list (string * jsval)) : bool :=
  existsb (fun kv => String.eqb k (fst kv)) props.

(** [CreateDataProperty] of a new key appends the member. *)
Lemma obj_insert_fresh k v props : has_key k props = false -> obj_insert k v props = props ++ [(k, v)].
Proof.
  induction props as [|[k' v'] props IH]; intros H; [reflexivity|].
  cbn in H |- *. apply orb_false_iff in H as [H1 H2]. try rewrite H1. rewrite IH by exact H2. reflexivity.
Qed.

Lemma has_key_app k p1 p2 : has_key k (p1 ++ p2) = has_key k p1 || has_key k p2.
Proof. unfold has_key. apply existsb_app. Qed.

Lemma parse_members_lead (first : bool) Q :
  (if first then strip_byte x7d (skip_ws (x22 :: Q)) else None) = None.
Proof. destruct first; reflexivity. Qed.

Lemma after_item_close_object r : after_item x7d (x7d :: r) = SClose r.
Proof. reflexivity. Qed.

(** The text of one member followed by [R]. *)
Lemma member_bytes kv R :
  list_byte_of_string (member_line kv) ++ R =
  x22 :: quote_bytes (list_byte_of_string (fst kv)) ++ x22 :: x3a ::
  list_byte_of_string (elem_text (snd kv)) ++ R.
Proof.
  unfold member_line, quote. rewrite !lbs_app, list_byte_of_string_of_list_byte.
  cbn [app]. rewrite <- !app_assoc. reflexivity.
Qed.

Lemma strip_quote Q : strip_byte x22 (skip_ws (x22 :: Q)) = Some Q.
Proof. reflexivity. Qed.

Lemma strip_colon Q : strip_byte x3a (skip_ws (x3a :: Q)) = Some Q.
Proof. reflexivity. Qed.

Lemma fresh_step (k : string) (e : jsval) (props ps : list (string * jsval)) :
  negb (existsb (fun kv => String.eqb k (fst kv)) ps) = true ->
  forallb (fun kv => negb (has_key (fst kv) props)) ps = true ->
  forallb (fun kv => negb (has_key (fst kv) (props ++ [(k, e)]))) ps = true.
Proof.
  induction ps as [|[k' e'] ps IH]; intros H1 H2; [reflexivity|]. cbn [existsb forallb fst] in *.
  apply negb_true_iff, orb_false_iff in H1 as [H1a H1b]. apply andb_prop in H2 as [H2a H2b].
  rewrite has_key_app. cbn [has_key existsb fst]. rewrite String.eqb_sym, H1a.
  apply negb_true_iff in H2a. rewrite H2a. cbn. apply IH; [rewrite H1b|]; auto.
Qed.

(** The members of a non-empty object with distinct new keys, then its
    closing brace. *)
Lemma parse_members_list (ps : list (string * jsval)) :
  ps <> [] ->
  Forall (fun kv => no_surrogate (list_byte_of_string (fst kv)) = true /\
                    reads_back_at (elem_text (snd kv)) (snd kv)) ps ->
  keys_distinct ps = true ->
  forall props first rest,
  forallb (fun kv => negb (has_key (fst kv) props)) ps = true ->
  exists n, forall m, (n <= m)%nat ->
    parse_members m props first
      (list_byte_of_string (join "," (List.map member_line ps)) ++ x7d :: rest) =
    POk (JObject (props ++ ps)) rest.
Proof.
  induction ps as [|[k e] ps IH]; intros Hne HF Hd props first rest Hf; [congruence|].
  inversion HF as [|? ? [Hk He] HF']; subst. cbn [fst snd] in Hk. cbn [fst snd] in He.
  cbn [keys_distinct] in Hd. apply andb_prop in Hd as [Hd1 Hd2].
  cbn [forallb fst] in Hf. apply andb_prop in Hf as [Hf1 Hf2]. apply negb_true_iff in Hf1.
  destruct ps as [|kv2 ps].
  - destruct (He (x7d :: rest) (num_delim_rbrace rest)) as [n Hn].
    exists (S n). intros m Hm. destruct m as [|m]; [lia|].
    cbn [List.map join]. rewrite (member_bytes (k, e)). cbn [fst snd parse_members].
    rewrite parse_members_lead, strip_quote. cbv beta iota.
    rewrite parse_chars_quote by exact Hk. cbv beta iota. rewrite strip_colon. cbv beta iota.
    rewrite Hn by lia. rewrite string_of_list_byte_of_string, after_item_close_object.
    rewrite obj_insert_fresh by exact Hf1. reflexivity.
  - destruct (IH ltac:(discriminate) HF' Hd2 (props ++ [(k, e)]) false rest
                (fresh_step _ _ _ _ Hd1 Hf2)) as [n2 Hn2].
    set (R := list_byte_of_string (join "," (List.map member_line (kv2 :: ps))) ++ x7d :: rest).
    destruct (He (x2c :: R) (num_delim_comma R)) as [n Hn].
    exists (S (Nat.max n n2)). intros m Hm. destruct m as [|m]; [lia|].
    change (List.map member_line ((k, e) :: kv2 :: ps)) with (member_line (k, e) :: List.map member_line (kv2 :: ps)).
    cbn [List.map]. rewrite join_cons, !lbs_app, <- !app_assoc.
    rewrite (member_bytes (k, e)). cbn [fst snd parse_members].
    rewrite parse_members_lead, strip_quote. cbv beta iota.
    rewrite parse_chars_quote by exact Hk. cbv beta iota. rewrite strip_colon. cbv beta iota.
    cbn [list_byte_of_string List.map list_ascii_of_string app].
    change (byte_of_ascii ",") with x2c. fold R.
    rewrite Hn by lia. rewrite string_of_list_byte_of_string, after_item_comma.
    rewrite obj_insert_fresh by exact Hf1. rewrite Hn2 by lia. rewrite <- app_assoc. reflexivity.
Qed.

(** ** Every wire-safe value *)

Lemma fresh_nil (ps : list (string * jsval)) : forallb (fun kv => negb (has_key (fst kv) [])) ps = true.
Proof. induction ps as [|kv ps IH]; [reflexivity|]. exact IH. Qed.

Lemma parse_value_array m R : parse_value (S m) (x5b :: R) = parse_elems m [] true R.
Proof. reflexivity. Qed.

Lemma parse_value_object m R : parse_value (S m) (x7b :: R) = parse_members m [] true R.
Proof. reflexivity. Qed.

Lemma bracket_bytes (o c : string) (J : string) rest b1 b2 :
  list_byte_of_string o = [b1] -> list_byte_of_string c = [b2] ->
  list_byte_of_string (o ++ J ++ c) ++ rest = b1 :: list_byte_of_string J ++ b2 :: rest.
Proof. intros Ho Hc. rewrite !lbs_app, Ho, Hc, <- !app_assoc. reflexivity. Qed.

Lemma stringify_reads_back v :
  wire_safe v = true -> exists t, json_stringify v = Some t /\ reads_back_at t v /\ lead_ok t.
Proof.
  induction v as [| |b|x|str|l IH|ps IH] using jsval_rect'; intros H; cbn [wire_safe] in H;
    try discriminate.
  - exists "null"%string. split; [reflexivity|exact null_reads_back].
  - exists (if b then "true" else "false")%string. split; [destruct b; reflexivity|exact (bool_reads_back b)].
  - exists (number_to_string x). pose proof H as Hf. unfold number_ok in Hf.
    apply andb_prop in Hf as [Hf _]. split; [cbn; rewrite Hf; reflexivity|exact (number_reads_back x H)].
  - exists (quote str). split; [reflexivity|exact (string_reads_back str H)].
  - assert (HF : Forall (fun e => reads_back_at (elem_text e) e /\ lead_ok (elem_text e)) l).
    { rewrite Forall_forall in IH |- *. intros e Hin.
      destruct (IH e Hin (proj1 (forallb_forall _ _) H e Hin)) as (t & Hs & Hr & Hl).
      unfold elem_text. rewrite Hs. auto. }
    exists ("[" ++ join "," (List.map elem_text l) ++ "]")%string. split; [reflexivity|]. split.
    + intros rest _. rewrite (bracket_bytes "[" "]" _ rest x5b x5d eq_refl eq_refl).
      destruct l as [|e l].
      * exists 2%nat. intros m Hm. destruct m as [|[|m]]; [lia|lia|reflexivity].
      * destruct (parse_elems_list (e :: l) ltac:(discriminate) HF [] true rest) as [n Hn].
        exists (S n). intros m Hm. destruct m as [|m]; [lia|].
        rewrite parse_value_array, Hn by lia. reflexivity.
    + do 2 eexists. split; [rewrite lbs_app; reflexivity|split; reflexivity].
  - apply andb_prop in H as [Hd H].
    assert (HF : Forall (fun kv => no_surrogate (list_byte_of_string (fst kv)) = true /\
                                   reads_back_at (elem_text (snd kv)) (snd kv)) ps /\
                 Forall (fun kv => json_stringify (snd kv) <> None) ps).
    { rewrite !Forall_forall in *. split; intros kv Hin;
        pose proof (proj1 (forallb_forall _ _) H kv Hin) as Hkv; apply andb_prop in Hkv as [Hk He];
        destruct (IH kv Hin He) as (t & Hs & Hr & _); [unfold elem_text; rewrite Hs; auto|congruence]. }
    destruct HF as [HF HS].
    exists ("{" ++ join "," (List.map member_line ps) ++ "}")%string.
    split; [cbn [json_stringify]; change (fun '(k, e) => _) with member_text; rewrite member_texts by exact HS;
            reflexivity|]. split.
    + intros rest _. rewrite (bracket_bytes "{" "}" _ rest x7b x7d eq_refl eq_refl).
      destruct ps as [|kv ps].
      * exists 2%nat. intros m Hm. destruct m as [|[|m]]; [lia|lia|reflexivity].
      * destruct (parse_members_list (kv :: ps) ltac:(discriminate) HF Hd [] true rest (fresh_nil _)) as [n Hn].
        exists (S n). intros m Hm. destruct m as [|m]; [lia|].
        rewrite parse_value_object, Hn by lia. reflexivity.
    + do 2 eexists. split; [rewrite lbs_app; reflexivity|split; reflexivity].
Qed.

(** [JSON.parse(JSON.stringify(v))] gives [v] back for
    every value the wire format carries unchanged ([wire_safe]): no
    [undefined], numbers whose [Number::toString] text reads back as the
    same double, strings and keys without surrogates, distinct keys; at
    any depth of arrays and objects, with [JSON.parse]'s fuel. *)
Theorem json_parse_stringify (v : jsval) :
  wire_safe v = true -> exists t, json_stringify v = Some t /\ json_parse t = inr v.
Proof.
  intros H. destruct (stringify_reads_back v H) as (t & Hs & Hr & _).
  exists t. split; [exact Hs|].
  destruct (Hr [] eq_refl) as [n Hn]. rewrite app_nil_r in Hn.
  unfold json_parse. set (l := list_byte_of_string t).
  destruct (parse_enough_fuel (2 * List.length l + 2)) as (Hv & _ & _).
  assert (Hok : parse_value (2 * List.length l + 2) l <> POutOfFuel) by (apply Hv; lia).
  destruct (parse_fuel_mono (2 * List.length l + 2)) as (Hm & _ & _).
  rewrite <- (Hm l n Hok), Hn by lia. reflexivity.
Qed.

End RoundTrip.
