(* ===== verification/Transport.v ===== *)
(** * The MQTT transport: the paho-mqtt client the component drives

    [ngOnInit] creates [new Client('broker.hivemq.com', 8000, 'aaa')],
    calls [connect({onSuccess, onFailure})] and subscribes to [MapL] in
    [onSuccess]; [sendMessage] publishes, [ngOnDestroy] unsubscribes.
    paho-mqtt is a library the component only calls; this file models
    the part of its documented behaviour the component relies on:

    - [subscribe], [unsubscribe] and [send] throw
      ["Invalid state not connected"] on a client that is not connected;
    - the connection is asynchronous: [connect] starts it and exactly one
      of [onSuccess] / [onFailure] follows; there is no automatic
      reconnection (the [reconnect] option is not set);
    - an exception thrown by [onMessageArrived] is caught by the client,
      which then disconnects ([_handleMessage] calls [_disconnected]); a
      clean session loses its subscriptions and undelivered messages.

    The broker (MQTT 3.1.1, QoS 0) forwards a message published on a
    topic to every client subscribed to it, the publisher included, in
    publication order.

    The file states this as a contract ([MqttClient], [MqttLaws]) with
    its consequences (Section [Contract]), models paho-mqtt's client
    (Module [Paho]) and proves that the model meets the contract
    ([paho_laws]). *)

From Stdlib Require Import List String Bool.
From S2P Require Import Prelude JsValue.
Import ListNotations.
Local Open Scope string_scope.

(** ["Invalid state not connected"], what paho throws from a call that
    needs a connection. *)
Definition not_connected : exn := InvalidState "not connected".

(** ** The contract the component relies on

    [MqttClient] lists the client operations the component calls (and
    the observations the broker and the proofs make); [MqttLaws] states
    what paho-mqtt's documentation promises about them.  The component
    (Component.v) is written and proved against these two classes;
    [Paho] below is their implementation. *)

Class MqttClient (C : Type) := {
  mq_new : C;                                  (** [new Client(...)] *)
  mq_connect : C -> C;                         (** [client.connect(...)] *)
  mq_connect_done : bool -> C -> C;            (** CONNACK or failure *)
  mq_subscribe : string -> C -> exn + C;
  mq_unsubscribe : string -> C -> exn + C;
  mq_publish : string -> string -> C -> exn + C;
  mq_disconnect : C -> C;                      (** [_disconnected] *)
  mq_connected : C -> bool;
  mq_connecting : C -> bool;
  mq_subscribed : string -> C -> bool;         (** the broker delivers the topic *)
  mq_sent : C -> list (string * string)        (** (topic, payload) published *)
}.

Class MqttLaws (C : Type) `{MqttClient C} : Prop := {
  mq_new_idle : mq_connected mq_new = false /\ mq_connecting mq_new = false;
  mq_connect_pending c : mq_connecting (mq_connect c) = true /\ mq_connected (mq_connect c) = false;
  mq_connect_done_state ok c :
    mq_connecting (mq_connect_done ok c) = false /\ mq_connected (mq_connect_done ok c) = ok;
  mq_disconnect_state c : mq_connected (mq_disconnect c) = false /\ mq_connecting (mq_disconnect c) = false;
  mq_subscribed_connected t c : mq_subscribed t c = true -> mq_connected c = true;
  mq_subscribe_offline t c : mq_connected c = false -> mq_subscribe t c = inl not_connected;
  mq_unsubscribe_offline t c : mq_connected c = false -> mq_unsubscribe t c = inl not_connected;
  mq_publish_offline t p c : mq_connected c = false -> mq_publish t p c = inl not_connected;
  mq_subscribe_online t c :
    mq_connected c = true ->
    exists k, mq_subscribe t c = inr k /\ mq_subscribed t k = true /\ mq_connecting k = mq_connecting c;
  mq_unsubscribe_online t c :
    mq_connected c = true ->
    exists k, mq_unsubscribe t c = inr k /\ mq_connected k = true /\ mq_connecting k = mq_connecting c /\
      (forall u, u <> t -> mq_subscribed u k = mq_subscribed u c);
  mq_publish_online t p c :
    mq_connected c = true ->
    exists k, mq_publish t p c = inr k /\ mq_connected k = true /\ mq_connecting k = mq_connecting c /\
      (forall u, mq_subscribed u k = mq_subscribed u c) /\ mq_sent k = (mq_sent c ++ [(t, p)])%list
}.

(** ** Consequences of the contract *)

Section Contract.
Context {C : Type} {MC : MqttClient C} {ML : MqttLaws C}.

(** A call that needs the connection and keeps it. *)
Definition conn_step (c k : C) : Prop :=
  mq_connected c = true /\ mq_connected k = true /\ mq_connecting k = mq_connecting c.

(** What [publish(t, p)] does to the client. *)
Definition published (t p : string) (c k : C) : Prop :=
  conn_step c k /\ (forall u, mq_subscribed u k = mq_subscribed u c) /\ mq_sent k = (mq_sent c ++ [(t, p)])%list.

Lemma mq_subscribed_offline t c : mq_connected c = false -> mq_subscribed t c = false.
Proof.
  intros Hc. destruct (mq_subscribed t c) eqn:E; [|reflexivity].
  rewrite (mq_subscribed_connected _ _ E) in Hc. discriminate.
Qed.

(** A call that throws offline and succeeds online with [Q]: a result
    means the client was connected and [Q] holds of it. *)
Lemma online_result (f : C -> exn + C) (Q : C -> Prop) c k e :
  (mq_connected c = false -> f c = inl e) ->
  (mq_connected c = true -> exists k', f c = inr k' /\ Q k') ->
  f c = inr k -> mq_connected c = true /\ Q k.
Proof.
  intros Hoff Hon E. destruct (mq_connected c) eqn:Hc.
  - destruct (Hon eq_refl) as (k' & E' & HQ). rewrite E in E'. injection E' as ->. auto.
  - rewrite (Hoff eq_refl) in E. discriminate.
Qed.

Lemma mq_subscribe_inr t c k : mq_subscribe t c = inr k -> conn_step c k /\ mq_subscribed t k = true.
Proof.
  intros E. destruct (online_result _ _ c k _ (mq_subscribe_offline t c) (mq_subscribe_online t c) E)
    as (Hc & Hs & Hn).
  repeat split; eauto using mq_subscribed_connected.
Qed.

Lemma mq_unsubscribe_inr t c k :
  mq_unsubscribe t c = inr k -> conn_step c k /\ (forall u, u <> t -> mq_subscribed u k = mq_subscribed u c).
Proof.
  intros E. destruct (online_result _ _ c k _ (mq_unsubscribe_offline t c) (mq_unsubscribe_online t c) E)
    as (Hc & Hk & Hn & Hs).
  repeat split; auto.
Qed.

Lemma mq_publish_inr t p c k : mq_publish t p c = inr k -> published t p c k.
Proof.
  intros E. destruct (online_result _ _ c k _ (mq_publish_offline t p c) (mq_publish_online t p c) E)
    as (Hc & Hk & Hn & Hs & Ht).
  repeat split; auto.
Qed.

Lemma conn_step_trans c k l : conn_step c k -> conn_step k l -> conn_step c l.
Proof. intros (H1 & H2 & H3) (H4 & H5 & H6). repeat split; congruence. Qed.

End Contract.

Module Paho.

Record client : Type := Client {
  connecting : bool;             (** [connect] called, no callback yet *)
  connected : bool;
  subscriptions : list string;
  sent : list (string * string)  (** (topic, payload) published, in order *)
}.

(** [new Client(host, port, clientId)] *)
Definition new_client : client := Client false false [] [].

(** [client.connect(...)]: the connection is under way. *)
Definition connect (c : client) : client := Client true false (subscriptions c) (sent c).

(** The connection attempt ends: [onSuccess] or [onFailure] follows. *)
Definition connect_done (ok : bool) (c : client) : client :=
  Client false ok (subscriptions c) (sent c).

Definition add_topic (t : string) (ts : list string) : list string :=
  if existsb (String.eqb t) ts then ts else ts ++ [t].

Definition subscribe (t : string) (c : client) : exn + client :=
  if connected c then inr (Client (connecting c) true (add_topic t (subscriptions c)) (sent c))
  else inl not_connected.

Definition unsubscribe (t : string) (c : client) : exn + client :=
  if connected c
  then inr (Client (connecting c) true (filter (fun u => negb (String.eqb t u)) (subscriptions c)) (sent c))
  else inl not_connected.

(** [client.publish(topic, payload)] (through [send]). *)
Definition publish (t p : string) (c : client) : exn + client :=
  if connected c then inr (Client (connecting c) true (subscriptions c) (sent c ++ [(t, p)]))
  else inl not_connected.

(** [_disconnected]: the connection is closed, the clean session with
    its subscriptions is gone. *)
Definition disconnect (c : client) : client := Client false false [] (sent c).

Definition subscribed (t : string) (c : client) : bool :=
  connected c && existsb (String.eqb t) (subscriptions c).

(** ** Lemmas *)

Lemma subscribe_connected t c c' : subscribe t c = inr c' -> subscribed t c' = true.
Proof.
  unfold subscribe, subscribed, add_topic. destruct (connected c); [|discriminate].
  intros H; inversion H; subst; cbn.
  destruct (existsb (String.eqb t) (subscriptions c)) eqn:E; [exact E|].
  rewrite existsb_app. cbn. rewrite String.eqb_refl, orb_true_r. reflexivity.
Qed.

Lemma unsubscribe_other t u c c' :
  t <> u -> unsubscribe t c = inr c' -> subscribed u c' = subscribed u c.
Proof.
  intros Htu. unfold unsubscribe, subscribed. destruct (connected c); [|discriminate].
  intros H; inversion H; subst; cbn. apply existsb_filter_other; exact Htu.
Qed.

Lemma publish_not_connected t p c : connected c = false -> publish t p c = inl not_connected.
Proof. unfold publish. intros ->. reflexivity. Qed.

(** The calls that need a connection keep it and the connection state. *)
Definition conn_step (c k : client) : Prop :=
  connected c = true /\ connected k = true /\ connecting k = connecting c.

Lemma publish_step t p c k : publish t p c = inr k -> conn_step c k /\ subscriptions k = subscriptions c.
Proof. unfold publish. destruct (connected c) eqn:E; intros H; inversion H; subst; cbn; unfold conn_step; auto. Qed.

Lemma subscribe_step t c k : subscribe t c = inr k -> conn_step c k.
Proof. unfold subscribe. destruct (connected c) eqn:E; intros H; inversion H; subst; cbn; unfold conn_step; auto. Qed.

Lemma unsubscribe_step t c k : unsubscribe t c = inr k -> conn_step c k.
Proof. unfold unsubscribe. destruct (connected c) eqn:E; intros H; inversion H; subst; cbn; unfold conn_step; auto. Qed.

End Paho.

(** ** paho-mqtt meets the contract *)

#[export] Instance paho_client : MqttClient Paho.client := {|
  mq_new := Paho.new_client;
  mq_connect := Paho.connect;
  mq_connect_done := Paho.connect_done;
  mq_subscribe := Paho.subscribe;
  mq_unsubscribe := Paho.unsubscribe;
  mq_publish := Paho.publish;
  mq_disconnect := Paho.disconnect;
  mq_connected := Paho.connected;
  mq_connecting := Paho.connecting;
  mq_subscribed := Paho.subscribed;
  mq_sent := Paho.sent
|}.

#[export] Instance paho_laws : MqttLaws Paho.client.
Proof.
  constructor; cbn.
  - split; reflexivity.
  - split; reflexivity.
  - split; reflexivity.
  - split; reflexivity.
  - intros t c H. unfold Paho.subscribed in H. apply andb_prop in H. apply H.
  - intros t c H. unfold Paho.subscribe. rewrite H. reflexivity.
  - intros t c H. unfold Paho.unsubscribe. rewrite H. reflexivity.
  - intros t p c H. unfold Paho.publish. rewrite H. reflexivity.
  - intros t c H. eexists. split; [unfold Paho.subscribe; rewrite H; reflexivity|].
    split; [|reflexivity]. apply (Paho.subscribe_connected t c). unfold Paho.subscribe. rewrite H. reflexivity.
  - intros t c H. eexists. split; [unfold Paho.unsubscribe; rewrite H; reflexivity|].
    split; [reflexivity|]. split; [reflexivity|]. intros u Hu.
    apply (Paho.unsubscribe_other t u c); [congruence|]. unfold Paho.unsubscribe. rewrite H. reflexivity.
  - intros t p c H. eexists. split; [unfold Paho.publish; rewrite H; reflexivity|].
    repeat split. intros u. unfold Paho.subscribed. cbn. rewrite H. reflexivity.
Qed.
