(* ===== verification/MapSurface.v ===== *)
(** * The map surface: the part of Leaflet the component drives

    Leaflet ([L.map], [L.marker], [L.polyline], [L.latLng]) and
    leaflet-routing-machine ([L.Routing.control], [L.Routing.plan]) are
    libraries the component only calls.  This file models the state those
    calls change (a map with its layers, view and open popup) and which
    arguments make them throw, from Leaflet's documented contract:
    [new LatLng(a, b)] throws when [isNaN(a) || isNaN(b)] and stores [+a],
    [+b]; [L.polyline] throws in its constructor on such a point, but
    keeps a point it converts to [null] and throws only when [addTo]
    projects it, the layer already registered; [openPopup] pans the map
    as the popup's [autoPan] requires, which the page's layout decides
    ([popup_pan]); a marker handle is the index of its layer. *)

From Stdlib Require Import List String Bool ZArith Lia PrimFloat.
From S2P Require Import Prelude JsValue.
Import ListNotations.
Set Warnings "-inexact-float".

Module Leaflet.

Record latlng : Type := LatLng { lat : float; lng : float }.

(** Path options of [L.polyline]. *)
Record path_style : Type := PathStyle {
  color : string; weight : Z; opacity : float; line_join : string }.

(** Popup content: the HTML string given to [bindPopup]. *)
Inductive popup : Type :=
| PopupHtml (html : string).

(** [myIcon] of [ngOnInit], or Leaflet's stock icon. *)
Inductive icon : Type := StockIcon | MyIcon.

Record marker : Type := Marker {
  m_pos : latlng; m_title : option string; m_icon : icon; m_popup : option popup }.

(** A routing waypoint: [latLng] may be [null]/[undefined], in which case
    the plan is not ready and no route is requested. *)
Record waypoint : Type := Waypoint { wp_latlng : option latlng; wp_name : string }.

Inductive layer : Type :=
| TileLayer (url : string) (max_zoom : Z)
| MarkerLayer (m : marker)
| PolylineLayer (from to : latlng) (style : path_style)
| UnprojectedPolyline (p q : jsval * jsval) (style : path_style)
    (** a polyline registered with points Leaflet could not project: never drawn *)
| RoutingControl (wps : list waypoint) (show : bool)
| RoutingPlan (wps : list (option latlng)) (draggable add_waypoints route_while_dragging : bool).

(** Where the map pans to bring an opening popup into view.  A [Popup]
    has [autoPan] on by default: when it opens, [_adjustPan] compares the
    popup's container, placed at its marker with the icon's
    [popupAnchor], with the map's size (less [autoPanPadding]) and calls
    [map.panBy([dx, dy])] when it does not fit.  The offset depends on the
    pixel sizes of the map's container and of the rendered popup, which
    the page's layout decides; the model keeps it as a function of the
    centre, the zoom and the marker (its position, icon and popup), fixed
    when the map is created.  It is the centre itself when the popup fits. *)
Definition popup_pan : Type := latlng -> Z -> marker -> latlng.

Record lmap : Type := LMap {
  center : latlng;
  zoom : Z;
  layers : list layer;
  popup_on : option nat;  (** the layer whose popup is open *)
  autopan : popup_pan     (** the layout's [_adjustPan] *)
}.

(** A page whose map container is large enough for every popup: [autoPan]
    never pans. *)
Definition popups_fit : popup_pan := fun c _ _ => c.

(** ** Coordinates *)

(** [new LatLng(a, b)] *)
Definition mk_latlng (a b : jsval) : exn + latlng :=
  let x := to_number a in
  let y := to_number b in
  if is_nan x || is_nan y then inl InvalidLatLng else inr (LatLng x y).

(** The points of [L.polyline([[a, b], [c, d]], style)].  [_convertLatLngs]
    treats the array as flat when [typeof a] is neither ['object'] nor
    ['undefined'], and then converts each point with [toLatLng([x, y])]:
    [new LatLng(x, y)] when [typeof x] is not ['object'], [null] otherwise.
    A non-flat array, or a point converted to [null], is not a [LatLng]:
    adding the layer then throws a [TypeError] while projecting it. *)
Definition first_point (p : jsval * jsval) : exn + latlng :=
  let (a, b) := p in
  match a with
  | JUndefined => inl (TypeError "projection")
  | _ => if typeof_object a then inl (TypeError "projection") else mk_latlng a b
  end.

Definition next_point (p : jsval * jsval) : exn + latlng :=
  let (a, b) := p in
  if typeof_object a then inl (TypeError "projection") else mk_latlng a b.

(** [L.latLng(a, b)] with two arguments ([toLatLng]): [inr None] when it
    returns [null] or [undefined] rather than a [LatLng]. *)
Definition to_latlng2 (a b : jsval) : exn + option latlng :=
  let build x y := match mk_latlng x y with inl e => inl e | inr l => inr (Some l) end in
  let two_args := match b with JUndefined => inr None | _ => build a b end in
  match a with
  | JArray l =>
      if typeof_object (nth 0 l JUndefined) then two_args
      else match l with [x; y] | [x; y; _] => build x y | _ => inr None end
  | JUndefined | JNull => inr None
  | JObject props =>
      match assoc_lookup "lat" props with
      | Some la =>
          build la (match assoc_lookup "lng" props with
                    | Some v => v
                    | None => match assoc_lookup "lon" props with Some v => v | None => JUndefined end
                    end)
      | None => two_args
      end
  | _ => two_args
  end.

(** ** Operations *)

Definition add_layer (l : layer) (m : lmap) : lmap * nat :=
  (LMap (center m) (zoom m) (layers m ++ [l]) (popup_on m) (autopan m), List.length (layers m)).

(** The map [L.polyline(...).addTo(map)] leaves when it throws [e].  A
    NaN coordinate makes [new LatLng] throw in the constructor, before
    [addTo]: the map is unchanged.  A point converted to [null] or
    [undefined] (or a non-flat array) is kept as it is; [map.addLayer]
    registers the layer, then [onAdd] throws a [TypeError] while
    projecting it: the layer stays among the map's layers, undrawn. *)
Definition polyline_failed (e : exn) (p q : jsval * jsval) (st : path_style) (m : lmap) : lmap :=
  match e with
  | InvalidLatLng => m
  | _ => fst (add_layer (UnprojectedPolyline p q st) m)
  end.

(** [L.polyline([[a, b], [c, d]], style).addTo(map)]: a call that may
    throw after it has changed the map. *)
Definition add_polyline (p q : jsval * jsval) (st : path_style) : M exn lmap unit :=
  fun m =>
  match first_point p, next_point q with
  | inr a, inr b => Done tt (fst (add_layer (PolylineLayer a b st) m))
  | inl e, _ | _, inl e => Raised e (polyline_failed e p q st m)
  end.

Definition marker_at (h : nat) (m : lmap) : option marker :=
  match nth_error (layers m) h with Some (MarkerLayer mk) => Some mk | _ => None end.

(** What [marker.setLatLng(p)] does once [p] is a [LatLng]: the marker
    moves, keeping its title, icon and popup (a handle that is not a
    marker is left alone). *)
Definition move_marker (h : nat) (p : latlng) (m : lmap) : lmap :=
  match marker_at h m with
  | Some mk =>
      LMap (center m) (zoom m)
           (replace_nth h (MarkerLayer (Marker p (m_title mk) (m_icon mk) (m_popup mk))) (layers m))
           (popup_on m) (autopan m)
  | None => m
  end.

(** [marker.setLatLng([x, y])] with numbers [x], [y]: [toLatLng] first. *)
Definition set_latlng (h : nat) (x y : float) (m : lmap) : exn + lmap :=
  match mk_latlng (JNumber x) (JNumber y) with
  | inl e => inl e
  | inr p => inr (move_marker h p m)
  end.

(** [marker.getLatLng()] *)
Definition get_latlng (h : nat) (m : lmap) : option latlng := option_map m_pos (marker_at h m).

(** [marker.openPopup()]: opens the bound popup (closing the open one)
    and pans the map as [autoPan] does; does nothing for a marker with no
    popup. *)
Definition open_popup (h : nat) (m : lmap) : lmap :=
  match marker_at h m with
  | Some mk =>
      match m_popup mk with
      | Some _ => LMap (autopan m (center m) (zoom m) mk) (zoom m) (layers m) (Some h) (autopan m)
      | None => m
      end
  | None => m
  end.

(** [map.setZoom(z)], [map.panTo(p)] *)
Definition set_zoom (z : Z) (m : lmap) : lmap := LMap (center m) z (layers m) (popup_on m) (autopan m).
Definition pan_to (p : latlng) (m : lmap) : lmap := LMap p (zoom m) (layers m) (popup_on m) (autopan m).

(** [L.marker(a, {title, icon})]: the position is [toLatLng(a)]
    (Leaflet's default title is [''], written [None]).  A position that is
    not a [LatLng] makes the marker throw when it is added to the map, the
    call that always follows here. *)
Definition new_marker (a : jsval) (title : option string) (ic : icon) : exn + marker :=
  match to_latlng2 a JUndefined with
  | inl e => inl e
  | inr None => inl (TypeError "projection")
  | inr (Some p) => inr (Marker p title ic None)
  end.

(** [marker.bindPopup(content)] *)
Definition bind_popup (h : nat) (p : popup) (m : lmap) : lmap :=
  match marker_at h m with
  | Some mk =>
      LMap (center m) (zoom m)
           (replace_nth h (MarkerLayer (Marker (m_pos mk) (m_title mk) (m_icon mk) (Some p))) (layers m))
           (popup_on m) (autopan m)
  | None => m
  end.

(** ** Observations *)

(** The segments drawn, in drawing order. *)
Fixpoint segments (ls : list layer) : list (latlng * latlng) :=
  match ls with
  | [] => []
  | PolylineLayer a b _ :: r => (a, b) :: segments r
  | _ :: r => segments r
  end.

Fixpoint marker_count (ls : list layer) : nat :=
  match ls with
  | [] => 0
  | MarkerLayer _ :: r => S (marker_count r)
  | _ :: r => marker_count r
  end.

(** ** Lemmas on the operations *)

Lemma mk_latlng_inr a b p :
  mk_latlng a b = inr p ->
  p = LatLng (to_number a) (to_number b) /\ is_nan (to_number a) = false /\ is_nan (to_number b) = false.
Proof.
  unfold mk_latlng. destruct (is_nan (to_number a)) eqn:Ha, (is_nan (to_number b)) eqn:Hb;
    cbn; intros H; inversion H; auto.
Qed.

Lemma mk_latlng_numbers x y :
  is_nan x = false -> is_nan y = false -> mk_latlng (JNumber x) (JNumber y) = inr (LatLng x y).
Proof. intros Hx Hy. unfold mk_latlng. cbn. rewrite Hx, Hy. reflexivity. Qed.

Lemma next_point_numbers x y :
  is_nan x = false -> is_nan y = false -> next_point (JNumber x, JNumber y) = inr (LatLng x y).
Proof. apply mk_latlng_numbers. Qed.

(** A point Leaflet accepts is the pair of its coordinates' numbers. *)
Lemma next_point_inr a b p :
  next_point (a, b) = inr p ->
  p = LatLng (to_number a) (to_number b) /\ is_nan (to_number a) = false /\ is_nan (to_number b) = false.
Proof. unfold next_point. destruct (typeof_object a); [discriminate|apply mk_latlng_inr]. Qed.

(** As a first point it is accepted as well: its first coordinate is not
    [undefined], whose number is NaN. *)
Lemma next_point_first a b p : next_point (a, b) = inr p -> first_point (a, b) = inr p.
Proof.
  intros H. pose proof (next_point_inr _ _ _ H) as (_ & Ha & _).
  destruct a; try exact H. discriminate.
Qed.

Lemma first_point_next a b p : first_point (a, b) = inr p -> next_point (a, b) = inr p.
Proof. destruct a; cbn; intros H; try discriminate; exact H. Qed.

Lemma add_polyline_inr p q st m a b :
  first_point p = inr a -> next_point q = inr b ->
  add_polyline p q st m = Done tt (LMap (center m) (zoom m) (layers m ++ [PolylineLayer a b st]) (popup_on m) (autopan m)).
Proof. intros Hp Hq. unfold add_polyline. rewrite Hp, Hq. reflexivity. Qed.

Lemma add_polyline_inl p q st m :
  (exists e, first_point p = inl e) \/ (exists e, next_point q = inl e) ->
  exists e, add_polyline p q st m = Raised e (polyline_failed e p q st m).
Proof.
  unfold add_polyline. intros [[e He]|[e He]]; rewrite He; eauto.
  destruct (first_point p); eauto.
Qed.

(** Whatever it does, [add_polyline] adds at most a layer that is not a
    marker, at the end. *)
Lemma add_polyline_cases p q st m :
  final_state (add_polyline p q st m) = m \/
  (exists l, (forall mk, l <> MarkerLayer mk) /\
     final_state (add_polyline p q st m) = fst (add_layer l m)).
Proof.
  unfold add_polyline, polyline_failed.
  destruct (first_point p) as [e|a], (next_point q) as [e'|b]; cbn [final_state];
    try destruct e; try destruct e'; auto; right; eexists; (split; [| reflexivity]); intros ? ?; discriminate.
Qed.

Lemma marker_at_lt h m mk : marker_at h m = Some mk -> h < List.length (layers m).
Proof.
  unfold marker_at. intros H. apply nth_error_Some.
  destruct (nth_error (layers m) h); congruence.
Qed.

Lemma marker_at_append h l m mk :
  marker_at h m = Some mk ->
  marker_at h (LMap (center m) (zoom m) (layers m ++ [l]) (popup_on m) (autopan m)) = Some mk.
Proof.
  intros H. pose proof (marker_at_lt _ _ _ H) as Hlt. revert H.
  unfold marker_at. cbn. rewrite nth_error_app1 by exact Hlt. auto.
Qed.

Lemma marker_at_replace h ls mk' c z p ap :
  h < List.length ls ->
  marker_at h (LMap c z (replace_nth h (MarkerLayer mk') ls) p ap) = Some mk'.
Proof. intros H. unfold marker_at. cbn. rewrite nth_error_replace_same by exact H. reflexivity. Qed.

Lemma marker_at_lt_append h m mk l :
  marker_at h m = Some mk -> h < List.length (layers m ++ [l]).
Proof. intros H. apply marker_at_lt in H. rewrite length_app. cbn. lia. Qed.

Lemma set_latlng_inr h x y m mk :
  is_nan x = false -> is_nan y = false -> marker_at h m = Some mk ->
  set_latlng h x y m =
  inr (LMap (center m) (zoom m)
            (replace_nth h (MarkerLayer (Marker (LatLng x y) (m_title mk) (m_icon mk) (m_popup mk))) (layers m))
            (popup_on m) (autopan m)).
Proof. intros Hx Hy Hm. unfold set_latlng, move_marker. rewrite mk_latlng_numbers, Hm by assumption. reflexivity. Qed.

Lemma set_latlng_nan h x y m :
  is_nan x = true \/ is_nan y = true -> set_latlng h x y m = inl InvalidLatLng.
Proof.
  intros H. unfold set_latlng, mk_latlng. cbn.
  destruct H as [H|H]; rewrite H; [reflexivity|]. rewrite orb_true_r. reflexivity.
Qed.

Lemma segments_app l1 l2 : segments (l1 ++ l2) = segments l1 ++ segments l2.
Proof. induction l1 as [|[] l1 IH]; cbn; rewrite ?IH; reflexivity. Qed.

Lemma marker_count_app l1 l2 : marker_count (l1 ++ l2) = marker_count l1 + marker_count l2.
Proof. induction l1 as [|[] l1 IH]; cbn; rewrite ?IH; reflexivity. Qed.

(** Replacing a marker by a marker changes neither the drawn segments nor
    the number of markers. *)
Lemma segments_replace_marker h mk ls :
  (exists mk0, nth_error ls h = Some (MarkerLayer mk0)) ->
  segments (replace_nth h (MarkerLayer mk) ls) = segments ls.
Proof.
  revert h; induction ls as [|l ls IH]; intros [|h] [mk0 H]; cbn in *; try discriminate.
  - inversion H; subst. reflexivity.
  - destruct l; cbn; rewrite ?(IH h) by eauto; reflexivity.
Qed.

Lemma marker_count_replace_marker h mk ls :
  (exists mk0, nth_error ls h = Some (MarkerLayer mk0)) ->
  marker_count (replace_nth h (MarkerLayer mk) ls) = marker_count ls.
Proof.
  revert h; induction ls as [|l ls IH]; intros [|h] [mk0 H]; cbn in *; try discriminate.
  - inversion H; subst. reflexivity.
  - destruct l; cbn; rewrite ?(IH h) by eauto; reflexivity.
Qed.

Lemma marker_at_layer h m mk : marker_at h m = Some mk -> nth_error (layers m) h = Some (MarkerLayer mk).
Proof. unfold marker_at. destruct (nth_error (layers m) h) as [[]|]; congruence. Qed.

(** [setLatLng] and the view changes leave the drawn segments and the
    markers as they were. *)
Lemma set_latlng_layers h x y m m' :
  set_latlng h x y m = inr m' ->
  segments (layers m') = segments (layers m) /\ marker_count (layers m') = marker_count (layers m).
Proof.
  unfold set_latlng, move_marker. destruct (mk_latlng _ _) as [e|p]; [discriminate|].
  destruct (marker_at h m) as [mk|] eqn:Hm; intros H; inversion H; subst; cbn; [|auto].
  pose proof (marker_at_layer _ _ _ Hm) as Hl.
  rewrite segments_replace_marker, marker_count_replace_marker by eauto. auto.
Qed.

Lemma add_polyline_layers p q st m m' :
  add_polyline p q st m = Done tt m' ->
  (exists a b, segments (layers m') = segments (layers m) ++ [(a, b)]) /\
  marker_count (layers m') = marker_count (layers m).
Proof.
  unfold add_polyline. destruct (first_point p) as [|a], (next_point q) as [|b]; try discriminate.
  intros H; inversion H; subst; cbn. rewrite segments_app, marker_count_app. cbn.
  split; [eauto | lia].
Qed.

(** A throwing [L.polyline(...).addTo(map)] draws nothing and adds no
    marker. *)
Lemma add_polyline_raised p q st m e m' :
  add_polyline p q st m = Raised e m' ->
  segments (layers m') = segments (layers m) /\ marker_count (layers m') = marker_count (layers m).
Proof.
  assert (Hf : forall e, segments (layers (polyline_failed e p q st m)) = segments (layers m) /\
                         marker_count (layers (polyline_failed e p q st m)) = marker_count (layers m))
    by (intros []; cbn; rewrite ?segments_app, ?marker_count_app; cbn; rewrite ?app_nil_r; auto).
  unfold add_polyline. destruct (first_point p) as [e1|a], (next_point q) as [e2|b]; intros H;
    try discriminate H; injection H as <- <-; apply Hf.
Qed.

(** Adding a layer that is not a marker changes no marker lookup. *)
Lemma marker_at_add_nonmarker h l m :
  (forall mk, l <> MarkerLayer mk) -> marker_at h (fst (add_layer l m)) = marker_at h m.
Proof.
  intros Hl. unfold marker_at. cbn.
  destruct (Nat.lt_ge_cases h (List.length (layers m))) as [Hlt|Hge].
  - rewrite nth_error_app1 by exact Hlt. reflexivity.
  - rewrite nth_error_app2 by exact Hge. rewrite (proj2 (nth_error_None _ _) Hge).
    destruct (h - List.length (layers m)) as [|[|k]]; cbn; auto.
    destruct l; auto. exfalso. eapply Hl. reflexivity.
Qed.

Lemma segments_add_nonpolyline l m :
  (forall a b st, l <> PolylineLayer a b st) -> segments (layers (fst (add_layer l m))) = segments (layers m).
Proof.
  intros Hl. cbn. rewrite segments_app. destruct l; cbn; rewrite ?app_nil_r; auto.
  exfalso. eapply Hl. reflexivity.
Qed.

(** Marker [h] exists and has a popup bound. *)
Definition popup_marker (h : nat) (m : lmap) : Prop :=
  exists mk, marker_at h m = Some mk /\ m_popup mk <> None.

Lemma popup_marker_add h l m : popup_marker h m -> popup_marker h (fst (add_layer l m)).
Proof. intros (mk & Hm & Hp). exists mk. split; [|exact Hp]. apply marker_at_append. exact Hm. Qed.

Lemma bind_popup_marker_at h h' p m :
  marker_at h (bind_popup h' p m) =
  if Nat.eqb h h' then option_map (fun mk => Marker (m_pos mk) (m_title mk) (m_icon mk) (Some p)) (marker_at h m)
  else marker_at h m.
Proof.
  unfold bind_popup. destruct (Nat.eqb h h') eqn:E.
  - apply Nat.eqb_eq in E. subst h'. case_eq (marker_at h m); [|intros Hn; exact Hn].
    intros mk Hm. pose proof (marker_at_lt _ _ _ Hm) as Hlt. unfold marker_at. cbn.
    rewrite nth_error_replace_same by exact Hlt. reflexivity.
  - apply Nat.eqb_neq in E. destruct (marker_at h' m); [|reflexivity].
    unfold marker_at. cbn. rewrite nth_error_replace_other by congruence. reflexivity.
Qed.

Lemma popup_marker_bind h h' p m : popup_marker h m -> popup_marker h (bind_popup h' p m).
Proof.
  intros (mk & Hm & Hp). unfold popup_marker. rewrite bind_popup_marker_at, Hm.
  destruct (Nat.eqb h h'); cbn; eexists; split; eauto; discriminate.
Qed.

Lemma bind_popup_layers h p m :
  segments (layers (bind_popup h p m)) = segments (layers m) /\
  marker_count (layers (bind_popup h p m)) = marker_count (layers m).
Proof.
  unfold bind_popup. destruct (marker_at h m) eqn:Hm; [|auto]. cbn.
  pose proof (marker_at_layer _ _ _ Hm).
  rewrite segments_replace_marker, marker_count_replace_marker by eauto. auto.
Qed.

(** [openPopup] changes neither the layers nor the open-popup-free part
    of the map: only the open popup and the centre. *)
Lemma open_popup_cases h m :
  ((forall mk, marker_at h m = Some mk -> m_popup mk = None) /\ open_popup h m = m) \/
  exists mk, marker_at h m = Some mk /\ m_popup mk <> None /\
    open_popup h m = LMap (autopan m (center m) (zoom m) mk) (zoom m) (layers m) (Some h) (autopan m).
Proof.
  unfold open_popup. destruct (marker_at h m) as [mk|]; [|left; split; [discriminate | reflexivity]].
  destruct (m_popup mk) eqn:E; [right; exists mk; rewrite E; repeat split; discriminate|].
  left. split; [intros mk' H; injection H as <-; exact E | reflexivity].
Qed.

Lemma open_popup_layers h m : layers (open_popup h m) = layers m.
Proof. destruct (open_popup_cases h m) as [[_ ->]|(mk & _ & _ & ->)]; reflexivity. Qed.

Lemma popup_marker_open h h' m : popup_marker h m -> popup_marker h (open_popup h' m).
Proof. unfold popup_marker, marker_at. rewrite open_popup_layers. auto. Qed.

Lemma popup_marker_view h z p m :
  popup_marker h m -> popup_marker h (set_zoom z m) /\ popup_marker h (pan_to p m).
Proof. intros H. split; exact H. Qed.

Lemma set_latlng_popup_marker h' h x y m m' :
  set_latlng h' x y m = inr m' -> popup_marker h m -> popup_marker h m'.
Proof.
  unfold set_latlng, move_marker. destruct (mk_latlng _ _) as [e|q]; [discriminate|].
  destruct (marker_at h' m) as [mk'|] eqn:Hm'; intros H; inversion H; subst; [|auto].
  intros (mk & Hm & Hp). unfold popup_marker, marker_at in *. cbn.
  destruct (Nat.eq_dec h h') as [->|Hne].
  - rewrite nth_error_replace_same by (eapply marker_at_lt; eauto). cbn.
    eexists; split; [reflexivity|]. rewrite Hm in Hm'. inversion Hm'; subst. exact Hp.
  - rewrite nth_error_replace_other by congruence. eauto.
Qed.

(** ** Placing a marker: [L.marker(...).addTo(map).bindPopup(p)] then
    [marker.openPopup()] *)

(** The handle [addTo] returns: the layer's index. *)
Lemma add_layer_handle l m : snd (add_layer l m) = List.length (layers m).
Proof. reflexivity. Qed.

Lemma marker_at_added mk m : marker_at (List.length (layers m)) (fst (add_layer (MarkerLayer mk) m)) = Some mk.
Proof. unfold marker_at. cbn. rewrite nth_error_app2, Nat.sub_diag by lia. reflexivity. Qed.

(** The map after the four calls: the marker, with its popup, is the last
    layer, its popup is the open one, and the map has panned as far as
    [autoPan] takes it for that popup. *)
Lemma place_marker_map mk p m :
  let mk' := Marker (m_pos mk) (m_title mk) (m_icon mk) (Some p) in
  open_popup (List.length (layers m)) (bind_popup (List.length (layers m)) p (fst (add_layer (MarkerLayer mk) m))) =
  LMap (autopan m (center m) (zoom m) mk') (zoom m) (layers m ++ [MarkerLayer mk'])
       (Some (List.length (layers m))) (autopan m).
Proof.
  unfold bind_popup. rewrite marker_at_added. cbn [fst add_layer layers center zoom popup_on].
  rewrite replace_nth_last. unfold open_popup, marker_at. cbn [layers center zoom].
  rewrite nth_error_app2, Nat.sub_diag by lia. reflexivity.
Qed.

(** [L.marker([x, y], ...)] with two numbers Leaflet accepts. *)
Lemma new_marker_numbers x y t ic :
  is_nan x = false -> is_nan y = false ->
  new_marker (JArray [JNumber x; JNumber y]) t ic = inr (Marker (LatLng x y) t ic None).
Proof. intros Hx Hy. unfold new_marker, to_latlng2. cbn [nth typeof_object]. rewrite mk_latlng_numbers by assumption. reflexivity. Qed.

End Leaflet.
