(* ===== verification/Tracker.v ===== *)
(** * Position tracker and path renderer: [getLine] and [getStreetLine]

    [MapComponent.getLine(nowX, nowY)] (map.component.ts, lines 111-142)
    and [getStreetLine(nowX, nowY)] (lines 145-180) read and write four
    fields of the component: [map], [lastX], [lastY] and [nowMarker].
    [track] is that footprint; both methods are functions in the
    exception-and-state monad of the prelude, statement by statement, so
    that a throw part-way leaves the fields the earlier statements wrote.

    The spec's abstract tracker (spec.md section 4.2: [TrackerState],
    [Transition], [ingestFix]) is stated in [Module Spec]; the refinement
    theorem relates the two. *)

From Stdlib Require Import List String Bool ZArith Lia PrimFloat.
From S2P Require Import Prelude JsValue MapSurface.
Import ListNotations.
Set Warnings "-inexact-float".

Module Tracker.
Import Leaflet.
Local Open Scope exn_monad_scope.
Local Open Scope string_scope.
Local Open Scope list_scope.

Record track : Type := Track {
  map : lmap;
  lastX : jsval;
  lastY : jsval;
  nowMarker : nat
}.

Definition set_last (x y : jsval) (t : track) : track := Track (map t) x y (nowMarker t).
Definition set_map (m : lmap) (t : track) : track := Track m (lastX t) (lastY t) (nowMarker t).

(** [this.lastX==0 && this.lastY==0]: no previous fix recorded. *)
Definition no_fix (t : track) : bool := loose_eq_zero (lastX t) && loose_eq_zero (lastY t).

(** [{color: 'red', weight: 3, opacity: 0.7, lineJoin: 'round'}] *)
Definition red_line : path_style := PathStyle "red" 3 0.7 "round".

(** Lines 112-115 (and 146-149): on the first fix, the previous point
    becomes the current one. *)
Definition snap_first_fix (nowX nowY : jsval) : M exn track unit :=
  t <- get ;;
  if no_fix t then put (set_last nowX nowY t) else ret tt.

(** One call on [this.map] (or on a layer of it). *)
Definition with_map (f : lmap -> exn + lmap) : M exn track unit :=
  t <- get ;;
  m <- lift_sum (f (map t)) ;;
  put (set_map m t).

(** A call on [this.map] that may throw after changing it: the map it
    leaves is kept either way. *)
Definition in_map (c : M exn lmap unit) : M exn track unit :=
  fun t => match c (map t) with
           | Done _ m => Done tt (set_map m t)
           | Raised e m => Raised e (set_map m t)
           end.

(** [this.map.panTo(this.nowMarker.getLatLng())] *)
Definition pan_to_marker (h : nat) (m : lmap) : exn + lmap :=
  match get_latlng h m with
  | Some p => inr (pan_to p m)
  | None => inl (TypeError "getLatLng")
  end.

Definition getLine (nowX nowY : jsval) : M exn track unit :=
  snap_first_fix nowX nowY ;;
  t <- get ;;
  in_map (add_polyline (lastX t, lastY t) (nowX, nowY) red_line) ;;
  with_map (set_latlng (nowMarker t) (to_number nowX) (to_number nowY)) ;;
  with_map (fun m => inr (open_popup (nowMarker t) m)) ;;
  with_map (fun m => inr (set_zoom 17 m)) ;;
  with_map (pan_to_marker (nowMarker t)) ;;
  modify (set_last nowX nowY).

(** [L.latLng(a, b)] inside the monad. *)
Definition latLng (a b : jsval) : M exn track (option latlng) := lift_sum (to_latlng2 a b).

Definition getStreetLine (nowX nowY : jsval) : M exn track unit :=
  snap_first_fix nowX nowY ;;
  t <- get ;;
  w1 <- latLng (lastX t) (lastY t) ;;
  w2 <- latLng nowX nowY ;;
  with_map (fun m => inr (fst (add_layer
              (RoutingControl [Waypoint w1 "起點"; Waypoint w2 "终點"] false) m))) ;;
  p1 <- latLng (lastX t) (lastY t) ;;
  p2 <- latLng nowX nowY ;;
  with_map (fun m => inr (fst (add_layer (RoutingPlan [p1; p2] false false false) m))) ;;
  modify (set_last nowX nowY).

(** ** The spec's abstract tracker (spec.md 4.2) *)

Module Spec.
Definition point : Type := (float * float)%type.

Record tracker_state : Type := TrackerState {
  lastLatitude : float; lastLongitude : float; hasFix : bool }.

Inductive transition : Type :=
| FirstFix (p : point)
| Move (from to : point).

Definition initial : tracker_state := TrackerState 0 0 false.

Definition ingestFix (s : tracker_state) (p : point) : tracker_state * transition :=
  (TrackerState (fst p) (snd p) true,
   if hasFix s then Move (lastLatitude s, lastLongitude s) p else FirstFix p).

(** Transitions of a sequence of fixes, in order. *)
Fixpoint ingest_all (s : tracker_state) (ps : list point) : tracker_state * list transition :=
  match ps with
  | [] => (s, [])
  | p :: r => let '(s1, tr) := ingestFix s p in
              let '(s2, trs) := ingest_all s1 r in (s2, tr :: trs)
  end.
End Spec.

(** The abstract state a [track] stands for. *)
Definition abs (t : track) : Spec.tracker_state :=
  Spec.TrackerState (to_number (lastX t)) (to_number (lastY t)) (negb (no_fix t)).

(** The segment [getLine] draws for a transition: a first fix draws the
    zero-length segment from the point to itself. *)
Definition drawn_segment (tr : Spec.transition) : latlng * latlng :=
  match tr with
  | Spec.FirstFix (x, y) => (LatLng x y, LatLng x y)
  | Spec.Move (a, b) (x, y) => (LatLng a b, LatLng x y)
  end.

(** ** Invariants of the component's state *)

(** [nowMarker] is a marker of the map with a popup bound
    ([bindPopup("<h3>目前位置</h3>")] in [ngOnInit]). *)
Definition valid_track (t : track) : Prop :=
  exists mk, marker_at (nowMarker t) (map t) = Some mk /\ m_popup mk <> None.

(** Leaflet accepts the previous point as the first point of a polyline:
    [lastX] is neither [undefined] nor of type object, and neither
    coordinate converts to NaN. *)
Definition accepted_last (t : track) : Prop :=
  exists p, first_point (lastX t, lastY t) = inr p.

(** An incoming fix ([nowX], [nowY]) the tracker records: Leaflet accepts it
    as a point, and it is not loosely equal to [(0, 0)]. *)
Definition recordable (f : jsval * jsval) : Prop :=
  (exists b, next_point f = inr b) /\ (loose_eq_zero (fst f) && loose_eq_zero (snd f)) = false.

(** The spec-level point a fix stands for. *)
Definition fix_point (f : jsval * jsval) : Spec.point := (to_number (fst f), to_number (snd f)).

(** ** Running [getLine] *)

(** [getLine] statement by statement, with the state each throw leaves. *)
Definition getLine_result (nowX nowY : jsval) (t : track) : outcome exn track unit :=
  let t1 := if no_fix t then set_last nowX nowY t else t in
  let h := nowMarker t in
  match add_polyline (lastX t1, lastY t1) (nowX, nowY) red_line (map t1) with
  | Raised e m1 => Raised e (set_map m1 t1)
  | Done _ m1 =>
      match set_latlng h (to_number nowX) (to_number nowY) m1 with
      | inl e => Raised e (set_map m1 t1)
      | inr m2 =>
          let m3 := set_zoom 17 (open_popup h m2) in
          match pan_to_marker h m3 with
          | inl e => Raised e (set_map m3 t1)
          | inr m4 => Done tt (set_last nowX nowY (set_map m4 t1))
          end
      end
  end.

Lemma getLine_eq nowX nowY t : getLine nowX nowY t = getLine_result nowX nowY t.
Proof.
  unfold getLine, getLine_result, snap_first_fix, with_map, in_map, modify.
  cbv [bind get put ret lift_sum].
  destruct (no_fix t); cbn;
  destruct (add_polyline _ _ _ _) as [u m1|e m1]; cbn; auto;
  destruct (set_latlng _ _ _ _) as [e|m2]; cbn; auto;
  destruct (pan_to_marker _ _) as [e|m4]; cbn; auto.
Qed.

(** The state [getLine] leaves when every call succeeds, from the state
    [t1] after the first-fix snap: segment [a]-[b] drawn, marker moved to
    [b] with its popup open, zoom 17, view centred on [b]. *)
Definition moved (nowX nowY : jsval) (t1 : track) (mk : marker) (a b : latlng) : track :=
  let h := nowMarker t1 in
  Track (LMap b 17
              (replace_nth h (MarkerLayer (Marker b (m_title mk) (m_icon mk) (m_popup mk)))
                           (layers (map t1) ++ [PolylineLayer a b red_line]))
              (Some h) (autopan (map t1)))
        nowX nowY h.

Definition snapped (nowX nowY : jsval) (t : track) : track :=
  if no_fix t then set_last nowX nowY t else t.

Lemma snapped_map nowX nowY t : map (snapped nowX nowY t) = map t.
Proof. unfold snapped. destruct (no_fix t); reflexivity. Qed.

Lemma snapped_marker nowX nowY t : nowMarker (snapped nowX nowY t) = nowMarker t.
Proof. unfold snapped. destruct (no_fix t); reflexivity. Qed.

#[export] Hint Rewrite snapped_map snapped_marker : exn_rw.

Lemma getLine_done nowX nowY t mk a b :
  marker_at (nowMarker t) (map t) = Some mk -> m_popup mk <> None ->
  first_point (lastX (snapped nowX nowY t), lastY (snapped nowX nowY t)) = inr a ->
  next_point (nowX, nowY) = inr b ->
  getLine nowX nowY t = Done tt (moved nowX nowY (snapped nowX nowY t) mk a b).
Proof.
  intros Hmk Hpop Ha Hb.
  rewrite getLine_eq. unfold getLine_result. fold (snapped nowX nowY t).
  rewrite (add_polyline_inr _ _ _ _ _ _ Ha Hb).
  destruct (next_point_inr _ _ _ Hb) as (-> & Hx & Hy).
  rewrite snapped_map.
  rewrite (set_latlng_inr _ _ _ _ mk Hx Hy) by (apply marker_at_append; exact Hmk).
  destruct (m_popup mk) as [pp|] eqn:Hp; [|congruence].
  unfold pan_to_marker, open_popup, get_latlng. cbn [center zoom layers popup_on].
  pose proof (marker_at_lt_append _ _ _ (PolylineLayer a (LatLng (to_number nowX) (to_number nowY)) red_line) Hmk) as Hlt.
  unfold marker_at, set_zoom, pan_to; cbn [layers center zoom popup_on].
  rewrite !nth_error_replace_same by exact Hlt. cbn.
  rewrite !nth_error_replace_same by exact Hlt. cbn.
  unfold moved, set_last, set_map. cbn. rewrite !snapped_marker, !snapped_map, Hp. reflexivity.
Qed.

Section Moved.
Variables (nowX nowY : jsval) (t1 : track) (mk : marker) (a b : latlng).

Lemma moved_fields :
  nowMarker (moved nowX nowY t1 mk a b) = nowMarker t1 /\
  lastX (moved nowX nowY t1 mk a b) = nowX /\ lastY (moved nowX nowY t1 mk a b) = nowY /\
  popup_on (map (moved nowX nowY t1 mk a b)) = Some (nowMarker t1) /\
  zoom (map (moved nowX nowY t1 mk a b)) = 17%Z /\ center (map (moved nowX nowY t1 mk a b)) = b.
Proof. repeat split. Qed.
Hypothesis Hmk : marker_at (nowMarker t1) (map t1) = Some mk.

Lemma moved_segments :
  segments (layers (map (moved nowX nowY t1 mk a b))) = segments (layers (map t1)) ++ [(a, b)].
Proof.
  cbn. rewrite segments_replace_marker, segments_app by
    (exists mk; rewrite nth_error_app1 by exact (marker_at_lt _ _ _ Hmk); exact (marker_at_layer _ _ _ Hmk)).
  reflexivity.
Qed.

Lemma moved_marker_count :
  marker_count (layers (map (moved nowX nowY t1 mk a b))) = marker_count (layers (map t1)).
Proof.
  cbn. rewrite marker_count_replace_marker, marker_count_app by
    (exists mk; rewrite nth_error_app1 by exact (marker_at_lt _ _ _ Hmk); exact (marker_at_layer _ _ _ Hmk)).
  cbn. lia.
Qed.

Lemma moved_marker :
  marker_at (nowMarker t1) (map (moved nowX nowY t1 mk a b)) =
  Some (Marker b (m_title mk) (m_icon mk) (m_popup mk)).
Proof.
  cbn. apply marker_at_replace.
  rewrite length_app. pose proof (marker_at_lt _ _ _ Hmk). cbn. lia.
Qed.
End Moved.

(** The first point of the polyline [getLine] draws: the fix itself on the
    first fix, the previous point otherwise. *)
Lemma snapped_first_point t vx vy b :
  accepted_last t -> next_point (vx, vy) = inr b ->
  first_point (lastX (snapped vx vy t), lastY (snapped vx vy t)) =
  inr (if no_fix t then b else LatLng (to_number (lastX t)) (to_number (lastY t))).
Proof.
  intros [p Hp] Hb. unfold snapped. destruct (no_fix t); cbn.
  - apply next_point_first. exact Hb.
  - pose proof (next_point_inr _ _ _ (first_point_next _ _ _ Hp)) as (-> & _). exact Hp.
Qed.

(** [getLine] succeeds on every fix Leaflet accepts. *)
Lemma getLine_accepts t vx vy b :
  valid_track t -> accepted_last t -> next_point (vx, vy) = inr b ->
  exists mk a, marker_at (nowMarker t) (map t) = Some mk /\ m_popup mk <> None /\
    getLine vx vy t = Done tt (moved vx vy (snapped vx vy t) mk a b).
Proof.
  intros (mk & Hmk & Hpop) Ha Hb. exists mk.
  eexists. split; [exact Hmk|]. split; [exact Hpop|].
  exact (getLine_done _ _ _ _ _ _ Hmk Hpop (snapped_first_point _ _ _ _ Ha Hb) Hb).
Qed.

(** What one recorded fix does, in the spec's terms and on the map. *)
Definition step_post (t : track) (f : jsval * jsval) (t' : track) : Prop :=
  let '(s', tr) := Spec.ingestFix (abs t) (fix_point f) in
  abs t' = s' /\
  segments (layers (map t')) = segments (layers (map t)) ++ [drawn_segment tr] /\
  marker_count (layers (map t')) = marker_count (layers (map t)) /\
  nowMarker t' = nowMarker t /\
  get_latlng (nowMarker t') (map t') = Some (LatLng (fst (fix_point f)) (snd (fix_point f))) /\
  popup_on (map t') = Some (nowMarker t') /\
  zoom (map t') = 17%Z /\
  center (map t') = LatLng (fst (fix_point f)) (snd (fix_point f)) /\
  valid_track t' /\ accepted_last t'.

Lemma getLine_step t f :
  valid_track t -> accepted_last t -> recordable f ->
  exists t', getLine (fst f) (snd f) t = Done tt t' /\ step_post t f t'.
Proof.
  destruct f as [vx vy]. intros (mk & Hmk & Hpop) [p Hp] [[b Hb] Hz]. cbn [fst snd] in *.
  pose proof (next_point_inr _ _ _ Hb) as (-> & Hx & Hy).
  set (a := if no_fix t then LatLng (to_number vx) (to_number vy)
            else LatLng (to_number (lastX t)) (to_number (lastY t))).
  assert (Ha : first_point (lastX (snapped vx vy t), lastY (snapped vx vy t)) = inr a)
    by exact (snapped_first_point _ _ _ _ (ex_intro _ p Hp) Hb).
  exists (moved vx vy (snapped vx vy t) mk a (LatLng (to_number vx) (to_number vy))).
  split; [exact (getLine_done _ _ _ _ _ _ Hmk Hpop Ha Hb)|].
  assert (Hmk' : marker_at (nowMarker (snapped vx vy t)) (map (snapped vx vy t)) = Some mk)
    by (rewrite snapped_map, snapped_marker; exact Hmk).
  unfold step_post, Spec.ingestFix, abs, fix_point, no_fix in *. cbn [fst snd lastX lastY].
  rewrite moved_segments, moved_marker_count by exact Hmk'.
  rewrite snapped_map. cbn [Spec.hasFix negb].
  destruct (moved_fields vx vy (snapped vx vy t) mk a (LatLng (to_number vx) (to_number vy)))
    as (-> & -> & -> & -> & -> & ->).
  pose proof (moved_marker vx vy _ _ a (LatLng (to_number vx) (to_number vy)) Hmk') as Hm.
  rewrite snapped_marker in Hm. rewrite snapped_marker, Hz. repeat split.
  - unfold a. destruct (loose_eq_zero (lastX t) && loose_eq_zero (lastY t)); reflexivity.
  - unfold get_latlng. rewrite Hm. reflexivity.
  - unfold valid_track.
    rewrite (proj1 (moved_fields vx vy _ mk a (LatLng (to_number vx) (to_number vy)))), snapped_marker.
    eexists. split; [exact Hm | exact Hpop].
  - exists (LatLng (to_number vx) (to_number vy)). apply next_point_first. exact Hb.
Qed.

(** A sequence of fixes, handled in delivery order. *)
Fixpoint getLines (fixes : list (jsval * jsval)) : M exn track unit :=
  match fixes with
  | [] => ret tt
  | (vx, vy) :: r => getLine vx vy ;; getLines r
  end.

(** Every fix handed to [getLine] in turn, each exception dropped, the
    state it left kept. *)
Fixpoint getLine_each (fixes : list (jsval * jsval)) (t : track) : track :=
  match fixes with
  | [] => t
  | (vx, vy) :: r => getLine_each r (final_state (getLine vx vy t))
  end.

(** The state [ngOnInit] leaves for the tracker's fields: the map centred
    on the campus at zoom 16 with the tile layer and the current-position
    marker at [[0, 0]], and [lastX = lastY = 0]. *)
Definition now_marker0 : marker :=
  Marker (LatLng 0 0) (Some "目前位置") MyIcon (Some (PopupHtml "<h3>目前位置</h3>")).

Definition track0 : track :=
  Track (LMap (LatLng 23.9494324 120.9289277) 16
              [TileLayer "https://{s}.tile.openstreetmap.org/{z}/{x}/{y}.png" 20;
               MarkerLayer now_marker0] None popups_fit)
        (JNumber 0) (JNumber 0) 1.

(** ** Properties of [getLine] *)

(** C1 (refinement).  For every sequence of fixes that Leaflet accepts and
    that are not loosely equal to [(0, 0)], handling them in order with
    [getLine] succeeds, leaves the tracker in the abstract state the spec's
    [ingestFix] reaches, and draws exactly one segment per fix, in order:
    the segment from the previous fix for a [Move], a zero-length segment
    for the [FirstFix]. *)
Theorem getLines_refines_ingest_all (t : track) (fixes : list (jsval * jsval)) :
  valid_track t -> accepted_last t -> Forall recordable fixes ->
  exists t', getLines fixes t = Done tt t' /\
    abs t' = fst (Spec.ingest_all (abs t) (List.map fix_point fixes)) /\
    segments (layers (map t')) =
      segments (layers (map t)) ++
      List.map drawn_segment (snd (Spec.ingest_all (abs t) (List.map fix_point fixes))).
Proof.
  intros Hv Ha Hf. revert t Hv Ha. induction Hf as [|f fs Hr Hfs IH]; intros t Hv Ha.
  - exists t. cbn. rewrite app_nil_r. auto.
  - destruct (getLine_step t f Hv Ha Hr) as (t1 & Hrun & Hpost).
    unfold step_post in Hpost. destruct (Spec.ingestFix (abs t) (fix_point f)) as [s1 tr] eqn:Hi.
    destruct Hpost as (Habs & Hseg & _ & _ & _ & _ & _ & _ & Hv1 & Ha1).
    destruct (IH t1 Hv1 Ha1) as (t' & Hrun' & Habs' & Hseg').
    exists t'. destruct f as [vx vy]. cbn [getLines List.map Spec.ingest_all].
    rewrite Hi, <- Habs.
    destruct (Spec.ingest_all (abs t1) (List.map fix_point fs)) as [s2 trs]. cbn in *.
    split; [rewrite (run_bind_done _ _ _ _ _ Hrun); exact Hrun'|].
    split; [exact Habs'|]. rewrite Hseg', Hseg, <- app_assoc. reflexivity.
Qed.

Lemma getLines_refines_ingest_all_witness :
  let fixes := [(JNumber 23.95, JNumber 120.93); (JNumber 23.96, JNumber 120.94)] in
  valid_track track0 /\ accepted_last track0 /\ Forall recordable fixes /\
  exists t', getLines fixes track0 = Done tt t' /\
    abs t' = fst (Spec.ingest_all (abs track0) (List.map fix_point fixes)) /\
    segments (layers (map t')) =
      segments (layers (map track0)) ++
      List.map drawn_segment (snd (Spec.ingest_all (abs track0) (List.map fix_point fixes))).
Proof.
  intros fixes.
  assert (Hv : valid_track track0) by (exists now_marker0; split; [reflexivity | discriminate]).
  assert (Ha : accepted_last track0) by (eexists; reflexivity).
  assert (Hf : Forall recordable fixes)
    by (repeat constructor; (eexists; reflexivity)).
  split; [exact Hv|]. split; [exact Ha|]. split; [exact Hf|].
  exact (getLines_refines_ingest_all track0 fixes Hv Ha Hf).
Defined.

(** C2 (code bug).  While no fix is recorded ([lastX == 0 && lastY == 0]),
    a message without [Latitude] makes [getLine(undefined, nowY)] first
    store [lastX = undefined] (line 113) and then throw when Leaflet builds
    the polyline: the handler fails, yet the tracker's state has changed. *)
Theorem getLine_missing_latitude_poisons (t : track) (vy : jsval) :
  no_fix t = true ->
  getLine JUndefined vy t =
  Raised (TypeError "projection")
    (set_map (fst (add_layer (UnprojectedPolyline (JUndefined, vy) (JUndefined, vy) red_line) (map t)))
             (set_last JUndefined vy t)).
Proof. intros Hz. rewrite getLine_eq. unfold getLine_result. rewrite Hz. reflexivity. Qed.

Lemma getLine_missing_latitude_poisons_witness :
  no_fix track0 = true /\
  getLine JUndefined (JNumber 120.93) track0 =
  Raised (TypeError "projection")
    (set_map (fst (add_layer (UnprojectedPolyline (JUndefined, JNumber 120.93) (JUndefined, JNumber 120.93) red_line)
                             (map track0)))
             (set_last JUndefined (JNumber 120.93) track0)).
Proof. split; [reflexivity|]. apply getLine_missing_latitude_poisons. reflexivity. Defined.

(** Once [lastX] is [undefined], the polyline's points are a non-flat
    array that Leaflet cannot project: [getLine] throws before any
    assignment, the undrawn layer registered. *)
Lemma getLine_undefined_last t vx vy :
  lastX t = JUndefined ->
  getLine vx vy t =
  Raised (TypeError "projection") (set_map (fst (add_layer (UnprojectedPolyline (lastX t, lastY t) (vx, vy) red_line) (map t))) t).
Proof.
  destruct t as [m x y h]. cbn. intros ->. rewrite getLine_eq. reflexivity.
Qed.

(** The layers a run of unprojectable polylines from [p] registers. *)
Fixpoint register_unprojected (p : jsval * jsval) (fixes : list (jsval * jsval)) (m : lmap) : lmap :=
  match fixes with
  | [] => m
  | f :: r => register_unprojected p r (fst (add_layer (UnprojectedPolyline p f red_line) m))
  end.

Lemma register_unprojected_segments p fixes m :
  segments (layers (register_unprojected p fixes m)) = segments (layers m).
Proof.
  revert m; induction fixes as [|f r IH]; intros m; [reflexivity|]. cbn [register_unprojected].
  rewrite IH, segments_add_nonpolyline by congruence. reflexivity.
Qed.

(** C3 (safety).  After [lastX] has become [undefined], no later fix is
    ever drawn: whatever messages arrive, each [getLine] throws, the
    tracker's fields ([lastX], [lastY], [nowMarker]) stay as they were and
    the only change to the map is one registered polyline per fix that
    Leaflet can never project: the drawn segments stay exactly as they
    were. *)
Theorem poisoned_tracker_stuck (t : track) (fixes : list (jsval * jsval)) :
  lastX t = JUndefined ->
  getLine_each fixes t = set_map (register_unprojected (lastX t, lastY t) fixes (map t)) t /\
  segments (layers (map (getLine_each fixes t))) = segments (layers (map t)).
Proof.
  intros H. assert (E : getLine_each fixes t = set_map (register_unprojected (lastX t, lastY t) fixes (map t)) t).
  { revert t H. induction fixes as [|[vx vy] fixes IH]; intros t H; cbn; [destruct t; reflexivity|].
    rewrite getLine_undefined_last by exact H. cbn [final_state]. rewrite IH by exact H. reflexivity. }
  split; [exact E|]. rewrite E. apply register_unprojected_segments.
Qed.

Lemma poisoned_tracker_stuck_witness :
  let t := set_last JUndefined (JNumber 120.93) track0 in
  let fixes := [(JNumber 23.95, JNumber 120.93); (JNumber 23.96, JNumber 120.94)] in
  lastX t = JUndefined /\
  getLine_each fixes t = set_map (register_unprojected (lastX t, lastY t) fixes (map t)) t /\
  segments (layers (map (getLine_each fixes t))) = segments (layers (map t)).
Proof. intros t fixes. split; [reflexivity|]. apply poisoned_tracker_stuck. reflexivity. Defined.

(** C4 (divergence from the spec).  A fix loosely equal to [(0, 0)] (the
    numbers 0 or -0, or values such as ["0"], [""] or [false]) is drawn,
    but the tracker is left in the no-fix state: the next fix starts a new
    path instead of continuing from it, while the spec's [ingestFix]
    records every fix ([hasFix] becomes true). *)
Theorem getLine_origin_fix_not_recorded (t : track) (vx vy : jsval) :
  valid_track t -> accepted_last t -> (exists b, next_point (vx, vy) = inr b) ->
  loose_eq_zero vx && loose_eq_zero vy = true ->
  exists t', getLine vx vy t = Done tt t' /\ no_fix t' = true /\
    Spec.hasFix (fst (Spec.ingestFix (abs t) (fix_point (vx, vy)))) = true.
Proof.
  intros Hv Ha [b Hb] Hz.
  destruct (getLine_accepts _ _ _ _ Hv Ha Hb) as (mk & a & _ & _ & Hrun).
  eexists. split; [exact Hrun|]. split; [|reflexivity].
  unfold no_fix. rewrite (proj1 (proj2 (moved_fields _ _ _ _ _ _))).
  rewrite (proj1 (proj2 (proj2 (moved_fields _ _ _ _ _ _)))). exact Hz.
Qed.

Lemma getLine_origin_fix_not_recorded_witness :
  valid_track track0 /\ accepted_last track0 /\
  (exists b, next_point (JNumber 0, JNumber (-0)) = inr b) /\
  loose_eq_zero (JNumber 0) && loose_eq_zero (JNumber (-0)) = true /\
  exists t', getLine (JNumber 0) (JNumber (-0)) track0 = Done tt t' /\ no_fix t' = true /\
    Spec.hasFix (fst (Spec.ingestFix (abs track0) (fix_point (JNumber 0, JNumber (-0))))) = true.
Proof.
  assert (Hv : valid_track track0) by (exists now_marker0; split; [reflexivity | discriminate]).
  assert (Ha : accepted_last track0) by (eexists; reflexivity).
  assert (Hb : exists b, next_point (JNumber 0, JNumber (-0)) = inr b) by (eexists; reflexivity).
  assert (Hz : loose_eq_zero (JNumber 0) && loose_eq_zero (JNumber (-0)) = true) by reflexivity.
  split; [exact Hv|]. split; [exact Ha|]. split; [exact Hb|]. split; [exact Hz|].
  exact (getLine_origin_fix_not_recorded track0 _ _ Hv Ha Hb Hz).
Defined.

(** C5 (error).  Once a fix is recorded, a fix Leaflet rejects (a message
    without [Latitude], a non-numeric string, [null], an object) makes
    [getLine] throw Leaflet's exception before any assignment: the
    tracker's fields are unchanged, and so is the map when
    [new LatLng] rejected the point in [L.polyline]'s constructor; when
    the point is only rejected at projection ([null], an object), the
    undrawn polyline stays registered ([polyline_failed]). *)
Theorem getLine_rejected_fix_keeps_state (t : track) (vx vy : jsval) (e : exn) :
  accepted_last t -> no_fix t = false -> next_point (vx, vy) = inl e ->
  getLine vx vy t = Raised e (set_map (polyline_failed e (lastX t, lastY t) (vx, vy) red_line (map t)) t).
Proof.
  intros [p Hp] Hz He. rewrite getLine_eq. unfold getLine_result. rewrite Hz.
  unfold add_polyline. rewrite Hp, He. reflexivity.
Qed.

(** A missing [Latitude] (the constructor throws) and a [null] one (the
    projection throws). *)
Lemma getLine_rejected_fix_keeps_state_witness :
  let t := set_last (JNumber 23.95) (JNumber 120.93) track0 in
  accepted_last t /\ no_fix t = false /\ next_point (JUndefined, JUndefined) = inl InvalidLatLng /\
  next_point (JNull, JNumber 120.94) = inl (TypeError "projection") /\
  getLine JUndefined JUndefined t =
    Raised InvalidLatLng (set_map (polyline_failed InvalidLatLng (lastX t, lastY t) (JUndefined, JUndefined) red_line (map t)) t) /\
  getLine JNull (JNumber 120.94) t =
    Raised (TypeError "projection")
      (set_map (polyline_failed (TypeError "projection") (lastX t, lastY t) (JNull, JNumber 120.94) red_line (map t)) t).
Proof.
  intros t.
  assert (Ha : accepted_last t) by (eexists; reflexivity).
  assert (Hz : no_fix t = false) by reflexivity.
  assert (He : next_point (JUndefined, JUndefined) = inl InvalidLatLng) by reflexivity.
  assert (Hn : next_point (JNull, JNumber 120.94) = inl (TypeError "projection")) by reflexivity.
  split; [exact Ha|]. split; [exact Hz|]. split; [exact He|]. split; [exact Hn|].
  split; [exact (getLine_rejected_fix_keeps_state t _ _ _ Ha Hz He) | exact (getLine_rejected_fix_keeps_state t _ _ _ Ha Hz Hn)].
Defined.

Lemma pan_to_marker_layers h m m' : pan_to_marker h m = inr m' -> layers m' = layers m.
Proof. unfold pan_to_marker. destruct (get_latlng h m); intros H; inversion H; reflexivity. Qed.

(** Whatever [getLine] is given and wherever it stops, it keeps the marker
    handle and the number of markers, and adds at most one segment. *)
Lemma getLine_final_layers t vx vy :
  let t' := final_state (getLine vx vy t) in
  nowMarker t' = nowMarker t /\ marker_count (layers (map t')) = marker_count (layers (map t)) /\
  (segments (layers (map t')) = segments (layers (map t)) \/
   exists a b, segments (layers (map t')) = segments (layers (map t)) ++ [(a, b)]).
Proof.
  cbv zeta. rewrite getLine_eq. unfold getLine_result. fold (snapped vx vy t).
  destruct (add_polyline _ _ _ _) as [u m1|e m1] eqn:H1; cbn [final_state set_map map nowMarker];
    [|destruct (add_polyline_raised _ _ _ _ _ _ H1) as [Hs Hc]; rewrite snapped_map in Hs, Hc;
      rewrite snapped_marker; auto].
  destruct u. destruct (add_polyline_layers _ _ _ _ _ H1) as [[a [b Hs]] Hc]. rewrite snapped_map in Hs, Hc.
  destruct (set_latlng _ _ _ _) as [e|m2] eqn:H2; cbn [final_state set_map set_last map nowMarker];
    rewrite ?snapped_marker; [eauto 6|].
  destruct (set_latlng_layers _ _ _ _ _ H2) as [Hs2 Hc2].
  destruct (pan_to_marker _ _) as [e|m4] eqn:H4; cbn [final_state set_map set_last map nowMarker];
    rewrite ?snapped_marker, ?(pan_to_marker_layers _ _ _ H4); cbn [set_zoom layers];
    rewrite open_popup_layers, Hs2, Hc2; eauto 6.
Qed.

(** C6 (invariant).  [getLine] never creates a marker: on every input and
    whether it completes or throws, the component keeps its one
    current-position marker handle and the map the same number of
    markers (spec.md section 3: at most one current-position marker). *)
Theorem getLine_keeps_single_marker (t : track) (vx vy : jsval) :
  nowMarker (final_state (getLine vx vy t)) = nowMarker t /\
  marker_count (layers (map (final_state (getLine vx vy t)))) = marker_count (layers (map t)).
Proof. destruct (getLine_final_layers t vx vy) as (? & ? & _). auto. Qed.

(** C7 (invariant).  The drawn path only grows: after [getLine], on every
    input and whether it completes or throws, the segments drawn before are
    still drawn, in order, followed by at most one new segment. *)
Theorem getLine_path_append_only (t : track) (vx vy : jsval) :
  exists extra, segments (layers (map (final_state (getLine vx vy t)))) = segments (layers (map t)) ++ extra /\
    List.length extra <= 1.
Proof.
  destruct (getLine_final_layers t vx vy) as (_ & _ & [Hs | (a & b & Hs)]).
  - exists []. rewrite app_nil_r. auto.
  - exists [(a, b)]. auto.
Qed.



(** C9 (functional).  Two consecutive identical fixes: the second one
    completes without error and draws a zero-length segment from the fix
    to itself (spec.md section 8). *)
Theorem getLine_repeated_fix_zero_length (t : track) (vx vy : jsval) :
  valid_track t -> lastX t = vx -> lastY t = vy -> recordable (vx, vy) ->
  exists t', getLine vx vy t = Done tt t' /\
    segments (layers (map t')) =
      segments (layers (map t)) ++
      [(LatLng (to_number vx) (to_number vy), LatLng (to_number vx) (to_number vy))].
Proof.
  intros Hv Hx Hy Hr.
  assert (Ha : accepted_last t).
  { destruct Hr as [[b Hb] _]. exists b. rewrite Hx, Hy. apply next_point_first. exact Hb. }
  destruct (getLine_step t (vx, vy) Hv Ha Hr) as (t' & Hrun & Hpost).
  exists t'. split; [exact Hrun|].
  unfold step_post, Spec.ingestFix, abs, no_fix in Hpost. rewrite Hx, Hy in Hpost.
  destruct Hr as [_ Hz]. cbn [fst snd] in Hz. rewrite Hz in Hpost.
  destruct Hpost as (_ & Hs & _). exact Hs.
Qed.

Lemma getLine_repeated_fix_zero_length_witness :
  let t := set_last (JNumber 23.95) (JNumber 120.93) track0 in
  valid_track t /\ lastX t = JNumber 23.95 /\ lastY t = JNumber 120.93 /\
  recordable (JNumber 23.95, JNumber 120.93) /\
  exists t', getLine (JNumber 23.95) (JNumber 120.93) t = Done tt t' /\
    segments (layers (map t')) =
      segments (layers (map t)) ++ [(LatLng 23.95 120.93, LatLng 23.95 120.93)].
Proof.
  intros t.
  assert (Hv : valid_track t) by (exists now_marker0; split; [reflexivity | discriminate]).
  assert (Hr : recordable (JNumber 23.95, JNumber 120.93)) by (split; [eexists|]; reflexivity).
  split; [exact Hv|]. split; [reflexivity|]. split; [reflexivity|]. split; [exact Hr|].
  exact (getLine_repeated_fix_zero_length t _ _ Hv eq_refl eq_refl Hr).
Defined.

(** ** Properties of [getStreetLine] *)

(** The view a marker handle and the map present: the marker's position,
    the open popup, the zoom, the centre and the drawn segments. *)
Definition marker_view (h : nat) (m : lmap) :=
  (get_latlng h m, popup_on m, zoom m, center m, segments (layers m)).

Lemma routing_layer_view h wps sh m :
  marker_view h (fst (add_layer (RoutingControl wps sh) m)) = marker_view h m.
Proof.
  unfold marker_view, get_latlng.
  rewrite marker_at_add_nonmarker, segments_add_nonpolyline by congruence. reflexivity.
Qed.

Lemma plan_layer_view h wps d aw r m :
  marker_view h (fst (add_layer (RoutingPlan wps d aw r) m)) = marker_view h m.
Proof.
  unfold marker_view, get_latlng.
  rewrite marker_at_add_nonmarker, segments_add_nonpolyline by congruence. reflexivity.
Qed.

(** [getStreetLine] step by step: the two [L.latLng] conversions, the
    routing control, the same two conversions again, the plan. *)
Definition getStreetLine_result (nowX nowY : jsval) (t : track) : outcome exn track unit :=
  let t1 := snapped nowX nowY t in
  match to_latlng2 (lastX t1) (lastY t1), to_latlng2 nowX nowY with
  | inl e, _ | inr _, inl e => Raised e t1
  | inr w1, inr w2 =>
      let m1 := fst (add_layer (RoutingControl [Waypoint w1 "起點"; Waypoint w2 "终點"] false) (map t1)) in
      let m2 := fst (add_layer (RoutingPlan [w1; w2] false false false) m1) in
      Done tt (set_last nowX nowY (set_map m2 t1))
  end.

Lemma getStreetLine_eq nowX nowY t : getStreetLine nowX nowY t = getStreetLine_result nowX nowY t.
Proof.
  unfold getStreetLine, getStreetLine_result, snap_first_fix, with_map, latLng, modify, snapped.
  cbv [bind get put ret lift_sum].
  destruct (no_fix t); cbn [lastX lastY set_last set_map map];
  destruct (to_latlng2 _ _) as [e1|w1]; cbn; auto;
  destruct (to_latlng2 nowX nowY) as [e2|w2]; cbn; auto.
Qed.

(** C10 (functional, spec.md section 9 asymmetry).  The road-following
    mode never moves the current-position marker: on every input, whether
    it completes or throws, [getStreetLine] leaves the marker's position,
    the open popup, the zoom, the centre and the drawn segments as they
    were; routes are separate layers. *)
Theorem getStreetLine_keeps_view (t : track) (vx vy : jsval) :
  marker_view (nowMarker t) (map (final_state (getStreetLine vx vy t))) = marker_view (nowMarker t) (map t).
Proof.
  rewrite getStreetLine_eq. unfold getStreetLine_result.
  destruct (to_latlng2 _ _) as [e|w1], (to_latlng2 vx vy) as [e'|w2]; cbn [final_state];
    rewrite ?snapped_map; try reflexivity.
  cbn [set_last set_map map]. rewrite plan_layer_view, routing_layer_view, ?snapped_map. reflexivity.
Qed.

(** C11 (gap in the spec).  Unlike [getLine], [getStreetLine] does not
    throw on a message without coordinates: [L.latLng(undefined, undefined)]
    returns [undefined], the routing control gets waypoints with no
    position (no route is requested), and on the first fix [lastX]
    becomes [undefined], after which [getLine] is stuck (C3). *)
Theorem getStreetLine_accepts_missing_coordinates (t : track) :
  no_fix t = true ->
  exists t', getStreetLine JUndefined JUndefined t = Done tt t' /\ lastX t' = JUndefined /\
    layers (map t') = layers (map t) ++
      [RoutingControl [Waypoint None "起點"; Waypoint None "终點"] false;
       RoutingPlan [None; None] false false false].
Proof.
  intros Hz. rewrite getStreetLine_eq. unfold getStreetLine_result, snapped. rewrite Hz.
  eexists. split; [reflexivity|]. split; [reflexivity|]. cbn. rewrite <- app_assoc. reflexivity.
Qed.

Lemma getStreetLine_accepts_missing_coordinates_witness :
  no_fix track0 = true /\
  exists t', getStreetLine JUndefined JUndefined track0 = Done tt t' /\ lastX t' = JUndefined /\
    layers (map t') = layers (map track0) ++
      [RoutingControl [Waypoint None "起點"; Waypoint None "终點"] false;
       RoutingPlan [None; None] false false false].
Proof. split; [reflexivity|]. apply getStreetLine_accepts_missing_coordinates. reflexivity. Defined.

End Tracker.
