(* ===== verification/Renderer.v ===== *)
(** * The path renderer against the spec's Map Surface interface

    The spec (section 6) names the capabilities the component consumes from
    its map: move a marker, open its popup, draw a line, set the zoom, pan,
    compute a route.  [MapSurface] is that interface as an operational
    class, [observe] the view of a surface through the current-position
    marker, and [MapSurfaceLaws] what each operation does to that view.
    The spec's Path Renderer (section 4.3, [render]) is written once against
    the interface, in both modes, and [render_observe] proves, for every
    lawful surface, that it has the effect the spec describes
    ([render_view]).

    Leaflet is an instance ([leaflet_surface], discharged by
    [leaflet_laws]): its operations are the calls [getLine] (lines 123-134)
    and [getStreetLine] (lines 151-176) make once their coordinates are
    [LatLng]s.  The refinement theorems show that [getLine] and
    [getStreetLine] are the spec's tracker step followed by [render] on
    that instance, the first fix rendered as a zero-length move
    ([code_transition]), and that a caller alternating the two methods
    renders the spec's transitions in order. *)

From Stdlib Require Import List String Bool ZArith Lia PrimFloat Setoid Morphisms.
From S2P Require Import Prelude JsValue MapSurface Tracker.
Import ListNotations.
Set Warnings "-inexact-float".

Module Renderer.
Import Leaflet Tracker.
Local Open Scope exn_monad_scope.

Abbreviation point := Spec.point.

(** What the renderer's contract speaks of, seen through marker [h]: the
    lines drawn and the routes requested (in order), the marker's position,
    whether it has a popup, the open popup, the zoom and the centre. *)
Record view : Type := View {
  v_lines : list (point * point);
  v_routes : list (point * point);
  v_marker : option point;
  v_popup_bound : bool;
  v_popup : option nat;
  v_zoom : Z;
  v_center : point }.

Definition add_line (a b : point) (v : view) : view :=
  View (v_lines v ++ [(a, b)]) (v_routes v) (v_marker v) (v_popup_bound v) (v_popup v) (v_zoom v) (v_center v).
Definition add_route (a b : point) (v : view) : view :=
  View (v_lines v) (v_routes v ++ [(a, b)]) (v_marker v) (v_popup_bound v) (v_popup v) (v_zoom v) (v_center v).
Definition put_marker (p : point) (v : view) : view :=
  View (v_lines v) (v_routes v) (Some p) (v_popup_bound v) (v_popup v) (v_zoom v) (v_center v).
Definition put_popup (o : option nat) (v : view) : view :=
  View (v_lines v) (v_routes v) (v_marker v) (v_popup_bound v) o (v_zoom v) (v_center v).
Definition put_zoom (z : Z) (v : view) : view :=
  View (v_lines v) (v_routes v) (v_marker v) (v_popup_bound v) (v_popup v) z (v_center v).
Definition put_center (p : point) (v : view) : view :=
  View (v_lines v) (v_routes v) (v_marker v) (v_popup_bound v) (v_popup v) (v_zoom v) p.

(** Two views that agree on everything but the centre: the lines, the
    routes, the marker, its popup, the open popup and the zoom. *)
Definition frame (v : view) :=
  (v_lines v, v_routes v, v_marker v, v_popup_bound v, v_popup v, v_zoom v).

Definition view_equiv (v v' : view) : Prop := frame v = frame v'.

Declare Scope view_scope.
Infix "=~" := view_equiv (at level 70) : view_scope.
Local Open Scope view_scope.

#[export] Instance view_equiv_equivalence : Equivalence view_equiv.
Proof. unfold view_equiv. split; [intros ?|intros ? ?|intros ? ? ?]; congruence. Qed.

(** Every update of a view respects [=~]; moving the centre is invisible
    to it. *)
Ltac frame_proper := intros ? ? ?; unfold view_equiv, frame in *; cbn; congruence.
#[export] Instance add_line_proper a b : Proper (view_equiv ==> view_equiv) (add_line a b).
Proof. frame_proper. Qed.
#[export] Instance add_route_proper a b : Proper (view_equiv ==> view_equiv) (add_route a b).
Proof. frame_proper. Qed.
#[export] Instance put_marker_proper p : Proper (view_equiv ==> view_equiv) (put_marker p).
Proof. frame_proper. Qed.
#[export] Instance put_popup_proper o : Proper (view_equiv ==> view_equiv) (put_popup o).
Proof. frame_proper. Qed.
#[export] Instance put_zoom_proper z : Proper (view_equiv ==> view_equiv) (put_zoom z).
Proof. frame_proper. Qed.
#[export] Instance put_center_proper p : Proper (view_equiv ==> view_equiv) (put_center p).
Proof. frame_proper. Qed.
#[export] Instance v_lines_proper : Proper (view_equiv ==> eq) v_lines.
Proof. frame_proper. Qed.
#[export] Instance v_routes_proper : Proper (view_equiv ==> eq) v_routes.
Proof. frame_proper. Qed.
#[export] Instance v_marker_proper : Proper (view_equiv ==> eq) v_marker.
Proof. frame_proper. Qed.
#[export] Instance v_popup_bound_proper : Proper (view_equiv ==> eq) v_popup_bound.
Proof. frame_proper. Qed.

(** ** The interface (spec.md section 6) *)

Class MapSurface (S : Type) := {
  drawLine : point -> point -> path_style -> S -> S;
  moveMarker : nat -> point -> S -> S;
  openPopup : nat -> S -> S;
  setZoom : Z -> S -> S;
  panTo : point -> S -> S;
  computeRoute : point -> point -> S -> S;
  observe : nat -> S -> view
}.

(** Each operation changes the view in the one way its name says.
    Opening a popup may also move the centre (the surface brings the
    popup into view), which the spec's [openPopup(ref)] leaves open. *)
Class MapSurfaceLaws (S : Type) `{MapSurface S} : Prop := {
  draw_line_view h a b st s : observe h (drawLine a b st s) = add_line a b (observe h s);
  move_marker_view h p s :
    v_marker (observe h s) <> None -> observe h (moveMarker h p s) = put_marker p (observe h s);
  open_popup_view h s :
    v_popup_bound (observe h s) = true -> observe h (openPopup h s) =~ put_popup (Some h) (observe h s);
  set_zoom_view h z s : observe h (setZoom z s) = put_zoom z (observe h s);
  pan_to_view h p s : observe h (panTo p s) = put_center p (observe h s);
  compute_route_view h a b s : observe h (computeRoute a b s) = add_route a b (observe h s)
}.

(** ** The Path Renderer (spec.md section 4.3) *)

(** The two strategies, selected by the caller. *)
Inductive mode : Type := Straight | RoadFollowing.

(** [render(transition, mapSurface, currentMarker)]: a first fix moves the
    marker and opens its popup; a move draws the red line, moves the
    marker, opens the popup, zooms to 17 and pans (straight line), or
    requests a route and leaves the marker (road following). *)
Definition render {S} `{MapSurface S} (md : mode) (tr : Spec.transition) (h : nat) (s : S) : S :=
  match tr with
  | Spec.FirstFix p => openPopup h (moveMarker h p s)
  | Spec.Move a b =>
      match md with
      | Straight => panTo b (setZoom 17 (openPopup h (moveMarker h b (drawLine a b red_line s))))
      | RoadFollowing => computeRoute a b s
      end
  end.

(** The effect the spec gives [render], on views. *)
Definition render_view (md : mode) (tr : Spec.transition) (h : nat) (v : view) : view :=
  match tr with
  | Spec.FirstFix p => put_popup (Some h) (put_marker p v)
  | Spec.Move a b =>
      match md with
      | Straight => put_center b (put_zoom 17 (put_popup (Some h) (put_marker b (add_line a b v))))
      | RoadFollowing => add_route a b v
      end
  end.

(** Rendering a sequence of transitions, each in the mode its caller chose. *)
Fixpoint render_all {S} `{MapSurface S} (h : nat) (trs : list (mode * Spec.transition)) (s : S) : S :=
  match trs with
  | [] => s
  | (md, tr) :: r => render_all h r (render md tr h s)
  end.

Fixpoint render_view_all (h : nat) (trs : list (mode * Spec.transition)) (v : view) : view :=
  match trs with
  | [] => v
  | (md, tr) :: r => render_view_all h r (render_view md tr h v)
  end.

(** A view in which the renderer can work: the marker exists and has a
    popup. *)
Definition renderable (v : view) : Prop := v_marker v <> None /\ v_popup_bound v = true.

Lemma render_view_renderable md tr h v : renderable v -> renderable (render_view md tr h v).
Proof. intros [Hm Hb]. destruct tr, md; split; cbn; congruence. Qed.

#[export] Instance renderable_proper : Proper (view_equiv ==> iff) renderable.
Proof. intros v v' E. unfold renderable. rewrite E. reflexivity. Qed.

#[export] Instance render_view_proper md tr h : Proper (view_equiv ==> view_equiv) (render_view md tr h).
Proof. intros v v' E. destruct tr, md; cbn [render_view]; rewrite E; reflexivity. Qed.

#[export] Instance render_view_all_proper h trs : Proper (view_equiv ==> view_equiv) (render_view_all h trs).
Proof. induction trs as [|[md tr] r IH]; intros v v' E; [exact E|]. cbn [render_view_all]. apply IH. rewrite E. reflexivity. Qed.

Section Generic.
Context {S : Type} `{MS : MapSurface S} {ML : MapSurfaceLaws S}.

(** Against the interface: every lawful surface renders as the spec says,
    up to where opening the popup leaves the centre. *)
Lemma render_observe md tr h (s : S) :
  renderable (observe h s) -> observe h (render md tr h s) =~ render_view md tr h (observe h s).
Proof.
  intros [Hm Hb]. destruct tr as [p|a b]; [|destruct md]; cbn [render render_view].
  - rewrite open_popup_view; rewrite move_marker_view by exact Hm; [reflexivity | exact Hb].
  - assert (Hd : v_marker (observe h (drawLine a b red_line s)) <> None) by (rewrite draw_line_view; exact Hm).
    rewrite pan_to_view, set_zoom_view, open_popup_view; rewrite move_marker_view by exact Hd;
      rewrite ?draw_line_view; [reflexivity | exact Hb].
  - rewrite compute_route_view. reflexivity.
Qed.

Lemma render_all_observe h trs (s : S) :
  renderable (observe h s) -> observe h (render_all h trs s) =~ render_view_all h trs (observe h s).
Proof.
  revert s. induction trs as [|[md tr] r IH]; intros s Hs; [reflexivity|]. cbn [render_all render_view_all].
  pose proof (render_observe md tr h s Hs) as E.
  rewrite IH by (rewrite E; apply render_view_renderable, Hs). rewrite E. reflexivity.
Qed.
End Generic.

(** ** Leaflet as a Map Surface *)

Local Open Scope string_scope.

Definition ll (p : point) : latlng := LatLng (fst p) (snd p).
Definition pt (l : latlng) : point := (lat l, lng l).

Lemma pt_ll p : pt (ll p) = p.
Proof. destruct p; reflexivity. Qed.

(** [L.polyline(linePoints, style).addTo(this.map)] once both points are
    [LatLng]s (lines 123-128). *)
Definition draw_line (a b : point) (st : path_style) (m : lmap) : lmap :=
  fst (add_layer (PolylineLayer (ll a) (ll b) st) m).

(** Lines 151-176 once the [L.latLng] calls return [LatLng]s: the hidden
    routing control with the two named waypoints, then the plan with
    waypoint dragging, added waypoints and re-routing off. *)
Definition compute_route (a b : point) (m : lmap) : lmap :=
  fst (add_layer (RoutingPlan [Some (ll a); Some (ll b)] false false false)
         (fst (add_layer (RoutingControl [Waypoint (Some (ll a)) "起點"; Waypoint (Some (ll b)) "终點"] false) m))).

Local Close Scope string_scope.

(** The route a layer requests: a routing control whose two waypoints
    have a position. *)
Definition route_of (l : layer) : list (point * point) :=
  match l with
  | RoutingControl [Waypoint (Some a) _; Waypoint (Some b) _] _ => [(pt a, pt b)]
  | _ => []
  end.

Definition has_popup (mk : marker) : bool := match m_popup mk with Some _ => true | None => false end.

Definition leaflet_view (h : nat) (m : lmap) : view :=
  View (List.map (fun ab => (pt (fst ab), pt (snd ab))) (segments (layers m)))
       (flat_map route_of (layers m))
       (option_map (fun mk => pt (m_pos mk)) (marker_at h m))
       (match marker_at h m with Some mk => has_popup mk | None => false end)
       (popup_on m) (zoom m) (pt (center m)).

#[export] Instance leaflet_surface : MapSurface lmap := {|
  drawLine := draw_line;
  moveMarker h p := move_marker h (ll p);
  openPopup := open_popup;
  setZoom := set_zoom;
  panTo p := pan_to (ll p);
  computeRoute := compute_route;
  observe := leaflet_view |}.

(** Adding a layer that is neither a marker, a polyline nor a route keeps
    the view. *)
Lemma leaflet_view_add_plain h l m :
  (forall mk, l <> MarkerLayer mk) -> (forall a b st, l <> PolylineLayer a b st) -> route_of l = [] ->
  leaflet_view h (fst (add_layer l m)) = leaflet_view h m.
Proof.
  intros Hm Hp Hr. unfold leaflet_view.
  rewrite marker_at_add_nonmarker, segments_add_nonpolyline by assumption.
  cbn [add_layer fst layers center zoom popup_on]. rewrite flat_map_app. cbn [flat_map]. rewrite Hr, !app_nil_r. reflexivity.
Qed.

Lemma leaflet_draw_line_view h a b st m :
  leaflet_view h (draw_line a b st m) = add_line a b (leaflet_view h m).
Proof.
  unfold leaflet_view, draw_line, add_line.
  rewrite marker_at_add_nonmarker by congruence. cbn [add_layer fst layers center zoom popup_on].
  rewrite segments_app, map_app, flat_map_app. cbn. rewrite !pt_ll, app_nil_r. reflexivity.
Qed.

Lemma leaflet_move_marker_view h p m :
  v_marker (leaflet_view h m) <> None -> leaflet_view h (move_marker h (ll p) m) = put_marker p (leaflet_view h m).
Proof.
  unfold leaflet_view, move_marker, put_marker.
  destruct (marker_at h m) as [mk|] eqn:Hm; [intros _|cbn; congruence].
  pose proof (marker_at_layer _ _ _ Hm) as Hl.
  cbn [layers center zoom popup_on]. rewrite marker_at_replace by exact (marker_at_lt _ _ _ Hm).
  rewrite segments_replace_marker, flat_map_replace_nth by eauto. cbn. rewrite pt_ll. reflexivity.
Qed.

(** Opening the popup pans as [autoPan] does: the view agrees with the
    spec's up to the centre. *)
Lemma leaflet_open_popup_view h m :
  v_popup_bound (leaflet_view h m) = true -> leaflet_view h (open_popup h m) =~ put_popup (Some h) (leaflet_view h m).
Proof.
  intros Hb. destruct (open_popup_cases h m) as [[Hn _]|(mk & Hmk & Hp & ->)].
  - unfold leaflet_view, has_popup in Hb. cbn [v_popup_bound] in Hb.
    destruct (marker_at h m) as [mk|]; [rewrite (Hn mk eq_refl) in Hb|]; discriminate Hb.
  - unfold leaflet_view, marker_at, view_equiv, frame. cbn. reflexivity.
Qed.

Lemma leaflet_compute_route_view h a b m :
  leaflet_view h (compute_route a b m) = add_route a b (leaflet_view h m).
Proof.
  unfold compute_route. rewrite leaflet_view_add_plain by (congruence || reflexivity).
  unfold leaflet_view, add_route. rewrite marker_at_add_nonmarker, segments_add_nonpolyline by congruence.
  cbn [add_layer fst layers center zoom popup_on]. rewrite flat_map_app. cbn. rewrite !pt_ll. reflexivity.
Qed.

#[export] Instance leaflet_laws : MapSurfaceLaws lmap.
Proof.
  split; cbn [observe drawLine moveMarker openPopup setZoom panTo computeRoute leaflet_surface].
  - exact leaflet_draw_line_view.
  - exact leaflet_move_marker_view.
  - exact leaflet_open_popup_view.
  - reflexivity.
  - intros h [x y] m. reflexivity.
  - exact leaflet_compute_route_view.
Qed.

(** ** [getLine] and [getStreetLine] as the tracker step followed by [render] *)

(** Both methods render the spec's [FirstFix p] as the move from [p] to
    itself: the first-fix snap (lines 112-115) makes the previous point
    the current one. *)
Definition code_transition (tr : Spec.transition) : Spec.transition :=
  match tr with
  | Spec.FirstFix p => Spec.Move p p
  | Spec.Move a b => Spec.Move a b
  end.

(** The method a caller picks for a fix: [getLine] for the straight line,
    [getStreetLine] for the road-following route. *)
Definition draw (md : mode) (nowX nowY : jsval) : M exn track unit :=
  match md with
  | Straight => getLine nowX nowY
  | RoadFollowing => getStreetLine nowX nowY
  end.

Fixpoint draw_all (fs : list (mode * (jsval * jsval))) : M exn track unit :=
  match fs with
  | [] => ret tt
  | (md, (vx, vy)) :: r => draw md vx vy ;; draw_all r
  end.

(** The spec's side of a caller's sequence: each fix ingested in order, its
    transition tagged with the mode the caller chose. *)
Fixpoint ingest_modes (s : Spec.tracker_state) (fs : list (mode * point))
  : Spec.tracker_state * list (mode * Spec.transition) :=
  match fs with
  | [] => (s, [])
  | (md, p) :: r =>
      let '(s1, tr) := Spec.ingestFix s p in
      let '(s2, trs) := ingest_modes s1 r in (s2, (md, tr) :: trs)
  end.

Definition fix_points (fs : list (mode * (jsval * jsval))) : list (mode * point) :=
  List.map (fun mf => (fst mf, fix_point (snd mf))) fs.

Definition code_transitions (trs : list (mode * Spec.transition)) : list (mode * Spec.transition) :=
  List.map (fun mt => (fst mt, code_transition (snd mt))) trs.

(** The point the segment or route starts from. *)
Definition prev_point (t : track) (p : point) : point :=
  if no_fix t then p else (to_number (lastX t), to_number (lastY t)).

Lemma code_transition_ingest t p :
  code_transition (snd (Spec.ingestFix (abs t) p)) = Spec.Move (prev_point t p) p.
Proof. unfold Spec.ingestFix, abs, prev_point. cbn. destruct (no_fix t); reflexivity. Qed.

(** [L.latLng(a, b)] on a point [L.polyline] accepts returns that point. *)
Lemma to_latlng2_first a b p : first_point (a, b) = inr p -> to_latlng2 a b = inr (Some p).
Proof.
  intros H. pose proof (next_point_inr _ _ _ (first_point_next _ _ _ H)) as (_ & _ & Hb).
  destruct a; cbn [first_point typeof_object] in H; try discriminate;
    destruct b; try discriminate Hb; cbn; rewrite H; reflexivity.
Qed.

(** The straight-line render on Leaflet, when the marker has a popup. *)
Lemma render_straight_leaflet a b h m mk :
  marker_at h m = Some mk -> m_popup mk <> None ->
  render Straight (Spec.Move a b) h m =
  LMap (ll b) 17
       (replace_nth h (MarkerLayer (Marker (ll b) (m_title mk) (m_icon mk) (m_popup mk)))
                    (layers m ++ [PolylineLayer (ll a) (ll b) red_line]))
       (Some h) (autopan m).
Proof.
  intros Hm Hp. cbn [render leaflet_surface drawLine moveMarker openPopup setZoom panTo].
  unfold draw_line, move_marker. rewrite marker_at_add_nonmarker, Hm by congruence. cbn [add_layer fst layers center zoom popup_on].
  unfold open_popup. rewrite marker_at_replace by exact (marker_at_lt_append _ _ _ _ Hm).
  destruct (m_popup mk); [reflexivity | congruence].
Qed.

(** What handling one fix in mode [md] guarantees: the tracker takes the
    spec's step, the marker handle stays, the invariants of the tracker's
    fields hold again, and the map is the one [render] produces. *)
Definition draw_post (md : mode) (t : track) (f : jsval * jsval) (t' : track) : Prop :=
  abs t' = fst (Spec.ingestFix (abs t) (fix_point f)) /\
  nowMarker t' = nowMarker t /\ (valid_track t -> valid_track t') /\ accepted_last t' /\
  map t' = render md (code_transition (snd (Spec.ingestFix (abs t) (fix_point f)))) (nowMarker t) (map t).

Lemma getLine_render t f :
  valid_track t -> accepted_last t -> recordable f ->
  exists t', getLine (fst f) (snd f) t = Done tt t' /\ draw_post Straight t f t'.
Proof.
  intros Hv Ha Hr. destruct (getLine_step t f Hv Ha Hr) as (t' & Ht & Hpost).
  unfold step_post, Spec.ingestFix in Hpost. cbn in Hpost.
  destruct Hpost as (Hs & _ & _ & Hh & _ & _ & _ & _ & Hv' & Ha').
  exists t'. split; [exact Ht|]. refine (conj Hs (conj Hh (conj (fun _ => Hv') (conj Ha' _)))).
  destruct f as [vx vy]. destruct Hv as (mk & Hmk & Hpop). destruct Hr as [[b Hb] _]. cbn [fst snd] in *.
  rewrite (getLine_done _ _ _ _ _ _ Hmk Hpop (snapped_first_point _ _ _ _ Ha Hb) Hb) in Ht.
  injection Ht as <-. pose proof (next_point_inr _ _ _ Hb) as (-> & _).
  rewrite code_transition_ingest, (render_straight_leaflet _ _ _ _ _ Hmk Hpop).
  unfold moved, prev_point, fix_point. cbn [map lastX lastY fst snd]. rewrite snapped_map, snapped_marker.
  destruct (no_fix t); reflexivity.
Qed.

Lemma getStreetLine_render t f :
  accepted_last t -> recordable f ->
  exists t', getStreetLine (fst f) (snd f) t = Done tt t' /\ draw_post RoadFollowing t f t'.
Proof.
  destruct f as [vx vy]. intros Ha [[b Hb] Hz]. cbn [fst snd] in *.
  pose proof (to_latlng2_first _ _ _ (snapped_first_point _ _ _ _ Ha Hb)) as H1.
  pose proof (to_latlng2_first _ _ _ (next_point_first _ _ _ Hb)) as H2.
  eexists. split.
  { rewrite getStreetLine_eq. unfold getStreetLine_result. cbv zeta. rewrite H1, H2. reflexivity. }
  pose proof (next_point_inr _ _ _ Hb) as (-> & _).
  unfold draw_post. rewrite code_transition_ingest. refine (conj _ (conj _ (conj _ (conj _ _)))).
  - unfold abs, no_fix, Spec.ingestFix, fix_point. cbn. rewrite Hz. reflexivity.
  - apply snapped_marker.
  - intros (mk & Hmk & Hpop). exists mk. split; [|exact Hpop]. cbn [set_last set_map map nowMarker].
    rewrite !marker_at_add_nonmarker by congruence. rewrite snapped_map, snapped_marker. exact Hmk.
  - exists (LatLng (to_number vx) (to_number vy)). exact (next_point_first _ _ _ Hb).
  - cbn [render leaflet_surface computeRoute set_last set_map map nowMarker].
    unfold compute_route, prev_point, fix_point. cbn [fst snd]. rewrite snapped_map.
    destruct (no_fix t); reflexivity.
Qed.

Lemma draw_step md t f :
  valid_track t -> accepted_last t -> recordable f ->
  exists t', draw md (fst f) (snd f) t = Done tt t' /\ draw_post md t f t'.
Proof. intros Hv Ha Hr. destruct md; [exact (getLine_render t f Hv Ha Hr) | exact (getStreetLine_render t f Ha Hr)]. Qed.

Lemma ingest_modes_cons s md p r :
  ingest_modes s ((md, p) :: r) =
  (fst (ingest_modes (fst (Spec.ingestFix s p)) r),
   (md, snd (Spec.ingestFix s p)) :: snd (ingest_modes (fst (Spec.ingestFix s p)) r)).
Proof. cbn [ingest_modes Spec.ingestFix]. destruct (ingest_modes _ r); reflexivity. Qed.

(** A caller's sequence, each fix in the mode it chose. *)
Lemma draw_all_run t fs :
  valid_track t -> accepted_last t -> Forall (fun mf => recordable (snd mf)) fs ->
  exists t', draw_all fs t = Done tt t' /\ nowMarker t' = nowMarker t /\
    abs t' = fst (ingest_modes (abs t) (fix_points fs)) /\
    map t' = render_all (nowMarker t) (code_transitions (snd (ingest_modes (abs t) (fix_points fs)))) (map t).
Proof.
  revert t. induction fs as [|[md [vx vy]] r IH]; intros t Hv Ha Hf.
  { exists t. auto. }
  inversion Hf as [|? ? Hr Hf']; subst.
  destruct (draw_step md t (vx, vy) Hv Ha Hr) as (t1 & Ht1 & Hs1 & Hh1 & Hv1 & Ha1 & Hm1).
  destruct (IH t1 (Hv1 Hv) Ha1 Hf') as (t2 & Ht2 & Hh2 & Hs2 & Hm2).
  exists t2. cbn [draw_all fix_points List.map fst snd]. rewrite (run_bind_done _ _ _ _ _ Ht1).
  fold (fix_points r). rewrite ingest_modes_cons. cbn [fst snd code_transitions List.map render_all].
  rewrite <- Hs1, <- Hm1, <- Hh1. auto.
Qed.

(** The lines and the routes a sequence of rendered transitions adds. *)
Definition drawn_lines (trs : list (mode * Spec.transition)) : list (point * point) :=
  flat_map (fun mt => match mt with (Straight, Spec.Move a b) => [(a, b)] | _ => [] end) trs.

Definition requested_routes (trs : list (mode * Spec.transition)) : list (point * point) :=
  flat_map (fun mt => match mt with (RoadFollowing, Spec.Move a b) => [(a, b)] | _ => [] end) trs.

Lemma render_view_all_history h trs v :
  v_lines (render_view_all h trs v) = v_lines v ++ drawn_lines trs /\
  v_routes (render_view_all h trs v) = v_routes v ++ requested_routes trs.
Proof.
  revert v. induction trs as [|[md tr] r IH]; intros v; [rewrite !app_nil_r; auto|].
  cbn [render_view_all drawn_lines requested_routes flat_map]. destruct (IH (render_view md tr h v)) as [-> ->].
  destruct md, tr; cbn; rewrite <- ?app_assoc; auto.
Qed.

(** The point of the last transition rendered in straight-line mode: where
    the current-position marker ends. *)
Fixpoint last_marked (trs : list (mode * Spec.transition)) : option point :=
  match trs with
  | [] => None
  | (md, tr) :: r =>
      match last_marked r with
      | Some p => Some p
      | None =>
          match md, tr with
          | Straight, Spec.Move _ b => Some b
          | _, Spec.FirstFix p => Some p
          | RoadFollowing, Spec.Move _ _ => None
          end
      end
  end.

Lemma render_view_all_marker h trs v :
  v_marker (render_view_all h trs v) =
  match last_marked trs with Some p => Some p | None => v_marker v end.
Proof.
  revert v. induction trs as [|[md tr] r IH]; intros v; [reflexivity|].
  cbn [render_view_all last_marked]. rewrite IH.
  destruct (last_marked r); [reflexivity|]. destruct md, tr; reflexivity.
Qed.

(** A tracker whose marker has a popup is a view the renderer works in. *)
Lemma valid_track_renderable t : valid_track t -> renderable (leaflet_view (nowMarker t) (map t)).
Proof.
  intros (mk & Hmk & Hp). unfold renderable, leaflet_view, has_popup. cbn. rewrite Hmk.
  destruct (m_popup mk); [split; [discriminate | reflexivity] | congruence].
Qed.

(** C26 (refinement).  [getLine] is the spec's tracker step followed by the
    spec's straight-line [render] on Leaflet: for a tracker whose marker has
    its popup and whose previous point Leaflet accepts, and a fix the
    tracker records, [getLine] completes, the tracker takes the step
    [ingestFix] takes, and the map is exactly the one [render Straight]
    produces from it, with the first fix rendered as the zero-length move
    from the point to itself (the spec renders it without a line, zoom or
    pan). *)
Theorem getLine_refines_render (t : track) (f : jsval * jsval) :
  valid_track t -> accepted_last t -> recordable f ->
  exists t', getLine (fst f) (snd f) t = Done tt t' /\
    abs t' = fst (Spec.ingestFix (abs t) (fix_point f)) /\
    map t' = render Straight (code_transition (snd (Spec.ingestFix (abs t) (fix_point f)))) (nowMarker t) (map t).
Proof.
  intros Hv Ha Hr. destruct (draw_step Straight t f Hv Ha Hr) as (t' & Ht & Hs & _ & _ & _ & Hm).
  exists t'. auto.
Qed.

(** C27 (refinement).  [getStreetLine] is the spec's tracker step followed
    by the spec's road-following [render] on Leaflet: for a previous point
    and a fix Leaflet accepts, it completes, the tracker takes the step
    [ingestFix] takes, the map is exactly the one [render RoadFollowing]
    produces (one route requested, with dragging, added waypoints and
    re-routing off), and the current-position marker keeps its handle. *)
Theorem getStreetLine_refines_render (t : track) (f : jsval * jsval) :
  accepted_last t -> recordable f ->
  exists t', getStreetLine (fst f) (snd f) t = Done tt t' /\
    abs t' = fst (Spec.ingestFix (abs t) (fix_point f)) /\ nowMarker t' = nowMarker t /\
    map t' = render RoadFollowing (code_transition (snd (Spec.ingestFix (abs t) (fix_point f)))) (nowMarker t) (map t).
Proof.
  intros Ha Hr. destruct (getStreetLine_render t f Ha Hr) as (t' & Ht & Hs & Hh & _ & _ & Hm).
  exists t'. auto.
Qed.

(** C28 (refinement, composition).  A caller that hands the fixes to
    [getLine] or [getStreetLine] as it chooses, in delivery order, runs the
    spec's pipeline: every call completes, the tracker ends in the state
    [ingestFix] reaches over the whole sequence, and the map is the result
    of rendering each transition in order, in the mode chosen for it. *)
Theorem draw_all_refines_render (t : track) (fs : list (mode * (jsval * jsval))) :
  valid_track t -> accepted_last t -> Forall (fun mf => recordable (snd mf)) fs ->
  exists t', draw_all fs t = Done tt t' /\
    abs t' = fst (ingest_modes (abs t) (fix_points fs)) /\
    map t' = render_all (nowMarker t) (code_transitions (snd (ingest_modes (abs t) (fix_points fs)))) (map t).
Proof.
  intros Hv Ha Hf. destruct (draw_all_run t fs Hv Ha Hf) as (t' & Ht & _ & Hs & Hm). exists t'. auto.
Qed.

(** C29 (invariant, spec.md section 4.3).  The drawn history only grows:
    after a caller's sequence of fixes, the map holds the lines it held
    before followed by one line per fix drawn with [getLine] (a
    zero-length one for the first fix), and the routes it held before
    followed by one route per fix drawn with [getStreetLine]; nothing
    drawn is ever removed. *)
Theorem draw_all_history (t : track) (fs : list (mode * (jsval * jsval))) :
  valid_track t -> accepted_last t -> Forall (fun mf => recordable (snd mf)) fs ->
  let trs := code_transitions (snd (ingest_modes (abs t) (fix_points fs))) in
  exists t', draw_all fs t = Done tt t' /\
    v_lines (leaflet_view (nowMarker t) (map t')) = v_lines (leaflet_view (nowMarker t) (map t)) ++ drawn_lines trs /\
    v_routes (leaflet_view (nowMarker t) (map t')) = v_routes (leaflet_view (nowMarker t) (map t)) ++ requested_routes trs.
Proof.
  intros Hv Ha Hf. cbv zeta. destruct (draw_all_run t fs Hv Ha Hf) as (t' & Ht & _ & _ & Hm).
  exists t'. split; [exact Ht|]. rewrite Hm.
  pose proof (render_all_observe (nowMarker t) (code_transitions (snd (ingest_modes (abs t) (fix_points fs))))
                (map t) (valid_track_renderable t Hv)) as Ho.
  cbn [observe leaflet_surface] in Ho. rewrite Ho. exact (render_view_all_history _ _ _).
Qed.

(** C35 (functional, spec.md sections 4.3 and 9).  Where the
    current-position marker ends: after a caller's sequence of fixes, the
    marker is at the last fix drawn with [getLine]; fixes drawn with
    [getStreetLine] never move it, so after a sequence drawn only in
    road-following mode it is where it was. *)
Theorem draw_all_marker (t : track) (fs : list (mode * (jsval * jsval))) :
  valid_track t -> accepted_last t -> Forall (fun mf => recordable (snd mf)) fs ->
  exists t', draw_all fs t = Done tt t' /\
    v_marker (leaflet_view (nowMarker t) (map t')) =
      match last_marked (code_transitions (snd (ingest_modes (abs t) (fix_points fs)))) with
      | Some p => Some p
      | None => v_marker (leaflet_view (nowMarker t) (map t))
      end.
Proof.
  intros Hv Ha Hf. destruct (draw_all_run t fs Hv Ha Hf) as (t' & Ht & _ & _ & Hm).
  exists t'. split; [exact Ht|]. rewrite Hm.
  pose proof (render_all_observe (nowMarker t) (code_transitions (snd (ingest_modes (abs t) (fix_points fs))))
                (map t) (valid_track_renderable t Hv)) as Ho.
  cbn [observe leaflet_surface] in Ho. rewrite Ho. apply render_view_all_marker.
Qed.

(** ** The properties at concrete fixes *)

Lemma track0_ready : valid_track track0 /\ accepted_last track0.
Proof. split; [exists now_marker0; split; [reflexivity | discriminate] | eexists; reflexivity]. Qed.

Lemma getLine_refines_render_witness :
  let f := (JNumber 23.95, JNumber 120.93) in
  valid_track track0 /\ accepted_last track0 /\ recordable f /\
  exists t', getLine (fst f) (snd f) track0 = Done tt t' /\
    abs t' = fst (Spec.ingestFix (abs track0) (fix_point f)) /\
    map t' = render Straight (code_transition (snd (Spec.ingestFix (abs track0) (fix_point f)))) (nowMarker track0) (map track0).
Proof.
  intros f. destruct track0_ready as [Hv Ha].
  assert (Hr : recordable f) by (split; [eexists|]; reflexivity).
  split; [exact Hv|]. split; [exact Ha|]. split; [exact Hr|].
  exact (getLine_refines_render track0 f Hv Ha Hr).
Defined.

(** After a first fix, a road-following move. *)
Lemma getStreetLine_refines_render_witness :
  let t := set_last (JNumber 23.95) (JNumber 120.93) track0 in
  let f := (JNumber 23.96, JNumber 120.94) in
  accepted_last t /\ recordable f /\
  exists t', getStreetLine (fst f) (snd f) t = Done tt t' /\
    abs t' = fst (Spec.ingestFix (abs t) (fix_point f)) /\ nowMarker t' = nowMarker t /\
    map t' = render RoadFollowing (code_transition (snd (Spec.ingestFix (abs t) (fix_point f)))) (nowMarker t) (map t).
Proof.
  intros t f.
  assert (Ha : accepted_last t) by (eexists; reflexivity).
  assert (Hr : recordable f) by (split; [eexists|]; reflexivity).
  split; [exact Ha|]. split; [exact Hr|].
  exact (getStreetLine_refines_render t f Ha Hr).
Defined.

(** A straight line, a route, then a straight line from a fix whose
    latitude arrives as a string. *)
Definition mixed_fixes : list (mode * (jsval * jsval)) :=
  [(Straight, (JNumber 23.95, JNumber 120.93));
   (RoadFollowing, (JNumber 23.96, JNumber 120.94));
   (Straight, (JString "23.97"%string, JNumber 120.95))].

Lemma mixed_fixes_recordable : Forall (fun mf => recordable (snd mf)) mixed_fixes.
Proof. repeat (apply Forall_cons; [split; [eexists|]; reflexivity|]). apply Forall_nil. Qed.

Lemma draw_all_refines_render_witness :
  valid_track track0 /\ accepted_last track0 /\ Forall (fun mf => recordable (snd mf)) mixed_fixes /\
  exists t', draw_all mixed_fixes track0 = Done tt t' /\
    abs t' = fst (ingest_modes (abs track0) (fix_points mixed_fixes)) /\
    map t' = render_all (nowMarker track0)
               (code_transitions (snd (ingest_modes (abs track0) (fix_points mixed_fixes)))) (map track0).
Proof.
  destruct track0_ready as [Hv Ha].
  split; [exact Hv|]. split; [exact Ha|]. split; [exact mixed_fixes_recordable|].
  exact (draw_all_refines_render track0 mixed_fixes Hv Ha mixed_fixes_recordable).
Defined.

Lemma draw_all_history_witness :
  valid_track track0 /\ accepted_last track0 /\ Forall (fun mf => recordable (snd mf)) mixed_fixes /\
  let trs := code_transitions (snd (ingest_modes (abs track0) (fix_points mixed_fixes))) in
  exists t', draw_all mixed_fixes track0 = Done tt t' /\
    v_lines (leaflet_view (nowMarker track0) (map t')) =
      v_lines (leaflet_view (nowMarker track0) (map track0)) ++ drawn_lines trs /\
    v_routes (leaflet_view (nowMarker track0) (map t')) =
      v_routes (leaflet_view (nowMarker track0) (map track0)) ++ requested_routes trs.
Proof.
  destruct track0_ready as [Hv Ha].
  split; [exact Hv|]. split; [exact Ha|]. split; [exact mixed_fixes_recordable|].
  exact (draw_all_history track0 mixed_fixes Hv Ha mixed_fixes_recordable).
Defined.

Lemma draw_all_marker_witness :
  valid_track track0 /\ accepted_last track0 /\ Forall (fun mf => recordable (snd mf)) mixed_fixes /\
  exists t', draw_all mixed_fixes track0 = Done tt t' /\
    v_marker (leaflet_view (nowMarker track0) (map t')) =
      match last_marked (code_transitions (snd (ingest_modes (abs track0) (fix_points mixed_fixes)))) with
      | Some p => Some p
      | None => v_marker (leaflet_view (nowMarker track0) (map track0))
      end.
Proof.
  destruct track0_ready as [Hv Ha].
  split; [exact Hv|]. split; [exact Ha|]. split; [exact mixed_fixes_recordable|].
  exact (draw_all_marker track0 mixed_fixes Hv Ha mixed_fixes_recordable).
Defined.

End Renderer.
