(* ===== verification/Component.v ===== *)
(** * The component: [MapComponent] and the session it runs in

    [src/map Linux/src/app/map/map.component.ts]: the class's fields
    ([comp]), the global Leaflet default icon, the messages the broker has
    queued for the client, whether the view still exists and the pending
    geolocation requests ([world]); [ngOnInit] (the state it builds), the
    methods [onMessageArrived], [getMarker], [sendMessage], [mqttMarker],
    [gpsMarker] and its callback, [ngOnDestroy], as operations of the
    exception-state monad on [world]; and the event loop that runs them
    ([step], [run], [reachable]). *)

From Stdlib Require Import List String Bool ZArith Lia PrimFloat.
From S2P Require Import Prelude JsValue Decoder Encoder RoundTrip Transport MapSurface Tracker.
Import ListNotations.
Import Leaflet Tracker.
Set Warnings "-inexact-float".

Module Component.
Local Open Scope exn_monad_scope.
Local Open Scope string_scope.
Local Open Scope list_scope.

(** The component is written against the client contract of Transport.v
    ([MqttClient], [MqttLaws]), not against paho-mqtt's internals. *)
Section Session.
Context {C : Type} {MC : MqttClient C} {ML : MqttLaws C}.

(** The fields of [MapComponent] (lines 12-20): [map], [nowMarker],
    [lastX], [lastY] are the tracker's [track]; [client]; [messages];
    [mqttData]; [myIcon]; [data]. *)
Record comp : Type := Comp {
  tr : track;
  client : C;
  messages : jsval;
  mqttData : jsval;
  myIcon : icon;
  data : jsval
}.

Record world : Type := World {
  this : comp;
  default_icon : icon;     (** [L.Marker.prototype.options.icon] *)
  inbox : list string;     (** payloads on [MapL] queued for delivery *)
  alive : bool;            (** the view exists ([ngOnDestroy] not run) *)
  gps_pending : nat        (** [getCurrentPosition] calls not answered *)
}.

Definition set_this (c : comp) (w : world) : world :=
  World c (default_icon w) (inbox w) (alive w) (gps_pending w).
Definition set_tr (t : track) (c : comp) : comp :=
  Comp t (client c) (messages c) (mqttData c) (myIcon c) (data c).
Definition set_client (k : C) (c : comp) : comp :=
  Comp (tr c) k (messages c) (mqttData c) (myIcon c) (data c).
Definition set_messages (v : jsval) (c : comp) : comp :=
  Comp (tr c) (client c) v (mqttData c) (myIcon c) (data c).
Definition set_mqttData (v : jsval) (c : comp) : comp :=
  Comp (tr c) (client c) (messages c) v (myIcon c) (data c).
Definition set_inbox (q : list string) (w : world) : world :=
  World (this w) (default_icon w) q (alive w) (gps_pending w).
Definition set_alive (b : bool) (w : world) : world :=
  World (this w) (default_icon w) (inbox w) b (gps_pending w).
Definition set_gps (n : nat) (w : world) : world :=
  World (this w) (default_icon w) (inbox w) (alive w) n.

Definition modify_this (f : comp -> comp) : M exn world unit := modify (fun w => set_this (f (this w)) w).

(** Run a tracker operation on [this]'s tracker fields. *)
Definition on_track {A} (c : M exn track A) : M exn world A :=
  fun w => match c (tr (this w)) with
           | Done a t => Done a (set_this (set_tr t (this w)) w)
           | Raised e t => Raised e (set_this (set_tr t (this w)) w)
           end.

(** A call on [this.client]. *)
Definition on_client (f : C -> exn + C) : M exn world unit :=
  w <- get ;;
  k <- lift_sum (f (client (this w))) ;;
  modify_this (set_client k).

(** A call on [this.map] that returns a value (a layer handle). *)
Definition on_map {A} (f : lmap -> lmap * A) : M exn world A :=
  w <- get ;;
  let '(m, a) := f (map (tr (this w))) in
  modify_this (fun c => set_tr (set_map m (tr c)) c) ;; ret a.

(** ** [ngOnInit] (lines 24-81) *)

Definition osm_tiles : string := "https://{s}.tile.openstreetmap.org/{z}/{x}/{y}.png".
Definition topic : string := "MapL".

(** The fields before [ngOnInit]: the initialisers of lines 18-20; the
    fields with no initialiser are [undefined] until [ngOnInit] sets them
    ([map], [client], [nowMarker], [myIcon] are set before any read). *)
Definition campus_center : jsval := JArray [JNumber 23.9494324; JNumber 120.9289277].

(** [ngOnInit]: it throws nothing (all its arguments are constants), so
    it is the state it builds: [L.map] centred on the campus at zoom 16,
    the tile layer added, a client whose connection is under way, the
    icon installed as [myIcon] and as Leaflet's default, and the marker
    [nowMarker] at [[0, 0]] with its popup; [lastX = lastY = 0].  The
    page's layout [lay] decides how far opening a popup pans the map. *)
Definition ngOnInit (lay : popup_pan) : world :=
  let m0 := LMap (LatLng 23.9494324 120.9289277) 16 [] None lay in
  let m1 := fst (add_layer (TileLayer osm_tiles 20) m0) in
  let k := mq_connect mq_new in
  let (m2, h) := add_layer (MarkerLayer (Marker (LatLng 0 0) (Some "目前位置") MyIcon None)) m1 in
  let m3 := bind_popup h (PopupHtml "<h3>目前位置</h3>") m2 in
  World (Comp (Track m3 (JNumber 0) (JNumber 0) h) k JUndefined JUndefined MyIcon campus_center)
        MyIcon [] true 0.

(** ** Transport *)

(** [this.client.publish(t, p)]; the broker forwards the message to every
    subscriber of [t], this client included. *)
Definition publish (t p : string) : M exn world unit :=
  on_client (mq_publish t p) ;;
  w <- get ;;
  if mq_subscribed t (client (this w)) then put (set_inbox (inbox w ++ [p]) w) else ret tt.

(** [onSuccess] (lines 43-47). *)
Definition onSuccess : M exn world unit := on_client (mq_subscribe topic).

(** ** [onMessageArrived] (lines 54-63) *)

Definition onMessageArrived (payload : string) : M exn world unit :=
  modify_this (set_messages (JString payload)) ;;
  v <- lift_sum (Json.json_parse payload) ;;
  modify_this (set_mqttData v) ;;
  lat <- lift_opt (TypeError "Latitude") (get_field v "Latitude") ;;
  lon <- lift_opt (TypeError "Longitude") (get_field v "Longitude") ;;
  on_track (getLine lat lon).

(** ** [getMarker] (lines 84-90) *)

Definition getMarker : M exn world unit :=
  w <- get ;;
  mk <- lift_sum (new_marker (data (this w)) (Some "座標") (myIcon (this w))) ;;
  h <- on_map (add_layer (MarkerLayer mk)) ;;
  on_map (fun m => (bind_popup h (PopupHtml "<h3>國立暨南國際大學</h3>") m, tt)) ;;
  on_map (fun m => (open_popup h m, tt)).

(** ** [sendMessage] (lines 93-99) *)

Definition campus (x y : float) (name : string) : jsval :=
  JObject [("x", JNumber x); ("y", JNumber y); ("name", JString name)].

(** [this.client.publish('MapL', JSON.stringify(v))] *)
Definition publish_json (v : jsval) : M exn world unit :=
  s <- lift_opt (TypeError "payload") (Encode.json_stringify v) ;;
  publish topic s.

Definition sendMessage : M exn world unit :=
  publish_json (campus 23.952 120.9272588 "管理學院") ;;
  publish_json (campus 23.9515477 120.9292182 "教育學院") ;;
  publish_json (campus 23.9551114 120.9266221 "科技學院") ;;
  publish_json (campus 23.9506 120.9297 "人文學院").

(** ** [mqttMarker] (lines 102-108) *)

Definition mqttMarker (d : jsval) : M exn world unit :=
  d0 <- lift_opt (TypeError "0") (get_index d 0) ;;
  d1 <- lift_opt (TypeError "1") (get_index d 1) ;;
  w <- get ;;
  mk <- lift_sum (new_marker (JArray [JNumber (to_number d0); JNumber (to_number d1)])
                             (Some "座標") (myIcon (this w))) ;;
  h <- on_map (add_layer (MarkerLayer mk)) ;;
  d2 <- lift_opt (TypeError "2") (get_index d 2) ;;
  on_map (fun m => (bind_popup h (PopupHtml ("<h3>" ++ Encode.to_js_string d2 ++ "</h3>")) m, tt)) ;;
  on_map (fun m => (open_popup h m, tt)).

(** ** [gpsMarker] (lines 183-191) *)

(** The call only asks for the position. *)
Definition gpsMarker : M exn world unit := modify (fun w => set_gps (S (gps_pending w)) w).

(** Its success callback, with [position.coords]: a marker with the
    default icon. *)
Definition gpsMarker_callback (latitude longitude : float) : M exn world unit :=
  w <- get ;;
  mk <- lift_sum (new_marker (JArray [JNumber latitude; JNumber longitude]) None (default_icon w)) ;;
  _ <- on_map (add_layer (MarkerLayer mk)) ;; ret tt.

(** ** [ngOnDestroy] (lines 193-195) *)

Definition ngOnDestroy : M exn world unit := on_client (mq_unsubscribe "apollos/test").

(** ** The event loop *)

(** What can happen to a running component.  Each event runs one
    JavaScript task to completion (the browser's event loop and paho's
    serialized delivery make the handlers atomic). *)
Inductive event : Type :=
| ConnectAck (ok : bool)         (** the answer to [connect]: [onSuccess] or [onFailure] *)
| RemotePublish (p : string)     (** another client publishes [p] on [MapL] *)
| Deliver                        (** paho hands the next queued message to [onMessageArrived] *)
| ClickSend                      (** the template calls [sendMessage] *)
| ClickMarker                    (** the template calls [getMarker] *)
| ClickGps                       (** the template calls [gpsMarker] *)
| GpsAnswer (lat lon : float)    (** a [getCurrentPosition] success callback *)
| GpsDenied                      (** a lookup that fails: no callback is registered for it *)
| Destroy                        (** Angular destroys the view and calls [ngOnDestroy] *)
| ConnectionLost.                (** the network or the broker ends an established connection *)

(** paho's [_disconnected]: the socket is closed and the queued messages
    are lost with the clean session. *)
Definition drop_connection (w : world) : world :=
  set_inbox [] (set_this (set_client (mq_disconnect (client (this w))) (this w)) w).

(** A callback run by paho's [_handleMessage]: an exception it throws is
    caught, and the client disconnects. *)
Definition paho_callback (c : M exn world unit) (w : world) : world :=
  match c w with
  | Done _ w' => w'
  | Raised _ w' => drop_connection w'
  end.

(** A template event handler: an exception goes to Angular's
    [ErrorHandler], which logs it; the state it left stays. *)
Definition ui_handler (c : M exn world unit) (w : world) : world :=
  if alive w then final_state (c w) else w.

Definition step (ev : event) (w : world) : world :=
  match ev with
  | ConnectAck ok =>
      if mq_connecting (client (this w)) then
        let w1 := set_this (set_client (mq_connect_done ok (client (this w))) (this w)) w in
        if ok then paho_callback onSuccess w1 else w1
      else w
  | RemotePublish p =>
      if mq_subscribed topic (client (this w)) then set_inbox (inbox w ++ [p]) w else w
  | Deliver =>
      match inbox w with
      | [] => w
      | p :: rest => paho_callback (onMessageArrived p) (set_inbox rest w)
      end
  | ClickSend => ui_handler sendMessage w
  | ClickMarker => ui_handler getMarker w
  | ClickGps => ui_handler gpsMarker w
  | GpsAnswer la lo =>
      match gps_pending w with
      | O => w
      | S n => final_state (gpsMarker_callback la lo (set_gps n w))
      end
  | GpsDenied => match gps_pending w with O => w | S n => set_gps n w end
  | Destroy => if alive w then set_alive false (final_state (ngOnDestroy w)) else w
  | ConnectionLost => if mq_connected (client (this w)) then drop_connection w else w
  end.

Fixpoint run (evs : list event) (w : world) : world :=
  match evs with
  | [] => w
  | ev :: r => run r (step ev w)
  end.

(** The worlds a session reaches from [ngOnInit], on any page layout. *)
Inductive reachable : world -> Prop :=
| reach_init lay : reachable (ngOnInit lay)
| reach_step ev w : reachable w -> reachable (step ev w).

(** ** Lifting lemmas *)

Lemma on_track_final {A} (c : M exn track A) w :
  final_state (on_track c w) = set_this (set_tr (final_state (c (tr (this w)))) (this w)) w.
Proof. unfold on_track. destruct (c (tr (this w))); reflexivity. Qed.

Lemma on_client_final f w :
  final_state (on_client f w) =
  match f (client (this w)) with inl _ => w | inr k => set_this (set_client k (this w)) w end.
Proof. unfold on_client. run_exn. destruct (f (client (this w))); reflexivity. Qed.

Lemma on_map_final {A} (f : lmap -> lmap * A) w :
  final_state (on_map f w) = set_this (set_tr (set_map (fst (f (map (tr (this w))))) (tr (this w))) (this w)) w.
Proof. unfold on_map. run_exn. destruct (f (map (tr (this w)))); reflexivity. Qed.

Section Lift.
Variable P : world -> Prop.

Lemma preserves_on_track {A} (c : M exn track A) :
  (forall w, P w -> P (set_this (set_tr (final_state (c (tr (this w)))) (this w)) w)) ->
  preserves P (on_track c).
Proof. intros H w Hw. rewrite on_track_final. auto. Qed.

Lemma preserves_on_client f :
  (forall w k, P w -> f (client (this w)) = inr k -> P (set_this (set_client k (this w)) w)) ->
  preserves P (on_client f).
Proof. intros H w Hw. rewrite on_client_final. destruct (f _) eqn:E; eauto. Qed.

Lemma preserves_on_map {A} (f : lmap -> lmap * A) :
  (forall w, P w -> P (set_this (set_tr (set_map (fst (f (map (tr (this w))))) (tr (this w))) (this w)) w)) ->
  preserves P (on_map f).
Proof. intros H w Hw. rewrite on_map_final. auto. Qed.

Lemma preserves_modify_this f :
  (forall w, P w -> P (set_this (f (this w)) w)) -> preserves P (modify_this f).
Proof. intros H. apply preserves_modify. exact H. Qed.
End Lift.

(** ** The current-position marker *)

Lemma pan_to_marker_popup h h' m m' :
  pan_to_marker h' m = inr m' -> popup_marker h m -> popup_marker h m'.
Proof. unfold pan_to_marker. destruct (get_latlng h' m); intros H; inversion H; subst; auto. Qed.

Lemma add_polyline_popup h p q st m :
  popup_marker h m -> popup_marker h (final_state (add_polyline p q st m)).
Proof.
  intros H. destruct (add_polyline_cases p q st m) as [->|(l & _ & ->)]; [exact H | apply popup_marker_add, H].
Qed.

(** Whatever [getLine] is given and wherever it stops, [nowMarker] still
    has its popup. *)
Lemma getLine_final_valid t vx vy : valid_track t -> valid_track (final_state (getLine vx vy t)).
Proof.
  intros Hv. rewrite getLine_eq. unfold getLine_result. fold (snapped vx vy t).
  assert (H0 : popup_marker (nowMarker t) (map (snapped vx vy t))) by (rewrite snapped_map; exact Hv).
  pose proof (add_polyline_popup (nowMarker t) (lastX (snapped vx vy t), lastY (snapped vx vy t)) (vx, vy)
                red_line _ H0) as H1'.
  destruct (add_polyline _ _ _ _) as [u m1|e m1] eqn:H1; cbn [final_state] in H1' |- *;
    unfold valid_track; cbn [set_map set_last map nowMarker]; rewrite ?snapped_marker; [|exact H1'].
  destruct (set_latlng _ _ _ _) as [e|m2] eqn:H2;
    cbn [final_state set_map set_last map nowMarker]; rewrite ?snapped_marker; [exact H1'|].
  pose proof (popup_marker_open (nowMarker t) (nowMarker t) _ (set_latlng_popup_marker _ _ _ _ _ _ H2 H1')) as H3.
  destruct (pan_to_marker _ _) as [e|m4] eqn:H4;
    cbn [final_state set_map set_last map nowMarker]; rewrite ?snapped_marker; [exact H3|].
  exact (pan_to_marker_popup _ _ _ _ H4 H3).
Qed.

Lemma getLine_final_marker t vx vy : nowMarker (final_state (getLine vx vy t)) = nowMarker t.
Proof. exact (proj1 (getLine_final_layers t vx vy)). Qed.

(** ** Invariants *)

(** The client is never both connecting and connected, and messages are
    queued only while it is connected. *)
Definition conn_ok (c : C) (q : list string) : Prop :=
  (mq_connected c = true -> mq_connecting c = false) /\ (mq_connected c = false -> q = []).

Definition conn_inv (w : world) : Prop := conn_ok (client (this w)) (inbox w).

(** [nowMarker] is the layer [ngOnInit] created, a marker with a popup. *)
Definition track_inv (w : world) : Prop :=
  valid_track (tr (this w)) /\ nowMarker (tr (this w)) = 1.

Definition world_inv (w : world) : Prop := conn_inv w /\ track_inv w.

(** A property of the client and the queue only. *)
Definition on_conn (Q : C -> list string -> Prop) (w : world) : Prop :=
  Q (client (this w)) (inbox w).

(** A client that lost its connection: paho never reconnects it. *)
Definition dead_conn (c : C) (q : list string) : Prop :=
  mq_connected c = false /\ mq_connecting c = false /\ q = [].

Ltac lift_leaf :=
  first
    [ apply preserves_modify_this
    | apply preserves_on_track
    | apply preserves_on_map
    | apply preserves_on_client
    | apply preserves_modify ];
  intros; unfold on_conn, track_inv in *;
  cbn [set_this set_tr set_client set_messages set_mqttData set_inbox set_gps set_alive
       set_map this tr client inbox map nowMarker default_icon fst] in *.

Ltac handler :=
  repeat lazymatch goal with |- forall _, _ => intro end;
  unfold onMessageArrived, getMarker, mqttMarker, gpsMarker_callback; preserve; try lift_leaf.

(** Handlers that work on the map and the tracker leave the client and the
    queue alone. *)
Lemma track_handlers_conn Q :
  (forall p, preserves (on_conn Q) (onMessageArrived p)) /\
  preserves (on_conn Q) getMarker /\
  (forall d, preserves (on_conn Q) (mqttMarker d)) /\
  (forall la lo, preserves (on_conn Q) (gpsMarker_callback la lo)).
Proof. refine (conj _ (conj _ (conj _ _))); handler; auto. Qed.

Lemma valid_track_set_map m t : popup_marker (nowMarker t) m -> valid_track (set_map m t).
Proof. exact (fun H => H). Qed.

(** They keep [nowMarker] a marker with a popup. *)
Lemma track_handlers_track :
  (forall p, preserves track_inv (onMessageArrived p)) /\
  preserves track_inv getMarker /\
  (forall d, preserves track_inv (mqttMarker d)) /\
  (forall la lo, preserves track_inv (gpsMarker_callback la lo)).
Proof.
  refine (conj _ (conj _ (conj _ _))); handler; intuition;
    first [ apply getLine_final_valid; assumption
          | rewrite getLine_final_marker; assumption
          | apply valid_track_set_map;
            first [ apply popup_marker_add | apply popup_marker_bind | apply popup_marker_open ];
            assumption ].
Qed.

(** ** The transport handlers *)

Lemma publish_run t p w :
  publish t p w =
  match mq_publish t p (client (this w)) with
  | inl e => Raised e w
  | inr k => Done tt (if mq_subscribed t k
                      then set_inbox (inbox w ++ [p]) (set_this (set_client k (this w)) w)
                      else set_this (set_client k (this w)) w)
  end.
Proof.
  unfold publish, on_client, modify_this. cbv [bind get put ret lift_sum raise modify].
  destruct (mq_publish t p (client (this w))) as [|k]; [reflexivity|].
  cbn. destruct (mq_subscribed t k); reflexivity.
Qed.

Lemma conn_step_ok c k q : conn_ok c q -> conn_step c k -> conn_ok k q.
Proof. intros [H1 _] (Hc & Hk & Hn). split; [rewrite Hn; auto | congruence]. Qed.

Lemma on_client_inv f :
  (forall c k, f c = inr k -> conn_step c k) -> preserves world_inv (on_client f).
Proof.
  intros Hf. apply preserves_on_client. intros w k [Hc Ht] Hk. split; [|exact Ht].
  exact (conn_step_ok _ _ _ Hc (Hf _ _ Hk)).
Qed.

Lemma publish_inv t p : preserves world_inv (publish t p).
Proof.
  intros w [Hc Ht]. rewrite publish_run.
  destruct (mq_publish t p (client (this w))) as [e|k] eqn:E; cbn [final_state]; [split; assumption|].
  destruct (mq_publish_inr _ _ _ _ E) as [Hs _]. pose proof (conn_step_ok _ _ _ Hc Hs) as Hk.
  destruct (mq_subscribed t k); split; try exact Ht; [|exact Hk].
  destruct Hs as (_ & Hon & _). unfold conn_inv, conn_ok in *. cbn. split; [apply Hk|congruence].
Qed.

Lemma sendMessage_inv : preserves world_inv sendMessage.
Proof. unfold sendMessage, publish_json. preserve; apply publish_inv. Qed.

Lemma onSuccess_inv : preserves world_inv onSuccess.
Proof. apply on_client_inv. intros c k E. apply (mq_subscribe_inr _ _ _ E). Qed.

Lemma ngOnDestroy_inv : preserves world_inv ngOnDestroy.
Proof. apply on_client_inv. intros c k E. apply (mq_unsubscribe_inr _ _ _ E). Qed.

Lemma track_handlers_inv :
  (forall p, preserves world_inv (onMessageArrived p)) /\
  preserves world_inv getMarker /\
  (forall d, preserves world_inv (mqttMarker d)) /\
  (forall la lo, preserves world_inv (gpsMarker_callback la lo)).
Proof.
  destruct (track_handlers_conn conn_ok) as (C1 & C2 & C3 & C4).
  destruct track_handlers_track as (T1 & T2 & T3 & T4).
  refine (conj _ (conj _ (conj _ _))); intros; apply preserves_and; auto.
Qed.

(** ** Every reachable world satisfies the invariant *)

(** [_disconnected] leaves a dead client and an empty queue. *)
Lemma drop_connection_dead w : on_conn dead_conn (drop_connection w).
Proof. unfold on_conn, dead_conn. cbn. destruct (mq_disconnect_state (client (this w))). auto. Qed.

Lemma drop_connection_inv w : track_inv w -> world_inv (drop_connection w).
Proof.
  intros Ht. destruct (drop_connection_dead w) as (H1 & _ & H3).
  split; [split; [congruence | auto] | exact Ht].
Qed.

Lemma paho_callback_inv c w : preserves world_inv c -> world_inv w -> world_inv (paho_callback c w).
Proof.
  intros Hc Hw. specialize (Hc w Hw). unfold paho_callback.
  destruct (c w); [exact Hc|]. apply drop_connection_inv, Hc.
Qed.

Lemma ui_handler_preserves P c w : preserves P c -> P w -> P (ui_handler c w).
Proof. intros Hc Hw. unfold ui_handler. destruct (alive w); auto. Qed.

Lemma ngOnInit_inv lay : world_inv (ngOnInit lay).
Proof.
  split; [split; cbn; [rewrite (proj2 (mq_connect_pending _)); discriminate | reflexivity]|].
  split; [|reflexivity]. eexists; split; [reflexivity|discriminate].
Qed.

Lemma step_inv ev w : world_inv w -> world_inv (step ev w).
Proof.
  intros Hw. pose proof Hw as [[Hc1 Hc2] Ht].
  destruct track_handlers_inv as (H1 & H2 & H3 & H4).
  destruct ev as [ok|p| | | | |la lo| | |]; cbn [step].
  - destruct (mq_connecting (client (this w))) eqn:Ec; [|exact Hw].
    assert (Hq : inbox w = []) by (apply Hc2; destruct (mq_connected _) eqn:E; auto; rewrite Hc1 in Ec; auto).
    assert (Hw1 : world_inv (set_this (set_client (mq_connect_done ok (client (this w))) (this w)) w))
      by (split; [split; cbn; [intros _; apply mq_connect_done_state | intros _; exact Hq]|exact Ht]).
    destruct ok; try (apply paho_callback_inv; [apply onSuccess_inv|]); exact Hw1.
  - destruct (mq_subscribed topic _) eqn:Es; [|exact Hw].
    apply mq_subscribed_connected in Es.
    split; [split; cbn; [exact Hc1|congruence]|exact Ht].
  - destruct (inbox w) as [|p rest] eqn:Eq; [exact Hw|].
    apply paho_callback_inv; [apply H1|].
    assert (Hon : mq_connected (client (this w)) = true)
      by (destruct (mq_connected _) eqn:E; auto; discriminate (Hc2 eq_refl)).
    split; [split; cbn; [exact Hc1|congruence]|exact Ht].
  - apply ui_handler_preserves; [apply sendMessage_inv|exact Hw].
  - apply ui_handler_preserves; [exact H2|exact Hw].
  - apply ui_handler_preserves; [apply preserves_modify; intros; assumption|exact Hw].
  - destruct (gps_pending w); [exact Hw|]. apply H4. exact Hw.
  - destruct (gps_pending w); exact Hw.
  - destruct (alive w); [|exact Hw]. apply (ngOnDestroy_inv w Hw).
  - destruct (mq_connected _); [apply drop_connection_inv, Ht | exact Hw].
Qed.

Lemma reachable_inv w : reachable w -> world_inv w.
Proof. induction 1; [apply ngOnInit_inv | apply step_inv; assumption]. Qed.

(** ** The demo broadcast *)

(** The JSON text [{"x":x,"y":y,"name":"n"}], written with the quote
    character [dq]. *)
Definition dq : string := String (Ascii.ascii_of_nat 34) EmptyString.
Definition demo_text (x y n : string) : string :=
  "{" ++ dq ++ "x" ++ dq ++ ":" ++ x ++ "," ++ dq ++ "y" ++ dq ++ ":" ++ y ++ "," ++
  dq ++ "name" ++ dq ++ ":" ++ dq ++ n ++ dq ++ "}".

Definition demo_payloads : list string :=
  [demo_text "23.952" "120.9272588" "管理學院";
   demo_text "23.9515477" "120.9292182" "教育學院";
   demo_text "23.9551114" "120.9266221" "科技學院";
   demo_text "23.9506" "120.9297" "人文學院"].

Lemma stringify_demo :
  Encode.json_stringify (campus 23.952 120.9272588 "管理學院") = Some (nth 0 demo_payloads EmptyString) /\
  Encode.json_stringify (campus 23.9515477 120.9292182 "教育學院") = Some (nth 1 demo_payloads EmptyString) /\
  Encode.json_stringify (campus 23.9551114 120.9266221 "科技學院") = Some (nth 2 demo_payloads EmptyString) /\
  Encode.json_stringify (campus 23.9506 120.9297 "人文學院") = Some (nth 3 demo_payloads EmptyString).
Proof. vm_compute. repeat split. Qed.

(** [w'] is [w] after publishing the payloads [ps] on [MapL]: the client
    recorded them in order and kept its connection and subscriptions, the
    broker queued the echoes if the client is subscribed to [MapL], and
    the tracker and the view are untouched. *)
Definition sent_after (ps : list string) (w w' : world) : Prop :=
  mq_sent (client (this w')) = mq_sent (client (this w)) ++ List.map (pair topic) ps /\
  conn_step (client (this w)) (client (this w')) /\
  (forall u, mq_subscribed u (client (this w')) = mq_subscribed u (client (this w))) /\
  inbox w' = inbox w ++ (if mq_subscribed topic (client (this w)) then ps else []) /\
  tr (this w') = tr (this w) /\ alive w' = alive w.

Lemma sent_after_connected ps w w' : sent_after ps w w' -> mq_connected (client (this w')) = true.
Proof. intros (_ & (_ & H & _) & _). exact H. Qed.

Lemma sent_after_trans ps qs w1 w2 w3 :
  sent_after ps w1 w2 -> sent_after qs w2 w3 -> sent_after (ps ++ qs) w1 w3.
Proof.
  intros (S1 & C1 & U1 & I1 & T1 & A1) (S2 & C2 & U2 & I2 & T2 & A2).
  refine (conj _ (conj (conn_step_trans _ _ _ C1 C2) (conj _ (conj _ (conj _ _))))).
  - rewrite S2, S1, map_app, app_assoc. reflexivity.
  - intros u. rewrite U2. apply U1.
  - rewrite I2, U1, I1, <- app_assoc. destruct (mq_subscribed topic _); reflexivity.
  - congruence.
  - congruence.
Qed.

(** [publish_json v] on a connected client publishes [JSON.stringify(v)]. *)
Lemma publish_json_connected v p w :
  Encode.json_stringify v = Some p -> mq_connected (client (this w)) = true ->
  exists w', publish_json v w = Done tt w' /\ sent_after [p] w w'.
Proof.
  intros Hv Hc. unfold publish_json. cbv [bind lift_opt ret]. rewrite Hv, publish_run.
  destruct (mq_publish_online topic p _ Hc) as (k & Ek & _).
  destruct (mq_publish_inr _ _ _ _ Ek) as (Hs & Hsub & Hsent). rewrite Ek, Hsub.
  eexists; split; [reflexivity|]. unfold sent_after.
  destruct (mq_subscribed topic (client (this w))); cbn;
    (split; [exact Hsent|split; [exact Hs|split; [exact Hsub|]]]); rewrite ?app_nil_r; repeat split.
Qed.

(** [sendMessage] on a connected client completes and publishes the four
    demo payloads in order. *)
Lemma sendMessage_run w :
  mq_connected (client (this w)) = true ->
  exists w', sendMessage w = Done tt w' /\ sent_after demo_payloads w w'.
Proof.
  intros Hc. destruct stringify_demo as (H1 & H2 & H3 & H4). unfold sendMessage.
  destruct (publish_json_connected _ _ w H1 Hc) as (w1 & R1 & S1).
  destruct (publish_json_connected _ _ w1 H2 (sent_after_connected _ _ _ S1)) as (w2 & R2 & S2).
  destruct (publish_json_connected _ _ w2 H3 (sent_after_connected _ _ _ S2)) as (w3 & R3 & S3).
  destruct (publish_json_connected _ _ w3 H4 (sent_after_connected _ _ _ S3)) as (w4 & R4 & S4).
  exists w4. rewrite (run_bind_done _ _ _ _ _ R1), (run_bind_done _ _ _ _ _ R2), (run_bind_done _ _ _ _ _ R3).
  split; [exact R4|].
  exact (sent_after_trans _ _ _ _ _ S1 (sent_after_trans _ _ _ _ _ S2 (sent_after_trans _ _ _ _ _ S3 S4))).
Qed.

(** On a client that is not connected, the first publish throws and
    nothing has changed. *)
Lemma sendMessage_disconnected w :
  mq_connected (client (this w)) = false -> sendMessage w = Raised not_connected w.
Proof.
  intros Hc. destruct stringify_demo as (H1 & _).
  unfold sendMessage. apply run_bind_raised. unfold publish_json. cbv [bind lift_opt ret]. rewrite H1.
  rewrite publish_run, mq_publish_offline by exact Hc. reflexivity.
Qed.

(** ** Handlers that cannot draw *)

Definition drawn (w : world) : list (latlng * latlng) := segments (layers (map (tr (this w)))).

(** Placing a marker leaves the drawn path as it is. *)
Lemma marker_handlers_segments S0 :
  preserves (fun w => drawn w = S0) getMarker /\
  (forall d, preserves (fun w => drawn w = S0) (mqttMarker d)) /\
  (forall la lo, preserves (fun w => drawn w = S0) (gpsMarker_callback la lo)).
Proof.
  unfold drawn. refine (conj _ (conj _ _)); handler;
    first [ rewrite segments_add_nonpolyline by discriminate
          | rewrite (proj1 (bind_popup_layers _ _ _))
          | rewrite open_popup_layers ]; assumption.
Qed.


Definition frozen (S0 : list (latlng * latlng)) (w : world) : Prop :=
  on_conn dead_conn w /\ drawn w = S0.

Lemma step_frozen S0 ev w : frozen S0 w -> frozen S0 (step ev w).
Proof.
  intros Hw. pose proof Hw as [(Hc & Hn & Hq) Hd]. unfold on_conn in *.
  destruct (track_handlers_conn dead_conn) as (_ & C2 & _ & C4).
  destruct (marker_handlers_segments S0) as (D2 & _ & D4).
  destruct ev as [ok|p| | | | |la lo| | |]; cbn [step].
  - rewrite Hn. exact Hw.
  - rewrite mq_subscribed_offline by exact Hc. exact Hw.
  - rewrite Hq. exact Hw.
  - apply ui_handler_preserves; [|exact Hw]. intros w' Hw'.
    rewrite sendMessage_disconnected by exact (proj1 (proj1 Hw')). exact Hw'.
  - apply ui_handler_preserves; [apply preserves_and; assumption|exact Hw].
  - apply ui_handler_preserves; [apply preserves_modify; intros; assumption|exact Hw].
  - destruct (gps_pending w); [exact Hw|]. apply (preserves_and _ _ _ (C4 la lo) (D4 la lo)). exact Hw.
  - destruct (gps_pending w); exact Hw.
  - destruct (alive w); [|exact Hw].
    unfold ngOnDestroy. rewrite on_client_final, mq_unsubscribe_offline by exact Hc. exact Hw.
  - rewrite Hc. exact Hw.
Qed.

Lemma run_frozen S0 evs w : frozen S0 w -> frozen S0 (run evs w).
Proof. revert w; induction evs as [|ev evs IH]; intros w Hw; [exact Hw|]. apply IH, step_frozen, Hw. Qed.

(** [getLine(undefined, undefined)] throws on every state, before it
    draws: [L.polyline] rejects the point [[undefined, undefined]]. *)
Lemma getLine_undefined_raises t :
  exists e m, getLine JUndefined JUndefined t = Raised e (set_map m (snapped JUndefined JUndefined t)) /\
    segments (layers m) = segments (layers (map t)).
Proof.
  rewrite getLine_eq. unfold getLine_result. fold (snapped JUndefined JUndefined t).
  destruct (add_polyline _ _ _ _) as [u m1|e m1] eqn:H1.
  - exfalso. revert H1. unfold add_polyline. destruct (first_point _); cbn; discriminate.
  - exists e, m1. split; [reflexivity|]. rewrite (proj1 (add_polyline_raised _ _ _ _ _ _ H1)). apply f_equal, f_equal, snapped_map.
Qed.

(** A payload that parses to a record without [Latitude] and [Longitude]
    fields (the demo points have [x], [y], [name]) makes the handler throw
    with the path as it was. *)
Lemma onMessageArrived_no_coords p v w :
  Json.json_parse p = inr v -> get_field v "Latitude" = Some JUndefined ->
  get_field v "Longitude" = Some JUndefined ->
  exists e w', onMessageArrived p w = Raised e w' /\ drawn w' = drawn w /\
    client (this w') = client (this w) /\ inbox w' = inbox w.
Proof.
  intros Hp Hla Hlo. destruct (getLine_undefined_raises (tr (this w))) as (e & m & He & Hs).
  exists e. eexists. unfold onMessageArrived, modify_this, on_track.
  cbv [bind modify lift_sum lift_opt ret]. rewrite Hp, Hla, Hlo. cbn [this set_this set_messages set_mqttData tr].
  rewrite He. split; [reflexivity|]. unfold drawn. cbn. rewrite Hs. auto.
Qed.

(** The payload parses to a value whose [Latitude] and [Longitude] are
    [undefined]. *)
Definition no_coords (p : string) : bool :=
  match Json.json_parse p with
  | inr v =>
      match get_field v "Latitude", get_field v "Longitude" with
      | Some JUndefined, Some JUndefined => true
      | _, _ => false
      end
  | inl _ => false
  end.

Lemma no_coords_raises p w :
  no_coords p = true ->
  exists e w', onMessageArrived p w = Raised e w' /\ drawn w' = drawn w /\
    client (this w') = client (this w) /\ inbox w' = inbox w.
Proof.
  unfold no_coords. destruct (Json.json_parse p) as [|v] eqn:Hp; [discriminate|].
  destruct (get_field v "Latitude") as [[]|] eqn:Hla; try discriminate.
  destruct (get_field v "Longitude") as [[]|] eqn:Hlo; try discriminate.
  intros _. exact (onMessageArrived_no_coords _ _ _ Hp Hla Hlo).
Qed.

Lemma demo_payloads_no_coords : forallb no_coords demo_payloads = true.
Proof. vm_compute. reflexivity. Qed.

Lemma run_reachable evs w : reachable w -> reachable (run evs w).
Proof. revert w; induction evs as [|ev evs IH]; intros w Hw; [exact Hw|]. apply IH. constructor. exact Hw. Qed.

(** A session that has connected: [onSuccess] has subscribed to [MapL]. *)
Definition connected_session : world := step (ConnectAck true) (ngOnInit popups_fit).

(** A fix as the tracked device sends it. *)
Definition fix_text (la lo : string) : string :=
  "{" ++ dq ++ "Latitude" ++ dq ++ ":" ++ la ++ "," ++ dq ++ "Longitude" ++ dq ++ ":" ++ lo ++ "}".

(** ** Delivering fixes *)

(** The fix a payload carries: [JSON.parse] accepts it and the record's
    [Latitude] and [Longitude] are read (line 62). *)
Definition payload_fix (p : string) : option (jsval * jsval) :=
  match Json.json_parse p with
  | inr v =>
      match get_field v "Latitude", get_field v "Longitude" with
      | Some la, Some lo => Some (la, lo)
      | _, _ => None
      end
  | inl _ => None
  end.

Lemma payload_fix_some p f :
  payload_fix p = Some f ->
  exists v, Json.json_parse p = inr v /\ get_field v "Latitude" = Some (fst f) /\
            get_field v "Longitude" = Some (snd f).
Proof.
  unfold payload_fix. destruct (Json.json_parse p) as [|v]; [discriminate|].
  destruct (get_field v "Latitude") as [la|] eqn:Hla, (get_field v "Longitude") as [lo|] eqn:Hlo;
    try discriminate.
  intros H. injection H as <-. eauto.
Qed.

(** paho hands [onMessageArrived] a payload carrying a fix the tracker
    records: [getLine] runs to completion on it. *)
Lemma deliver_fix (w : world) p rest v la lo :
  valid_track (tr (this w)) -> accepted_last (tr (this w)) -> inbox w = p :: rest ->
  Json.json_parse p = inr v -> get_field v "Latitude" = Some la -> get_field v "Longitude" = Some lo ->
  recordable (la, lo) ->
  let w' := step Deliver w in
  step_post (tr (this w)) (la, lo) (tr (this w')) /\
  client (this w') = client (this w) /\ inbox w' = rest /\
  messages (this w') = JString p /\ mqttData (this w') = v.
Proof.
  intros Hv Ha Hq Hp Hla Hlo Hf.
  destruct (getLine_step _ (la, lo) Hv Ha Hf) as (t' & Hrun & Hpost). cbn [fst snd] in Hrun.
  cbn [step]. rewrite Hq. unfold paho_callback, onMessageArrived, modify_this, on_track.
  cbv [bind modify lift_sum lift_opt ret]. rewrite Hp, Hla, Hlo.
  cbn [this set_this set_messages set_mqttData tr set_inbox]. rewrite Hrun. cbn. auto.
Qed.

(** [getLine] throws on a point Leaflet rejects, whatever the state:
    the polyline to it cannot be built (line 123). *)
Lemma getLine_bad_point_raises t vx vy e :
  next_point (vx, vy) = inl e -> exists e' t', getLine vx vy t = Raised e' t'.
Proof.
  intros He. rewrite getLine_eq. unfold getLine_result. cbv zeta.
  destruct (add_polyline_inl (lastX (if no_fix t then set_last vx vy t else t),
                              lastY (if no_fix t then set_last vx vy t else t)) (vx, vy) red_line
                             (map (if no_fix t then set_last vx vy t else t)) (or_intror (ex_intro _ e He)))
    as [e' He'].
  rewrite He'. eauto.
Qed.

(** [onMessageArrived] throws on a payload that does not carry a point
    Leaflet accepts: [JSON.parse] rejects it, the value has no fields to
    read, or [getLine] rejects the point. *)
Lemma onMessageArrived_bad_raises p (w : world) :
  (payload_fix p = None \/ exists la lo e, payload_fix p = Some (la, lo) /\ next_point (la, lo) = inl e) ->
  exists e w', onMessageArrived p w = Raised e w'.
Proof.
  intros Hbad. unfold onMessageArrived, modify_this, on_track.
  cbv [bind modify lift_sum lift_opt ret raise].
  destruct Hbad as [Hn | (la & lo & e & Hs & He)].
  - unfold payload_fix in Hn. destruct (Json.json_parse p) as [e|v]; [eauto|].
    destruct (get_field v "Latitude") as [la|]; [|eauto].
    destruct (get_field v "Longitude") as [lo|]; [discriminate|eauto].
  - destruct (payload_fix_some _ _ Hs) as (v & Hv & Hla & Hlo). cbn [fst snd] in Hla, Hlo.
    rewrite Hv, Hla, Hlo.
    match goal with |- context [getLine la lo ?t] =>
      destruct (getLine_bad_point_raises t _ _ _ He) as (e' & t' & Ht) end.
    rewrite Ht. eauto.
Qed.

(** ** Placing a marker *)

Lemma on_map_run {A} (f : lmap -> lmap * A) (w : world) :
  on_map f w =
  Done (snd (f (map (tr (this w))))) (set_this (set_tr (set_map (fst (f (map (tr (this w))))) (tr (this w))) (this w)) w).
Proof. unfold on_map, modify_this. cbv [bind get modify ret]. destruct (f _); reflexivity. Qed.

(** [L.marker(...).addTo(map).bindPopup(p)] and [marker.openPopup()]. *)
Lemma place_run mk p (w : world) :
  (h <- on_map (add_layer (MarkerLayer mk)) ;;
   on_map (fun m => (bind_popup h p m, tt)) ;;
   on_map (fun m => (open_popup h m, tt))) w =
  Done tt (set_this (set_tr (set_map (open_popup (List.length (layers (map (tr (this w)))))
             (bind_popup (List.length (layers (map (tr (this w))))) p
                (fst (add_layer (MarkerLayer mk) (map (tr (this w))))))) (tr (this w))) (this w)) w).
Proof.
  rewrite (run_bind_done _ _ _ _ _ (on_map_run _ w)).
  rewrite (run_bind_done _ _ _ _ _ (on_map_run _ _)). rewrite on_map_run. reflexivity.
Qed.

(** The marker [getMarker] places: at [this.data], with [this.myIcon]. *)
Definition campus_marker : marker :=
  Marker (LatLng 23.9494324 120.9289277) (Some "座標") MyIcon (Some (PopupHtml "<h3>國立暨南國際大學</h3>")).

Lemma getMarker_run (w : world) :
  data (this w) = campus_center -> myIcon (this w) = MyIcon ->
  getMarker w =
  Done tt (set_this (set_tr (set_map
    (LMap (autopan (map (tr (this w))) (center (map (tr (this w)))) (zoom (map (tr (this w)))) campus_marker)
          (zoom (map (tr (this w))))
          (layers (map (tr (this w))) ++ [MarkerLayer campus_marker])
          (Some (List.length (layers (map (tr (this w)))))) (autopan (map (tr (this w)))))
    (tr (this w))) (this w)) w).
Proof.
  intros Hd Hi. unfold getMarker. rewrite bind_get. cbv beta.
  rewrite Hd, Hi. unfold campus_center. rewrite new_marker_numbers by reflexivity.
  rewrite (run_bind_done _ _ _ _ _ (lift_sum_inr _ w)), place_run, place_marker_map. reflexivity.
Qed.

Definition fix_payload : string := fix_text "23.95" "120.93".
Definition fix_record : jsval := JObject [("Latitude", JNumber 23.95); ("Longitude", JNumber 120.93)].

(** ** Properties of the session

    They hold for every client that meets the contract of Transport.v;
    the witnesses after the section apply them to paho-mqtt. *)

(** C12 (safety).  Pressing the broadcast button kills tracking for good:
    from any live session subscribed to [MapL] with nothing queued,
    [sendMessage] followed by the delivery of its own first message (the
    broker echoes it, the client being subscribed to the topic it
    publishes on) leaves the client disconnected with an empty queue and
    the path unchanged, because the echoed record has no [Latitude] and
    [getLine(undefined, undefined)] throws inside paho's delivery; after
    that, whatever happens, the client stays disconnected and no segment
    is ever drawn again. *)
Theorem broadcast_echo_drops_connection (w : world) (evs : list event) :
  alive w = true -> mq_subscribed topic (client (this w)) = true -> inbox w = [] ->
  let w2 := run [ClickSend; Deliver] w in
  mq_connected (client (this w2)) = false /\ inbox w2 = [] /\ drawn w2 = drawn w /\
  mq_connected (client (this (run evs w2))) = false /\ drawn (run evs w2) = drawn w.
Proof.
  intros Ha Hs Hq.
  destruct (sendMessage_run w (mq_subscribed_connected _ _ Hs)) as (w1 & Hrun & _ & _ & _ & Hin & Htr & _).
  rewrite Hs in Hin.
  pose proof demo_payloads_no_coords as Hn. cbn [demo_payloads forallb] in Hn.
  apply andb_prop in Hn as [Hn _].
  cbn [run step]. unfold ui_handler. rewrite Ha, Hrun. cbn [final_state]. rewrite Hin, Hq.
  cbn [app demo_payloads].
  match goal with |- context [paho_callback (onMessageArrived _) ?w0] =>
    destruct (no_coords_raises _ w0 Hn) as (e & w' & Hr & Hd & _) end.
  unfold paho_callback. rewrite Hr.
  assert (Hdw : drawn (drop_connection w') = drawn w)
    by (unfold drawn in *; cbn [drop_connection set_inbox set_this set_client this tr] in Hd |- *;
        rewrite Hd, Htr; reflexivity).
  destruct (run_frozen (drawn w) evs (drop_connection w')) as [(Hc & _) Hd'];
    [split; [apply drop_connection_dead | exact Hdw]|].
  destruct (drop_connection_dead w') as (Hc0 & _).
  repeat split; auto.
Qed.

(** C13 (safety).  [ngOnDestroy] unsubscribes from ['apollos/test'], not
    from [MapL], the topic [onSuccess] subscribed to, and never
    disconnects: after the view is destroyed the client is still
    subscribed to [MapL], and a fix published there is queued for
    [onMessageArrived], which still draws on the destroyed component. *)
Theorem ngOnDestroy_keeps_topic (w : world) (p : string) :
  alive w = true -> mq_subscribed topic (client (this w)) = true ->
  let w' := run [Destroy; RemotePublish p] w in
  alive w' = false /\ mq_subscribed topic (client (this w')) = true /\ inbox w' = inbox w ++ [p].
Proof.
  intros Ha Hs. pose proof (mq_subscribed_connected _ _ Hs) as Hc.
  destruct (mq_unsubscribe_online "apollos/test" _ Hc) as (k & Eu & _).
  assert (Hk : mq_subscribed topic k = true)
    by (rewrite (proj2 (mq_unsubscribe_inr _ _ _ Eu) topic ltac:(unfold topic; discriminate)); exact Hs).
  cbn [run step]. rewrite Ha. unfold ngOnDestroy. rewrite on_client_final, Eu.
  cbn [set_alive this set_this client set_client alive inbox set_inbox]. rewrite Hk. auto.
Qed.

(** C14 (error).  A payload that is not JSON makes [JSON.parse] throw
    inside paho's delivery: [this.messages] has been overwritten with it,
    [mqttData] and the tracker are untouched, but the exception reaches
    paho, which closes the connection and loses the queued messages; the
    spec (section 7) has the decoder drop such a message without a crash. *)
Theorem malformed_payload_drops_connection (w : world) (p : string) (rest : list string) :
  inbox w = p :: rest -> Json.json_parse p = inl SyntaxError ->
  let w' := step Deliver w in
  tr (this w') = tr (this w) /\ mqttData (this w') = mqttData (this w) /\
  messages (this w') = JString p /\ mq_connected (client (this w')) = false /\ inbox w' = [].
Proof.
  intros Hq Hp. cbn [step]. rewrite Hq. unfold paho_callback, onMessageArrived, modify_this.
  cbv [bind modify lift_sum raise]. rewrite Hp. cbn.
  repeat split. apply (proj1 (mq_disconnect_state _)).
Qed.

(** C15 (functional).  On a connected client, [sendMessage] completes and
    sends exactly four messages on [MapL], in the source's order, each the
    JSON text [{"x":..,"y":..,"name":".."}] of one campus point with the
    coordinates printed as ECMAScript prints them; the tracker is not
    touched (spec.md section 8, [publishAll]). *)
Theorem sendMessage_publishes_demo_points (w : world) :
  mq_connected (client (this w)) = true ->
  exists w', sendMessage w = Done tt w' /\
    mq_sent (client (this w')) = mq_sent (client (this w)) ++
      [("MapL", demo_text "23.952" "120.9272588" "管理學院");
       ("MapL", demo_text "23.9515477" "120.9292182" "教育學院");
       ("MapL", demo_text "23.9551114" "120.9266221" "科技學院");
       ("MapL", demo_text "23.9506" "120.9297" "人文學院")] /\
    tr (this w') = tr (this w).
Proof.
  intros Hc. destruct (sendMessage_run w Hc) as (w' & Hrun & Hsent & _ & _ & _ & Htr & _).
  exists w'. split; [exact Hrun|split; [exact Hsent|exact Htr]].
Qed.


(** Whatever [onMessageArrived] does after [JSON.parse] succeeds, the
    payload stays in [this.messages] and its value in [this.mqttData];
    paho's [_disconnected] does not touch them. *)
Lemma deliver_parsed (w : world) p rest v :
  inbox w = p :: rest -> Json.json_parse p = inr v ->
  mqttData (this (step Deliver w)) = v /\ messages (this (step Deliver w)) = JString p.
Proof.
  intros Hq Hp. cbn [step]. rewrite Hq. unfold paho_callback, onMessageArrived, modify_this, on_track.
  cbv [bind modify lift_sum lift_opt ret raise]. rewrite Hp. cbn [this set_this set_messages set_mqttData].
  destruct (get_field v "Latitude"); [|auto]. destruct (get_field v "Longitude"); [|auto].
  destruct (getLine _ _ _); auto.
Qed.

(** C18 (roundtrip, lines 95 and 57).  What the component publishes on
    [MapL] comes back to it unchanged: in a session subscribed to [MapL]
    with nothing queued, [publish_json v] (line 95's
    [this.client.publish('MapL', JSON.stringify(v))]) queues exactly the
    text [JSON.stringify(v)] through the broker's echo, and delivering it
    leaves [this.messages] that text and [this.mqttData] = [JSON.parse] of
    it, which is [v] itself, for every value the wire format carries
    ([wire_safe]: no [undefined], numbers that read back, no surrogates,
    distinct keys), whether or not [getLine] then throws. *)
Theorem publish_json_echo_roundtrip (w : world) (v : jsval) :
  RoundTrip.wire_safe v = true -> mq_subscribed topic (client (this w)) = true -> inbox w = [] ->
  exists p w1, Encode.json_stringify v = Some p /\ publish_json v w = Done tt w1 /\ inbox w1 = [p] /\
    mqttData (this (step Deliver w1)) = v /\ messages (this (step Deliver w1)) = JString p.
Proof.
  intros Hv Hs Hq. destruct (RoundTrip.json_parse_stringify v Hv) as (p & Hp & Hr).
  destruct (publish_json_connected v p w Hp (mq_subscribed_connected _ _ Hs)) as (w1 & Hrun & _ & _ & _ & Hin & _).
  rewrite Hs, Hq in Hin. exists p, w1. refine (conj Hp (conj Hrun (conj Hin _))).
  exact (deliver_parsed w1 p [] v Hin Hr).
Qed.

(** C22 (liveness).  Messages are processed in delivery order and none
    is lost (spec.md section 5): in a reachable session whose previous
    point Leaflet accepts, if every queued payload carries a fix the
    tracker records, as many [Deliver] events as there are messages empty
    the queue, keep the connection, leave the tracker in the state the
    spec's [ingestFix] reaches over those fixes in queue order, and draw
    exactly the segments of its transitions, in that order. *)
Theorem deliver_queue_in_order (w : world) (fixes : list (jsval * jsval)) :
  reachable w -> accepted_last (tr (this w)) ->
  List.map payload_fix (inbox w) = List.map Some fixes -> Forall recordable fixes ->
  let w' := run (List.repeat Deliver (List.length fixes)) w in
  inbox w' = [] /\ client (this w') = client (this w) /\
  abs (tr (this w')) = fst (Spec.ingest_all (abs (tr (this w))) (List.map fix_point fixes)) /\
  drawn w' = drawn w ++ List.map drawn_segment (snd (Spec.ingest_all (abs (tr (this w))) (List.map fix_point fixes))).
Proof.
  intros Hr Ha Hq Hf. cbv zeta. revert w Hr Ha Hq. induction Hf as [|f fs Hrf Hfs IH]; intros w Hr Ha Hq.
  - destruct (inbox w) eqn:E; [|discriminate]. cbn. rewrite app_nil_r. auto.
  - destruct (inbox w) as [|p rest] eqn:E; [discriminate|]. injection Hq as Hp Hrest.
    destruct (payload_fix_some _ _ Hp) as (v & Hv & Hla & Hlo). destruct f as [la lo].
    destruct (reachable_inv w Hr) as [_ [Hvt _]].
    destruct (deliver_fix w p rest v la lo Hvt Ha E Hv Hla Hlo Hrf) as (Hpost & Hc & Hq1 & _).
    unfold step_post in Hpost.
    destruct (Spec.ingestFix (abs (tr (this w))) (fix_point (la, lo))) as [s1 t1] eqn:Hi.
    destruct Hpost as (Habs & Hseg & _ & _ & _ & _ & _ & _ & _ & Ha1).
    rewrite <- Hq1 in Hrest.
    destruct (IH (step Deliver w) (reach_step _ _ Hr) Ha1 Hrest) as (Hq' & Hc' & Habs' & Hseg').
    cbn [List.repeat List.length run Spec.ingest_all List.map]. rewrite Hi, <- Habs.
    destruct (Spec.ingest_all (abs (tr (this (step Deliver w)))) (List.map fix_point fs)) as [s2 trs].
    cbn [fst snd] in *. refine (conj Hq' (conj _ (conj Habs' _))); [congruence|].
    unfold drawn in *. rewrite Hseg', Hseg, <- app_assoc. reflexivity.
Qed.


(** C23 (error).  Every delivered message that does not carry a point
    Leaflet accepts costs the connection, in any state of the session:
    when [JSON.parse] rejects the payload, when the value has no fields
    to read, or when its [Latitude]/[Longitude] are not a point Leaflet
    accepts (a field missing, [null], a non-numeric string), the
    exception of [onMessageArrived] reaches paho, which disconnects the
    client and loses the queued messages.  The spec (sections 7 and 8)
    drops such a message with no effect but a decode error. *)
Theorem bad_payload_drops_connection (w : world) (p : string) (rest : list string) :
  inbox w = p :: rest ->
  (payload_fix p = None \/ exists la lo e, payload_fix p = Some (la, lo) /\ next_point (la, lo) = inl e) ->
  let w' := step Deliver w in
  mq_connected (client (this w')) = false /\ mq_connecting (client (this w')) = false /\ inbox w' = [].
Proof.
  intros Hq Hbad. cbv zeta. cbn [step]. rewrite Hq.
  destruct (onMessageArrived_bad_raises p (set_inbox rest w) Hbad) as (e & w' & Hr).
  unfold paho_callback. rewrite Hr. exact (drop_connection_dead w').
Qed.

(** C17 (invariant).  On every page layout, whatever sequence of events
    a session goes through after [ngOnInit], [nowMarker] is still layer 1, the marker [ngOnInit]
    created, with its popup (spec.md section 3: one current-position
    marker, repositioned in place); the client is never connecting and
    connected at once; and messages are queued only while it is
    connected. *)
Theorem session_invariant (lay : popup_pan) (evs : list event) :
  let w := run evs (ngOnInit lay) in
  nowMarker (tr (this w)) = 1 /\ valid_track (tr (this w)) /\
  (mq_connected (client (this w)) = true -> mq_connecting (client (this w)) = false) /\
  (mq_connected (client (this w)) = false -> inbox w = []).
Proof.
  destruct (reachable_inv _ (run_reachable evs _ (reach_init lay))) as [[H1 H2] [H3 H4]].
  cbv zeta. auto.
Qed.

End Session.

(** ** The properties at paho-mqtt

    The session of Transport.v's paho-mqtt model after [connect] and its
    CONNACK: [onSuccess] has subscribed to [MapL]. *)
Abbreviation paho_session := (@connected_session Paho.client paho_client).

Lemma broadcast_echo_drops_connection_witness :
  alive paho_session = true /\ mq_subscribed topic (client (this paho_session)) = true /\
  inbox paho_session = [] /\
  (let w2 := run [ClickSend; Deliver] paho_session in
   let evs := [RemotePublish (fix_text "23.95" "120.93"); Deliver] in
   mq_connected (client (this w2)) = false /\ inbox w2 = [] /\ drawn w2 = drawn paho_session /\
   mq_connected (client (this (run evs w2))) = false /\ drawn (run evs w2) = drawn paho_session).
Proof.
  split; [reflexivity|]. split; [vm_compute; reflexivity|]. split; [reflexivity|].
  apply broadcast_echo_drops_connection; [reflexivity | vm_compute; reflexivity | reflexivity].
Defined.

Lemma ngOnDestroy_keeps_topic_witness :
  alive paho_session = true /\ mq_subscribed topic (client (this paho_session)) = true /\
  (let w' := run [Destroy; RemotePublish (fix_text "23.95" "120.93")] paho_session in
   alive w' = false /\ mq_subscribed topic (client (this w')) = true /\
   inbox w' = inbox paho_session ++ [fix_text "23.95" "120.93"]).
Proof.
  split; [reflexivity|]. split; [vm_compute; reflexivity|].
  apply ngOnDestroy_keeps_topic; [reflexivity | vm_compute; reflexivity].
Defined.

Lemma malformed_payload_drops_connection_witness :
  let w := run [RemotePublish "Latitude: 23.95"] paho_session in
  inbox w = ["Latitude: 23.95"] /\ Json.json_parse "Latitude: 23.95" = inl SyntaxError /\
  (let w' := step Deliver w in
   tr (this w') = tr (this w) /\ mqttData (this w') = mqttData (this w) /\
   messages (this w') = JString "Latitude: 23.95" /\ mq_connected (client (this w')) = false /\ inbox w' = []).
Proof.
  cbv zeta. split; [vm_compute; reflexivity|]. split; [vm_compute; reflexivity|].
  apply (malformed_payload_drops_connection _ _ []); vm_compute; reflexivity.
Defined.

Lemma sendMessage_publishes_demo_points_witness :
  mq_connected (client (this paho_session)) = true /\
  exists w', sendMessage paho_session = Done tt w' /\
    mq_sent (client (this w')) = mq_sent (client (this paho_session)) ++
      [("MapL", demo_text "23.952" "120.9272588" "管理學院");
       ("MapL", demo_text "23.9515477" "120.9292182" "教育學院");
       ("MapL", demo_text "23.9551114" "120.9266221" "科技學院");
       ("MapL", demo_text "23.9506" "120.9297" "人文學院")] /\
    tr (this w') = tr (this paho_session).
Proof.
  split; [reflexivity|]. apply sendMessage_publishes_demo_points. reflexivity.
Defined.


(** The first record of [sendMessage], from the connected session. *)
Lemma publish_json_echo_roundtrip_witness :
  let v := campus 23.952 120.9272588 "管理學院" in
  RoundTrip.wire_safe v = true /\ mq_subscribed topic (client (this paho_session)) = true /\ inbox paho_session = [] /\
  exists p w1, Encode.json_stringify v = Some p /\ publish_json v paho_session = Done tt w1 /\ inbox w1 = [p] /\
    mqttData (this (step Deliver w1)) = v /\ messages (this (step Deliver w1)) = JString p.
Proof.
  cbv zeta.
  assert (Hv : RoundTrip.wire_safe (campus 23.952 120.9272588 "管理學院") = true) by (vm_compute; reflexivity).
  assert (Hs : mq_subscribed topic (client (this paho_session)) = true) by (vm_compute; reflexivity).
  assert (Hq : inbox paho_session = []) by reflexivity.
  split; [exact Hv|]. split; [exact Hs|]. split; [exact Hq|].
  exact (publish_json_echo_roundtrip _ _ Hv Hs Hq).
Defined.

(** Two fixes queued in a connected session. *)
Lemma deliver_queue_in_order_witness :
  let w := run [RemotePublish (fix_text "23.95" "120.93"); RemotePublish (fix_text "23.96" "120.94")] paho_session in
  let fixes := [(JNumber 23.95, JNumber 120.93); (JNumber 23.96, JNumber 120.94)] in
  reachable w /\ accepted_last (tr (this w)) /\
  List.map payload_fix (inbox w) = List.map Some fixes /\ Forall recordable fixes /\
  (let w' := run (List.repeat Deliver (List.length fixes)) w in
   inbox w' = [] /\ client (this w') = client (this w) /\
   abs (tr (this w')) = fst (Spec.ingest_all (abs (tr (this w))) (List.map fix_point fixes)) /\
   drawn w' = drawn w ++ List.map drawn_segment (snd (Spec.ingest_all (abs (tr (this w))) (List.map fix_point fixes)))).
Proof.
  cbv zeta.
  assert (Hr : reachable (run [RemotePublish (fix_text "23.95" "120.93"); RemotePublish (fix_text "23.96" "120.94")] paho_session))
    by (repeat constructor).
  assert (Ha : accepted_last (tr (this (run [RemotePublish (fix_text "23.95" "120.93");
                                              RemotePublish (fix_text "23.96" "120.94")] paho_session))))
    by (eexists; vm_compute; reflexivity).
  assert (Hq : List.map payload_fix (inbox (run [RemotePublish (fix_text "23.95" "120.93");
                                                 RemotePublish (fix_text "23.96" "120.94")] paho_session)) =
               List.map Some [(JNumber 23.95, JNumber 120.93); (JNumber 23.96, JNumber 120.94)])
    by (vm_compute; reflexivity).
  assert (Hf : Forall recordable [(JNumber 23.95, JNumber 120.93); (JNumber 23.96, JNumber 120.94)])
    by (repeat constructor; (eexists; vm_compute; reflexivity) || (vm_compute; reflexivity)).
  split; [exact Hr|]. split; [exact Ha|]. split; [exact Hq|]. split; [exact Hf|].
  exact (deliver_queue_in_order _ _ Hr Ha Hq Hf).
Defined.

(** The spec's example of a malformed payload: a record without
    [Latitude]. *)
Definition no_latitude_payload : string := "{" ++ dq ++ "Longitude" ++ dq ++ ":120.93}".

Lemma bad_payload_drops_connection_witness :
  let w := run [RemotePublish no_latitude_payload] paho_session in
  inbox w = [no_latitude_payload] /\
  (exists la lo e, payload_fix no_latitude_payload = Some (la, lo) /\ next_point (la, lo) = inl e) /\
  (let w' := step Deliver w in
   mq_connected (client (this w')) = false /\ mq_connecting (client (this w')) = false /\ inbox w' = []).
Proof.
  cbv zeta.
  assert (Hq : inbox (run [RemotePublish no_latitude_payload] paho_session) = [no_latitude_payload])
    by (vm_compute; reflexivity).
  assert (Hb : exists la lo e, payload_fix no_latitude_payload = Some (la, lo) /\ next_point (la, lo) = inl e)
    by (exists JUndefined, (JNumber 120.93), InvalidLatLng; split; vm_compute; reflexivity).
  split; [exact Hq|]. split; [exact Hb|].
  exact (bad_payload_drops_connection _ _ [] Hq (or_intror Hb)).
Defined.

(** A session that connects, broadcasts and receives its echo. *)
Lemma session_invariant_witness :
  let w := run [ConnectAck true; ClickSend; Deliver] (@ngOnInit Paho.client paho_client popups_fit) in
  nowMarker (tr (this w)) = 1 /\ valid_track (tr (this w)) /\
  (mq_connected (client (this w)) = true -> mq_connecting (client (this w)) = false) /\
  (mq_connected (client (this w)) = false -> inbox w = []).
Proof. exact (session_invariant popups_fit [ConnectAck true; ClickSend; Deliver]). Defined.

End Component.
