(* ===== verification/Placer.v ===== *)
(** * The Manual Marker Placer: [getMarker], [mqttMarker], [gpsMarker]

    The spec's [placeMarker(point, label)] (section 4.5) creates a new
    marker, independent of the current-position marker, at the point and
    opens its popup at once.  [placed] states that contract on Leaflet's
    map state.  The theorems show that [getMarker] (lines 84-90) and
    [mqttMarker] (lines 102-108) meet it, and that the callback of
    [gpsMarker] (lines 183-191) places a marker with no popup.  What
    [ngOnInit] configures ([this.data], [this.myIcon], Leaflet's default
    icon) never changes in a session ([config_reachable]), which fixes the
    point of [getMarker] and the icon of every marker. *)

From Stdlib Require Import List String Bool ZArith Lia PrimFloat.
From S2P Require Import Prelude JsValue Encoder Transport MapSurface Tracker Component.
Import ListNotations Leaflet Tracker Component.
Set Warnings "-inexact-float".

Module Placer.
Local Open Scope string_scope.
Local Open Scope list_scope.
Local Open Scope exn_monad_scope.

(** The spec's [placeMarker] on Leaflet's map: [m'] is [m] with the marker
    [mk], which has a popup, added as the last layer, and its popup is the
    open one; the zoom is unchanged and the map has panned only as far as
    Leaflet's [autoPan] brings that popup into view (not at all when it
    fits). *)
Definition placed (m : lmap) (mk : marker) (m' : lmap) : Prop :=
  m_popup mk <> None /\ layers m' = layers m ++ [MarkerLayer mk] /\
  popup_on m' = Some (List.length (layers m)) /\ zoom m' = zoom m /\
  center m' = autopan m (center m) (zoom m) mk /\ autopan m' = autopan m.

Section Placer.
Context {C : Type} {MC : MqttClient C} {ML : MqttLaws C}.

(** What [ngOnInit] configures and no handler writes. *)
Definition config (w : @world C) : jsval * icon * icon := (data (this w), myIcon (this w), default_icon w).

Definition keeps_config {A} (c : M exn (@world C) A) : Prop := forall K, preserves (fun w => config w = K) c.

Ltac config_leaf :=
  first
    [ apply preserves_modify_this
    | apply preserves_on_track
    | apply preserves_on_map
    | apply preserves_on_client
    | apply preserves_modify ];
  intros; assumption.

Lemma keeps_config_final {A} (c : M exn (@world C) A) w : keeps_config c -> config (final_state (c w)) = config w.
Proof. intros H. exact (H (config w) w eq_refl). Qed.

Lemma publish_config t p : keeps_config (publish t p).
Proof.
  intros K w Hw. rewrite publish_run.
  destruct (mq_publish t p _) as [e|k]; [exact Hw|]. destruct (mq_subscribed t k); exact Hw.
Qed.

Lemma handlers_config :
  keeps_config onSuccess /\ (forall p, keeps_config (onMessageArrived p)) /\ keeps_config getMarker /\
  keeps_config sendMessage /\ (forall d, keeps_config (mqttMarker d)) /\ keeps_config gpsMarker /\
  (forall la lo, keeps_config (gpsMarker_callback la lo)) /\ keeps_config ngOnDestroy.
Proof.
  refine (conj _ (conj _ (conj _ (conj _ (conj _ (conj _ (conj _ _)))))));
    repeat lazymatch goal with |- forall _, _ => intro end; intros K;
    unfold onSuccess, onMessageArrived, getMarker, sendMessage, publish_json, mqttMarker, gpsMarker,
      gpsMarker_callback, ngOnDestroy;
    preserve; first [apply publish_config | config_leaf].
Qed.

Lemma paho_callback_config c (w : @world C) : keeps_config c -> config (paho_callback c w) = config w.
Proof. intros H. pose proof (keeps_config_final c w H) as E. unfold paho_callback. destruct (c w); exact E. Qed.

Lemma ui_handler_config c (w : @world C) : keeps_config c -> config (ui_handler c w) = config w.
Proof. intros H. unfold ui_handler. destruct (alive w); [apply keeps_config_final, H | reflexivity]. Qed.

(** No event changes the configuration. *)
Lemma step_config ev (w : @world C) : config (step ev w) = config w.
Proof.
  destruct handlers_config as (H1 & H2 & H3 & H4 & H5 & H6 & H7 & H8).
  destruct ev as [ok|p| | | | |la lo| | |]; cbn [step].
  - destruct (mq_connecting _); [destruct ok; rewrite ?paho_callback_config by exact H1|]; reflexivity.
  - destruct (mq_subscribed _ _); reflexivity.
  - destruct (inbox w); [reflexivity|]. rewrite paho_callback_config by apply H2. reflexivity.
  - apply ui_handler_config, H4.
  - apply ui_handler_config, H3.
  - apply ui_handler_config, H6.
  - destruct (gps_pending w); [reflexivity|]. rewrite keeps_config_final by apply H7. reflexivity.
  - destruct (gps_pending w); reflexivity.
  - destruct (alive w); [exact (keeps_config_final _ _ H8) | reflexivity].
  - destruct (mq_connected _); reflexivity.
Qed.

(** In every session, [this.data] is the campus centre and both the
    component's icon and Leaflet's default icon are [myIcon]. *)
Lemma config_reachable (w : @world C) : reachable w -> config w = (campus_center, MyIcon, MyIcon).
Proof. induction 1 as [|ev w _ IH]; [reflexivity|]. rewrite step_config. exact IH. Qed.

(** ** Running the handlers *)

(** [nowMarker] is one of the layers already on the map. *)
Lemma now_marker_layer (w : @world C) :
  reachable w -> nowMarker (tr (this w)) < List.length (layers (map (tr (this w)))).
Proof.
  intros Hr. destruct (reachable_inv w Hr) as [_ [(mk & Hm & _) _]]. exact (marker_at_lt _ _ _ Hm).
Qed.

(** ** Properties *)

(** C19 (refinement).  [getMarker] implements the spec's [placeMarker]
    (section 4.5): in every live session, the click adds one marker at
    [this.data], the campus centre, with the title and icon of line 86
    and the popup of line 88, after every existing layer (so it is not the
    current-position marker), and opens that popup; the zoom stays, the
    centre moves only as Leaflet's [autoPan] brings the popup into view
    (on every page layout), and the tracker's other fields, the client
    and the queue are unchanged. *)
Theorem getMarker_refines_placeMarker (w : @world C) :
  reachable w -> alive w = true ->
  let w' := step ClickMarker w in
  placed (map (tr (this w))) campus_marker (map (tr (this w'))) /\
  nowMarker (tr (this w)) < List.length (layers (map (tr (this w)))) /\
  tr (this w') = set_map (map (tr (this w'))) (tr (this w)) /\
  client (this w') = client (this w) /\ inbox w' = inbox w.
Proof.
  intros Hr Ha. cbv zeta. cbn [step]. unfold ui_handler.
  injection (config_reachable w Hr) as Hd Hi _. rewrite Ha, getMarker_run by assumption.
  split; [|split; [exact (now_marker_layer w Hr)|]]; cbn; repeat split; discriminate.
Qed.

(** A marker added without a popup is not a placement in the spec's
    sense. *)
Lemma bare_marker_not_placed m m' mk0 :
  m_popup mk0 = None -> layers m' = layers m ++ [MarkerLayer mk0] -> forall mk, ~ placed m mk m'.
Proof.
  intros Hn Hl mk (Hp & Hl' & _). rewrite Hl in Hl'. apply app_inj_tail in Hl' as [_ Hm].
  injection Hm as ->. exact (Hp Hn).
Qed.

(** C20 (functional).  When a geolocation lookup answers with
    coordinates Leaflet accepts, the callback of [gpsMarker] adds one
    marker at them after every existing layer, with no title and with
    Leaflet's default icon, which is [myIcon] through the prototype
    assignment of [ngOnInit] (line 76); the marker has no popup and none
    is opened, the popup that was open stays open: no marker is
    [placed] the way the spec's [placeMarker] places one, opening the new
    marker's popup at once. *)
Theorem gpsAnswer_places_bare_marker (w : @world C) (la lo : float) :
  reachable w -> gps_pending w <> 0 -> is_nan la = false -> is_nan lo = false ->
  let w' := step (GpsAnswer la lo) w in
  layers (map (tr (this w'))) = layers (map (tr (this w))) ++ [MarkerLayer (Marker (LatLng la lo) None MyIcon None)] /\
  popup_on (map (tr (this w'))) = popup_on (map (tr (this w))) /\
  gps_pending w' = pred (gps_pending w) /\ client (this w') = client (this w) /\
  (forall mk, ~ placed (map (tr (this w))) mk (map (tr (this w')))).
Proof.
  intros Hr Hp Hla Hlo. injection (config_reachable w Hr) as _ _ Hi.
  cbv zeta. cbn [step]. destruct (gps_pending w) as [|n] eqn:En; [contradiction|].
  unfold gpsMarker_callback. rewrite bind_get. cbv beta. cbn [default_icon set_gps]. rewrite Hi.
  rewrite new_marker_numbers by assumption. rewrite (run_bind_done _ _ _ _ _ (lift_sum_inr _ _)).
  rewrite (run_bind_done _ _ _ _ _ (on_map_run _ _)). cbn.
  refine (conj eq_refl (conj eq_refl (conj eq_refl (conj eq_refl _)))).
  apply (bare_marker_not_placed _ _ (Marker (LatLng la lo) None MyIcon None) eq_refl). reflexivity.
Qed.

(** C21 (refinement).  [mqttMarker(data)] on [[a, b, c]] whose [Number(a)]
    and [Number(b)] Leaflet accepts implements [placeMarker]: one marker at
    [(Number(a), Number(b))] with [this.myIcon] and title '座標', after
    every existing layer, with the popup ["<h3>" + c + "</h3>"], opened,
    the map panned only as [autoPan] requires for it.  The label is ECMAScript's [String(c)] put into the popup's HTML as it
    is, without escaping. *)
Theorem mqttMarker_refines_placeMarker (w : @world C) (a b c : jsval) :
  is_nan (to_number a) = false -> is_nan (to_number b) = false ->
  exists w', mqttMarker (JArray [a; b; c]) w = Done tt w' /\
    placed (map (tr (this w)))
      (Marker (LatLng (to_number a) (to_number b)) (Some "座標") (myIcon (this w))
              (Some (PopupHtml ("<h3>" ++ Encode.to_js_string c ++ "</h3>"))))
      (map (tr (this w'))) /\
    tr (this w') = set_map (map (tr (this w'))) (tr (this w)) /\
    client (this w') = client (this w) /\ inbox w' = inbox w.
Proof.
  intros Ha Hb. unfold mqttMarker. cbn [get_index nth].
  rewrite (run_bind_done _ _ _ _ _ (lift_opt_some _ a w)), (run_bind_done _ _ _ _ _ (lift_opt_some _ b w)).
  rewrite bind_get. cbv beta. rewrite new_marker_numbers by assumption.
  rewrite (run_bind_done _ _ _ _ _ (lift_sum_inr _ w)), (run_bind_done _ _ _ _ _ (on_map_run _ w)).
  cbn [snd]. rewrite (run_bind_done _ _ _ _ _ (lift_opt_some _ c _)).
  rewrite (run_bind_done _ _ _ _ _ (on_map_run _ _)), on_map_run.
  eexists; split; [reflexivity|]. cbn [this set_this tr set_tr map set_map fst].
  rewrite !add_layer_handle, place_marker_map. cbn. repeat split; discriminate.
Qed.

End Placer.

(** ** The properties at paho-mqtt, from the connected session *)

Lemma getMarker_refines_placeMarker_witness :
  reachable paho_session /\ alive paho_session = true /\
  (let w' := step ClickMarker paho_session in
   placed (map (tr (this paho_session))) campus_marker (map (tr (this w'))) /\
   nowMarker (tr (this paho_session)) < List.length (layers (map (tr (this paho_session)))) /\
   tr (this w') = set_map (map (tr (this w'))) (tr (this paho_session)) /\
   client (this w') = client (this paho_session) /\ inbox w' = inbox paho_session).
Proof.
  assert (Hr : reachable paho_session) by (repeat constructor).
  split; [exact Hr|]. split; [reflexivity|]. exact (getMarker_refines_placeMarker _ Hr eq_refl).
Defined.

Lemma gpsAnswer_places_bare_marker_witness :
  let w := run [ClickGps] paho_session in
  reachable w /\ gps_pending w <> 0 /\ is_nan 23.95 = false /\ is_nan 120.93 = false /\
  (let w' := step (GpsAnswer 23.95 120.93) w in
   layers (map (tr (this w'))) =
     layers (map (tr (this w))) ++ [MarkerLayer (Marker (LatLng 23.95 120.93) None MyIcon None)] /\
   popup_on (map (tr (this w'))) = popup_on (map (tr (this w))) /\
   gps_pending w' = pred (gps_pending w) /\ client (this w') = client (this w) /\
   (forall mk, ~ placed (map (tr (this w))) mk (map (tr (this w'))))).
Proof.
  cbv zeta.
  assert (Hr : reachable (run [ClickGps] paho_session)) by (repeat constructor).
  assert (Hp : gps_pending (run [ClickGps] paho_session) <> 0) by (vm_compute; congruence).
  split; [exact Hr|]. split; [exact Hp|]. split; [reflexivity|]. split; [reflexivity|].
  exact (gpsAnswer_places_bare_marker _ 23.95 120.93 Hr Hp eq_refl eq_refl).
Defined.

(** A label with markup: it reaches the popup's HTML as it is. *)
Lemma mqttMarker_refines_placeMarker_witness :
  is_nan (to_number (JNumber 23.95)) = false /\ is_nan (to_number (JString "120.93")) = false /\
  exists w', mqttMarker (JArray [JNumber 23.95; JString "120.93"; JString "<img src=x onerror=alert(1)>"]) paho_session = Done tt w' /\
    placed (map (tr (this paho_session)))
      (Marker (LatLng (to_number (JNumber 23.95)) (to_number (JString "120.93"))) (Some "座標") (myIcon (this paho_session))
              (Some (PopupHtml ("<h3>" ++ Encode.to_js_string (JString "<img src=x onerror=alert(1)>") ++ "</h3>"))))
      (map (tr (this w'))) /\
    tr (this w') = set_map (map (tr (this w'))) (tr (this paho_session)) /\
    client (this w') = client (this paho_session) /\ inbox w' = inbox paho_session.
Proof.
  assert (Ha : is_nan (to_number (JNumber 23.95)) = false) by reflexivity.
  assert (Hb : is_nan (to_number (JString "120.93")) = false) by (vm_compute; reflexivity).
  split; [exact Ha|]. split; [exact Hb|]. exact (mqttMarker_refines_placeMarker _ _ _ _ Ha Hb).
Defined.

End Placer.
