(* ===== verification/Lifecycle.v ===== *)
(** * The connection lifecycle of a session

    The spec (sections 5 and 7) describes the connection the component
    holds: it is being established after start-up, it is up when the
    broker accepted it, and a failure is only logged: there is no retry
    and no reconnection.  [lifecycle] is that description as a step
    relation on three phases; [phase_of] reads the phase off the client of
    a session ([mq_connected], [mq_connecting]) and [link_of] adds whether
    the broker delivers [MapL] to it.  The theorems show that every event
    of the session ([Component.step]) is a step of [lifecycle]: a
    connection that is up ends exactly when the network or the broker
    ends it or when a delivered message's handler throws, and an online
    session is subscribed to [MapL] ([onSuccess] subscribes, nothing
    unsubscribes it); that a session that has gone [Offline] stays offline
    and never draws again; that the broadcast button does nothing while
    the connection is not up; and that tearing the view down before the
    broker's answer leaves a subscription behind. *)

From Stdlib Require Import List String Bool.
From S2P Require Import Prelude JsValue Transport MapSurface Tracker Component.
Import ListNotations Leaflet Tracker Component.

Module Lifecycle.

Inductive phase : Type := Connecting | Online | Offline.

(** The lifecycle: the answer to [connect] decides between [Online] and
    [Offline]; nothing else happens to a pending connection; a connection
    that is up is ended by the network or the broker ([ConnectionLost])
    and may be ended by the delivery of a message; every other event keeps
    it up; [Offline] is final (spec section 7: no retry, no reconnection).
    The teardown is an event like the others: [ngOnDestroy] only
    unsubscribes, so the connection stays up after it (C13), where the
    spec's section 9 asks for a teardown that also closes it. *)
Inductive lifecycle : phase -> event -> phase -> Prop :=
| lc_connected : lifecycle Connecting (ConnectAck true) Online
| lc_failed : lifecycle Connecting (ConnectAck false) Offline
| lc_pending ev : (forall ok, ev <> ConnectAck ok) -> lifecycle Connecting ev Connecting
| lc_online ev : ev <> Deliver -> ev <> ConnectionLost -> lifecycle Online ev Online
| lc_delivered : lifecycle Online Deliver Online
| lc_dropped : lifecycle Online Deliver Offline
| lc_lost : lifecycle Online ConnectionLost Offline
| lc_offline ev : lifecycle Offline ev Offline.

Section Lifecycle.
Context {C : Type} {MC : MqttClient C} {ML : MqttLaws C}.

Definition client_phase (c : C) : phase :=
  if mq_connected c then Online else if mq_connecting c then Connecting else Offline.

Definition phase_of (w : @world C) : phase := client_phase (client (this w)).

(** What the session's client shows the lifecycle: its phase and whether
    the broker delivers [MapL] to it. *)
Definition link_of (w : @world C) : phase * bool := (phase_of w, mq_subscribed topic (client (this w))).

Definition keeps_link {A} (c : M exn (@world C) A) : Prop := forall K, preserves (fun w => link_of w = K) c.

Lemma keeps_link_final {A} (c : M exn (@world C) A) w : keeps_link c -> link_of (final_state (c w)) = link_of w.
Proof. intros H. exact (H (link_of w) w eq_refl). Qed.

Lemma link_phase w w' : link_of w' = link_of w -> phase_of w' = phase_of w.
Proof. intros E. exact (f_equal fst E). Qed.

Lemma keeps_phase_final {A} (c : M exn (@world C) A) w : keeps_link c -> phase_of (final_state (c w)) = phase_of w.
Proof. intros H. exact (link_phase _ _ (keeps_link_final c w H)). Qed.

(** A call that needs the connection and keeps it leaves the phase. *)
Lemma conn_step_phase c k : conn_step c k -> client_phase k = client_phase c.
Proof. intros (H1 & H2 & _). unfold client_phase. rewrite H1, H2. reflexivity. Qed.

Lemma on_client_link f :
  (forall c k, f c = inr k -> conn_step c k /\ mq_subscribed topic k = mq_subscribed topic c) ->
  keeps_link (on_client f).
Proof.
  intros Hf K. apply preserves_on_client. intros w k Hw E. rewrite <- Hw.
  destruct (Hf _ _ E) as [Hs Ht]. unfold link_of, phase_of. cbn. rewrite (conn_step_phase _ _ Hs), Ht. reflexivity.
Qed.

Lemma publish_link t p : keeps_link (publish t p).
Proof.
  intros K w Hw. rewrite publish_run. destruct (mq_publish t p _) as [e|k] eqn:E; [exact Hw|].
  rewrite <- Hw. destruct (mq_publish_inr _ _ _ _ E) as (Hs & Hsub & _).
  unfold link_of, phase_of. destruct (mq_subscribed t k); cbn; rewrite (conn_step_phase _ _ Hs), Hsub; reflexivity.
Qed.

(** Every handler but [onSuccess] leaves the link as it is. *)
Lemma handlers_link :
  keeps_link sendMessage /\ keeps_link ngOnDestroy /\
  (forall p, keeps_link (onMessageArrived p)) /\ keeps_link getMarker /\ keeps_link gpsMarker /\
  (forall la lo, keeps_link (gpsMarker_callback la lo)).
Proof.
  refine (conj _ (conj _ _)).
  - intros K. unfold sendMessage, publish_json. preserve; apply publish_link.
  - apply on_client_link. intros c k E. destruct (mq_unsubscribe_inr _ _ _ E) as [Hs Hu].
    split; [exact Hs | apply Hu; unfold topic; discriminate].
  - pose (T := fun K => track_handlers_conn (fun c (_ : list string) => (client_phase c, mq_subscribed topic c) = K)).
    refine (conj (fun p K => proj1 (T K) p) (conj (fun K => proj1 (proj2 (T K)))
              (conj _ (fun la lo K => proj2 (proj2 (proj2 (T K))) la lo)))).
    intros K. apply preserves_modify. intros w Hw. exact Hw.
Qed.

Lemma ui_handler_link c w : keeps_link c -> link_of (ui_handler c w) = link_of w.
Proof. intros H. unfold ui_handler. destruct (alive w); [apply keeps_link_final, H | reflexivity]. Qed.

Lemma phase_set_client k (w : @world C) : phase_of (set_this (set_client k (this w)) w) = client_phase k.
Proof. reflexivity. Qed.

(** [onSuccess] on a connected client subscribes to [MapL] and completes. *)
Lemma onSuccess_connected (w : @world C) :
  mq_connected (client (this w)) = true ->
  exists k, onSuccess w = Done tt (set_this (set_client k (this w)) w) /\ conn_step (client (this w)) k /\
    mq_subscribed topic k = true.
Proof.
  intros Hc. destruct (mq_subscribe_online topic _ Hc) as (k & Ek & Hs & _).
  exists k. split; [|exact (conj (proj1 (mq_subscribe_inr _ _ _ Ek)) Hs)].
  unfold onSuccess, on_client, modify_this. rewrite bind_get. cbv beta. rewrite Ek. reflexivity.
Qed.

(** paho's [_disconnected] ends the connection. *)
Lemma drop_connection_offline (w : @world C) : phase_of (drop_connection w) = Offline.
Proof.
  destruct (drop_connection_dead w) as (H1 & H2 & _). unfold phase_of, client_phase. rewrite H1, H2. reflexivity.
Qed.

(** An online client of a session is subscribed to [MapL]. *)
Definition online_subscribed (w : @world C) : Prop :=
  phase_of w = Online -> mq_subscribed topic (client (this w)) = true.

Lemma online_subscribed_link w w' : link_of w' = link_of w -> online_subscribed w -> online_subscribed w'.
Proof. unfold online_subscribed, link_of. intros E. injection E as -> ->. auto. Qed.

Lemma offline_subscribed w : phase_of w = Offline -> online_subscribed w.
Proof. unfold online_subscribed. congruence. Qed.

(** What one event does to the link of a reachable session: the
    lifecycle step, and a session that is online is subscribed. *)
Lemma step_link (w : @world C) ev :
  world_inv w -> online_subscribed w ->
  lifecycle (phase_of w) ev (phase_of (step ev w)) /\ online_subscribed (step ev w).
Proof.
  intros [[Hc1 Hc2] _] Hsub. destruct handlers_link as (L1 & L2 & L3 & L4 & L5 & L6).
  assert (Keep : forall w', link_of w' = link_of w -> (forall ok, ev <> ConnectAck ok) -> ev <> Deliver ->
            ev <> ConnectionLost -> lifecycle (phase_of w) ev (phase_of w') /\ online_subscribed w').
  { intros w' E Hn Hd Hl. split; [|exact (online_subscribed_link _ _ E Hsub)].
    rewrite (link_phase _ _ E). destruct (phase_of w); constructor; assumption. }
  destruct ev as [ok|p| | | | |la lo| | |]; cbn [step];
    try (apply Keep; [| intros ?ok; discriminate | discriminate | discriminate]).
  - destruct (mq_connecting (client (this w))) eqn:Ec.
    + assert (Hoff : mq_connected (client (this w)) = false)
        by (destruct (mq_connected _) eqn:E; [discriminate (Hc1 eq_refl) | reflexivity]).
      replace (phase_of w) with Connecting by (unfold phase_of, client_phase; rewrite Hoff, Ec; reflexivity).
      destruct (mq_connect_done_state ok (client (this w))) as [Hn Hon]. destruct ok.
      * destruct (onSuccess_connected (set_this (set_client (mq_connect_done true (client (this w))) (this w)) w) Hon)
          as (k & Hk & Hs & Hsk). unfold paho_callback. rewrite Hk, phase_set_client.
        rewrite (conn_step_phase _ _ Hs). unfold client_phase. cbn [this set_this client set_client].
        rewrite Hon. split; [constructor | intros _; exact Hsk].
      * rewrite phase_set_client. unfold client_phase. rewrite Hon, Hn.
        split; [constructor | apply offline_subscribed; unfold phase_of, client_phase; cbn; rewrite Hon, Hn; reflexivity].
    + unfold phase_of, client_phase. rewrite Ec. split; [destruct (mq_connected _); constructor; discriminate | exact Hsub].
  - destruct (mq_subscribed topic _); reflexivity.
  - destruct (inbox w) as [|p rest] eqn:Eq.
    { split; [|exact Hsub]. destruct (phase_of w); [apply lc_pending; discriminate | apply lc_delivered | apply lc_offline]. }
    assert (Hon : mq_connected (client (this w)) = true)
      by (destruct (mq_connected _) eqn:E; [reflexivity | discriminate (Hc2 eq_refl)]).
    replace (phase_of w) with Online by (unfold phase_of, client_phase; rewrite Hon; reflexivity).
    pose proof (keeps_link_final _ (set_inbox rest w) (L3 p)) as Hl.
    unfold paho_callback. destruct (onMessageArrived p (set_inbox rest w)) as [u w'|e w'].
    + cbn [final_state] in Hl. split; [|exact (online_subscribed_link _ _ Hl Hsub)].
      rewrite (link_phase _ _ Hl). replace (phase_of (set_inbox rest w)) with Online
        by (unfold phase_of, client_phase; cbn; rewrite Hon; reflexivity). apply lc_delivered.
    + rewrite drop_connection_offline. split; [apply lc_dropped | apply offline_subscribed, drop_connection_offline].
  - apply ui_handler_link, L1.
  - apply ui_handler_link, L4.
  - apply ui_handler_link, L5.
  - destruct (gps_pending w) as [|n]; [reflexivity|]. exact (keeps_link_final _ (set_gps n w) (L6 la lo)).
  - destruct (gps_pending w); reflexivity.
  - destruct (alive w); [apply keeps_link_final, L2 | reflexivity].
  - destruct (mq_connected (client (this w))) eqn:Hon.
    + replace (phase_of w) with Online by (unfold phase_of, client_phase; rewrite Hon; reflexivity).
      rewrite drop_connection_offline. split; [apply lc_lost | apply offline_subscribed, drop_connection_offline].
    + split; [|exact Hsub]. unfold phase_of, client_phase. rewrite Hon.
      destruct (mq_connecting _); [apply lc_pending; intros ?ok; discriminate | apply lc_offline].
Qed.

Lemma reachable_online_subscribed (w : @world C) : reachable w -> online_subscribed w.
Proof.
  induction 1 as [lay|ev w Hr IH].
  - intros Hp. unfold phase_of, client_phase in Hp. cbn in Hp.
    rewrite (proj2 (mq_connect_pending _)), (proj1 (mq_connect_pending _)) in Hp. discriminate.
  - exact (proj2 (step_link w ev (reachable_inv w Hr) IH)).
Qed.

(** C24 (refinement).  Every event of a reachable session is a step of
    the spec's connection lifecycle: the answer to [connect] takes a
    pending connection [Online] or [Offline]; nothing else touches a
    pending connection; a connection that is up goes [Offline] when the
    network or the broker ends it, and otherwise only on the delivery of
    a message whose [onMessageArrived] throws; every other event keeps it
    up; an [Offline] session never comes back.  Being [Online] means
    being subscribed to [MapL]: the successful answer runs [onSuccess],
    which subscribes, and no later handler unsubscribes it. *)
Theorem step_refines_lifecycle (w : @world C) (ev : event) :
  reachable w ->
  lifecycle (phase_of w) ev (phase_of (step ev w)) /\
  (phase_of (step ev w) = Online -> mq_subscribed topic (client (this (step ev w))) = true) /\
  (ev = Deliver -> phase_of w = Online -> phase_of (step ev w) = Offline ->
   exists p rest e w', inbox w = p :: rest /\ onMessageArrived p (set_inbox rest w) = Raised e w').
Proof.
  intros Hr. destruct (step_link w ev (reachable_inv w Hr) (reachable_online_subscribed w Hr)) as [Hl Hs].
  refine (conj Hl (conj Hs _)). intros -> Hon Hoff. cbn [step] in Hoff |- *.
  destruct (inbox w) as [|p rest]; [congruence|].
  unfold paho_callback in Hoff. destruct (onMessageArrived p (set_inbox rest w)) as [u w'|e w'] eqn:E;
    [|exists p, rest, e, w'; split; [reflexivity | exact E]].
  pose proof (keeps_phase_final _ (set_inbox rest w) (proj1 (proj2 (proj2 handlers_link)) p)) as Hp.
  rewrite E in Hp. cbn [final_state] in Hp. unfold phase_of in Hp, Hon, Hoff. cbn in Hp. congruence.
Qed.

(** C25 (safety).  A lost connection ends the session: in a reachable
    session whose client is [Offline] (the connection failed, the network
    or the broker ended it, or a delivered message made paho drop it),
    whatever events follow, the
    client stays offline (the component never reconnects, so the spec's
    "until a new successful connection" never comes) and no segment is
    ever drawn again. *)
Theorem offline_is_final (w : @world C) (evs : list event) :
  reachable w -> phase_of w = Offline ->
  phase_of (run evs w) = Offline /\ drawn (run evs w) = drawn w.
Proof.
  intros Hr Hp. destruct (reachable_inv w Hr) as [[_ Hc2] _].
  unfold phase_of, client_phase in Hp.
  destruct (mq_connected _) eqn:Hc; [discriminate|]. destruct (mq_connecting _) eqn:Hn; [discriminate|].
  destruct (run_frozen (drawn w) evs w) as [(H1 & H2 & _) Hd]; [split; [repeat split; auto | reflexivity]|].
  split; [unfold phase_of, client_phase; rewrite H1, H2; reflexivity | exact Hd].
Qed.

(** C30 (error, spec.md sections 4.4 and 7).  A publish failure is only
    reported: while the connection is not up (still [Connecting], or
    [Offline] after a failure or a drop), pressing the broadcast button
    makes [sendMessage]'s first [publish] throw paho's "not connected"
    error, which Angular's [ErrorHandler] takes; nothing is published, no
    later publish of the handler runs, and the whole session (component,
    client, broker queue) is as it was. *)
Theorem send_while_offline_changes_nothing (w : @world C) :
  phase_of w <> Online -> step ClickSend w = w.
Proof.
  intros Hp. assert (Hc : mq_connected (client (this w)) = false)
    by (unfold phase_of, client_phase in Hp; destruct (mq_connected _); [congruence | reflexivity]).
  cbn [step]. unfold ui_handler. destruct (alive w); [|reflexivity].
  rewrite sendMessage_disconnected by exact Hc. reflexivity.
Qed.

(** C34 (safety, ordering of teardown and connection).  Tearing the view
    down before the broker has answered does not stop the session: in a
    session whose connection is pending, [ngOnDestroy]'s [unsubscribe]
    throws (the client is not connected yet) and Angular destroys the
    view; when the broker then accepts the connection, [onSuccess], which
    does not check that the view still exists, subscribes to [MapL]: the
    destroyed component ends up online and subscribed, its tracker fields
    as they were, so every later fix is delivered to it. *)
Theorem destroy_before_connack_subscribes (w : @world C) :
  phase_of w = Connecting -> alive w = true ->
  alive (run [Destroy; ConnectAck true] w) = false /\
  phase_of (run [Destroy; ConnectAck true] w) = Online /\
  mq_subscribed topic (client (this (run [Destroy; ConnectAck true] w))) = true /\
  tr (this (run [Destroy; ConnectAck true] w)) = tr (this w).
Proof.
  intros Hp Ha. unfold phase_of, client_phase in Hp.
  destruct (mq_connected _) eqn:Hc; [discriminate|]. destruct (mq_connecting _) eqn:Hn; [|discriminate].
  cbn [run step]. rewrite Ha. unfold ngOnDestroy. rewrite on_client_final, mq_unsubscribe_offline by exact Hc.
  cbn [set_alive this client]. rewrite Hn.
  destruct (mq_connect_done_state true (client (this w))) as [_ Hon].
  match goal with |- context [paho_callback onSuccess ?w1] =>
    destruct (onSuccess_connected w1 Hon) as (k & Hk & (_ & Hk1 & _) & Hsub) end.
  unfold paho_callback. rewrite Hk. unfold phase_of, client_phase. cbn. rewrite Hk1. auto.
Qed.

End Lifecycle.

(** ** The properties at paho-mqtt *)

Lemma step_refines_lifecycle_witness :
  reachable paho_session /\
  lifecycle (phase_of paho_session) ConnectionLost (phase_of (step ConnectionLost paho_session)) /\
  (phase_of (step ConnectionLost paho_session) = Online ->
   mq_subscribed topic (client (this (step ConnectionLost paho_session))) = true) /\
  (ConnectionLost = Deliver -> phase_of paho_session = Online -> phase_of (step ConnectionLost paho_session) = Offline ->
   exists p rest e w', inbox paho_session = p :: rest /\ onMessageArrived p (set_inbox rest paho_session) = Raised e w').
Proof.
  assert (Hr : reachable paho_session) by (repeat constructor).
  split; [exact Hr|]. exact (step_refines_lifecycle _ ConnectionLost Hr).
Defined.

(** A session whose connection attempt failed. *)
Lemma offline_is_final_witness :
  let w := step (ConnectAck false) (@ngOnInit Paho.client paho_client popups_fit) in
  let evs := [ConnectAck true; RemotePublish (fix_text "23.95" "120.93"); Deliver; ClickSend] in
  reachable w /\ phase_of w = Offline /\
  phase_of (run evs w) = Offline /\ drawn (run evs w) = drawn w.
Proof.
  cbv zeta.
  assert (Hr : reachable (step (ConnectAck false) (@ngOnInit Paho.client paho_client popups_fit))) by (repeat constructor).
  assert (Hp : phase_of (step (ConnectAck false) (@ngOnInit Paho.client paho_client popups_fit)) = Offline)
    by (vm_compute; reflexivity).
  split; [exact Hr|]. split; [exact Hp|]. exact (offline_is_final _ _ Hr Hp).
Defined.

(** Before the broker answers [connect]. *)
Lemma send_while_offline_changes_nothing_witness :
  phase_of (@ngOnInit Paho.client paho_client popups_fit) <> Online /\
  step ClickSend (@ngOnInit Paho.client paho_client popups_fit) = @ngOnInit Paho.client paho_client popups_fit.
Proof.
  assert (Hp : phase_of (@ngOnInit Paho.client paho_client popups_fit) <> Online) by (vm_compute; discriminate).
  split; [exact Hp|]. exact (send_while_offline_changes_nothing _ Hp).
Defined.

(** The view destroyed right after start-up, before the broker's answer. *)
Lemma destroy_before_connack_subscribes_witness :
  phase_of (@ngOnInit Paho.client paho_client popups_fit) = Connecting /\ alive (@ngOnInit Paho.client paho_client popups_fit) = true /\
  alive (run [Destroy; ConnectAck true] (@ngOnInit Paho.client paho_client popups_fit)) = false /\
  phase_of (run [Destroy; ConnectAck true] (@ngOnInit Paho.client paho_client popups_fit)) = Online /\
  mq_subscribed topic (client (this (run [Destroy; ConnectAck true] (@ngOnInit Paho.client paho_client popups_fit)))) = true /\
  tr (this (run [Destroy; ConnectAck true] (@ngOnInit Paho.client paho_client popups_fit))) =
    tr (this (@ngOnInit Paho.client paho_client popups_fit)).
Proof.
  assert (Hp : phase_of (@ngOnInit Paho.client paho_client popups_fit) = Connecting) by (vm_compute; reflexivity).
  assert (Ha : alive (@ngOnInit Paho.client paho_client popups_fit) = true) by reflexivity.
  split; [exact Hp|]. split; [exact Ha|]. exact (destroy_before_connack_subscribes _ Hp Ha).
Defined.

End Lifecycle.
