(* ===== verification/Delivery.v ===== *)
(** * A delivered message, from the broker to the map

    The composition of the components on the ingest path: paho hands a
    queued payload to [onMessageArrived] ([Component.step Deliver]),
    [JSON.parse] decodes it ([Decoder]), [getLine] runs the tracker step
    ([Tracker]) and draws through the map surface ([Renderer]).  The
    spec's decoder (section 4.1, [decode]) is stated here: a record whose
    [Latitude] and [Longitude] are numbers, anything else a
    [MalformedPayload].  The theorems show that a delivered fix is the
    spec's tracker step rendered by the spec's renderer, and that the code
    records fixes whose coordinates the spec's decoder rejects. *)

From Stdlib Require Import List String Bool ZArith PrimFloat.
From S2P Require Import Prelude JsValue Decoder Transport MapSurface Tracker Renderer Component.
Import ListNotations Leaflet Tracker Renderer Component.
Set Warnings "-inexact-float".

Module Delivery.
Local Open Scope string_scope.

(** ** The spec's decoder (spec.md section 4.1) *)

Inductive decode_error : Type := MalformedPayload.

(** [decode(rawPayload)]: the record's numeric [Latitude] and
    [Longitude], or [MalformedPayload] when the payload does not parse or
    a field is absent or not a number. *)
Definition decode (p : string) : decode_error + Spec.point :=
  match Json.json_parse p with
  | inr v =>
      match get_field v "Latitude", get_field v "Longitude" with
      | Some (JNumber x), Some (JNumber y) => inr (x, y)
      | _, _ => inl MalformedPayload
      end
  | inl _ => inl MalformedPayload
  end.

(** A fix whose coordinates are JSON strings, as some senders write them. *)
Definition string_fix_payload : string := fix_text (dq ++ "23.95" ++ dq) (dq ++ "120.93" ++ dq).

Lemma string_fix_payload_fix : payload_fix string_fix_payload = Some (JString "23.95", JString "120.93").
Proof. vm_compute. reflexivity. Qed.

Lemma string_fix_recordable : recordable (JString "23.95", JString "120.93").
Proof. split; [eexists; vm_compute; reflexivity | vm_compute; reflexivity]. Qed.

Lemma string_fix_point : fix_point (JString "23.95", JString "120.93") = (23.95%float, 120.93%float).
Proof. vm_compute. reflexivity. Qed.

Section Delivery.
Context {C : Type} {MC : MqttClient C} {ML : MqttLaws C}.

(** Delivering a payload whose fix [getLine] handles to completion: the
    tracker's fields become the ones [getLine] leaves, the connection
    stays and the message is consumed. *)
Lemma deliver_getLine_done (w : @world C) p rest f t1 :
  inbox w = p :: rest -> payload_fix p = Some f -> getLine (fst f) (snd f) (tr (this w)) = Done tt t1 ->
  tr (this (step Deliver w)) = t1 /\ client (this (step Deliver w)) = client (this w) /\
  inbox (step Deliver w) = rest.
Proof.
  intros Hq Hf Hrun. destruct (payload_fix_some _ _ Hf) as (v & Hp & Hla & Hlo).
  cbn [step]. rewrite Hq. unfold paho_callback, onMessageArrived, modify_this, on_track.
  cbv [bind modify lift_sum lift_opt ret]. rewrite Hp, Hla, Hlo.
  cbn [this set_this set_messages set_mqttData tr set_inbox]. rewrite Hrun. cbn. auto.
Qed.

(** A delivered fix the tracker records is drawn as [getLine] draws it. *)
Lemma deliver_recorded (w : @world C) p rest f :
  reachable w -> accepted_last (tr (this w)) -> inbox w = p :: rest -> payload_fix p = Some f -> recordable f ->
  draw_post Straight (tr (this w)) f (tr (this (step Deliver w))) /\
  client (this (step Deliver w)) = client (this w) /\ inbox (step Deliver w) = rest.
Proof.
  intros Hr Ha Hq Hf Hrec. destruct (reachable_inv w Hr) as [_ [Hv _]].
  destruct (getLine_render _ f Hv Ha Hrec) as (t1 & Hrun & Hpost).
  destruct (deliver_getLine_done w p rest f t1 Hq Hf Hrun) as (-> & Hc & Hi). auto.
Qed.

(** A payload the spec's decoder accepts carries its two numbers as the
    fix [onMessageArrived] reads. *)
Lemma decode_payload_fix p pt :
  decode p = inr pt -> payload_fix p = Some (JNumber (fst pt), JNumber (snd pt)).
Proof.
  unfold decode, payload_fix. destruct (Json.json_parse p) as [|v]; [discriminate|].
  destruct (get_field v "Latitude") as [[]|], (get_field v "Longitude") as [[]|]; try discriminate.
  intros H. injection H as <-. reflexivity.
Qed.

(** C31 (refinement, composition).  The ingest path end to end, as the
    spec composes it: in a reachable session whose previous point Leaflet
    accepts, delivering a payload that the spec's [decode] turns into a
    point the tracker records takes the spec's [ingestFix] step on that
    point and leaves exactly the map the spec's straight-line [render]
    draws for its transition on the Leaflet map surface (the first fix as
    a zero-length move); the connection stays and the message is
    consumed. *)
Theorem deliver_renders_fix (w : @world C) (p : string) (rest : list string) (pt : Spec.point) :
  reachable w -> accepted_last (tr (this w)) -> inbox w = p :: rest ->
  decode p = inr pt -> recordable (JNumber (fst pt), JNumber (snd pt)) ->
  abs (tr (this (step Deliver w))) = fst (Spec.ingestFix (abs (tr (this w))) pt) /\
  map (tr (this (step Deliver w))) =
    render Straight (code_transition (snd (Spec.ingestFix (abs (tr (this w))) pt)))
           (nowMarker (tr (this w))) (map (tr (this w))) /\
  client (this (step Deliver w)) = client (this w) /\ inbox (step Deliver w) = rest.
Proof.
  intros Hr Ha Hq Hd Hrec. destruct pt as [x y].
  destruct (deliver_recorded w p rest _ Hr Ha Hq (decode_payload_fix _ _ Hd) Hrec)
    as ((Hs & _ & _ & _ & Hm) & Hc & Hi).
  exact (conj Hs (conj Hm (conj Hc Hi))).
Qed.

(** C32 (error, spec.md section 4.1).  The decoder accepts coordinates
    that are not numbers: a record whose [Latitude] and [Longitude] are
    JSON strings is a [MalformedPayload] for the spec's [decode], yet
    delivering it in a reachable session (previous point accepted by
    Leaflet) records the fix: [Number("23.95")] and [Number("120.93")]
    become the tracker's last point, marked as a fix, and the
    current-position marker moves there.  Leaflet's [toLatLng] converts
    with [+a], so booleans, numeric strings and the empty string pass
    as well. *)
Theorem deliver_string_coordinates (w : @world C) (rest : list string) :
  reachable w -> accepted_last (tr (this w)) -> inbox w = string_fix_payload :: rest ->
  decode string_fix_payload = inl MalformedPayload /\
  abs (tr (this (step Deliver w))) = Spec.TrackerState 23.95 120.93 true /\
  v_marker (leaflet_view (nowMarker (tr (this w))) (map (tr (this (step Deliver w))))) = Some (23.95%float, 120.93%float) /\
  inbox (step Deliver w) = rest.
Proof.
  intros Hr Ha Hq.
  destruct (deliver_recorded w _ rest _ Hr Ha Hq string_fix_payload_fix string_fix_recordable)
    as ((Hs & _ & _ & _ & Hm) & _ & Hi).
  destruct (reachable_inv w Hr) as [_ [Hv _]].
  rewrite string_fix_point in Hs, Hm. rewrite code_transition_ingest in Hm.
  split; [vm_compute; reflexivity|]. refine (conj Hs (conj _ Hi)).
  pose proof (render_observe (S := lmap) Straight (Spec.Move (prev_point (tr (this w)) (23.95%float, 120.93%float))
                (23.95%float, 120.93%float)) _ _ (valid_track_renderable _ Hv)) as Ho.
  cbn [observe leaflet_surface] in Ho. rewrite Hm, Ho. reflexivity.
Qed.

End Delivery.

(** ** The properties at paho-mqtt *)

Lemma deliver_renders_fix_witness :
  let w := run [RemotePublish fix_payload] paho_session in
  let pt := (23.95%float, 120.93%float) in
  reachable w /\ accepted_last (tr (this w)) /\ inbox w = [fix_payload] /\
  decode fix_payload = inr pt /\ recordable (JNumber (fst pt), JNumber (snd pt)) /\
  abs (tr (this (step Deliver w))) = fst (Spec.ingestFix (abs (tr (this w))) pt) /\
  map (tr (this (step Deliver w))) =
    render Straight (code_transition (snd (Spec.ingestFix (abs (tr (this w))) pt)))
           (nowMarker (tr (this w))) (map (tr (this w))) /\
  client (this (step Deliver w)) = client (this w) /\ inbox (step Deliver w) = [].
Proof.
  cbv zeta.
  assert (Hr : reachable (run [RemotePublish fix_payload] paho_session)) by (repeat constructor).
  assert (Ha : accepted_last (tr (this (run [RemotePublish fix_payload] paho_session))))
    by (eexists; vm_compute; reflexivity).
  assert (Hq : inbox (run [RemotePublish fix_payload] paho_session) = [fix_payload]) by (vm_compute; reflexivity).
  assert (Hd : decode fix_payload = inr (23.95%float, 120.93%float)) by (vm_compute; reflexivity).
  assert (Hrec : recordable (JNumber 23.95, JNumber 120.93))
    by (split; [eexists; vm_compute; reflexivity | vm_compute; reflexivity]).
  do 5 (split; [assumption|]).
  exact (deliver_renders_fix _ _ [] _ Hr Ha Hq Hd Hrec).
Defined.

Lemma deliver_string_coordinates_witness :
  let w := run [RemotePublish string_fix_payload] paho_session in
  reachable w /\ accepted_last (tr (this w)) /\ inbox w = [string_fix_payload] /\
  decode string_fix_payload = inl MalformedPayload /\
  abs (tr (this (step Deliver w))) = Spec.TrackerState 23.95 120.93 true /\
  v_marker (leaflet_view (nowMarker (tr (this w))) (map (tr (this (step Deliver w))))) = Some (23.95%float, 120.93%float) /\
  inbox (step Deliver w) = [].
Proof.
  cbv zeta.
  assert (Hr : reachable (run [RemotePublish string_fix_payload] paho_session)) by (repeat constructor).
  assert (Ha : accepted_last (tr (this (run [RemotePublish string_fix_payload] paho_session))))
    by (eexists; vm_compute; reflexivity).
  assert (Hq : inbox (run [RemotePublish string_fix_payload] paho_session) = [string_fix_payload])
    by (vm_compute; reflexivity).
  do 3 (split; [assumption|]).
  exact (deliver_string_coordinates _ [] Hr Ha Hq).
Defined.

End Delivery.
