(* ===== verification/Resources.v ===== *)
(** * What the map holds: its growth per event

    The spec's resource model (sections 4.3 and 5) has the drawn history
    grow monotonically and never be cleared by the core, with one
    long-lived marker.  Every layer the component adds to [this.map]
    (polylines of [getLine], routing layers of [getStreetLine], markers of
    [getMarker], [mqttMarker] and the geolocation callback) stays there.
    [persists] says how a layer may change once it is on the map (a
    marker may move or get its popup, nothing else changes) and [grows]
    lifts it to the layer list, index by index (a layer's index is its
    handle).  The theorems show that each event of the session keeps every
    layer in place and adds at most one, so that [n] events grow the map
    by at most [n] layers and never remove or replace one. *)

From Stdlib Require Import List String Bool Arith Lia RelationClasses.
From S2P Require Import Prelude JsValue Transport MapSurface Tracker Component.
Import ListNotations Leaflet Tracker Component.

Module Resources.

(** ** Layers that stay *)

(** How a layer on the map may look later: a tile layer, a polyline or a
    routing layer is as it was; a marker is still a marker with its title
    and icon. *)
Definition persists (l l' : layer) : Prop :=
  match l with
  | MarkerLayer mk => exists mk', l' = MarkerLayer mk' /\ m_title mk' = m_title mk /\ m_icon mk' = m_icon mk
  | _ => l' = l
  end.

#[export] Instance persists_preorder : PreOrder persists.
Proof.
  split.
  - intros []; cbn; eauto.
  - intros [] l2 l3 H12 H23; cbn in *; subst; try exact H23;
      destruct H12 as (mk2 & -> & T2 & I2); cbn in H23; destruct H23 as (mk3 & -> & T3 & I3);
      exists mk3; repeat split; congruence.
Qed.

(** Every layer of [ls] is still at its index in [ls'], as [persists]
    allows. *)
Definition grows (ls ls' : list layer) : Prop :=
  forall i l, nth_error ls i = Some l -> exists l', nth_error ls' i = Some l' /\ persists l l'.

#[export] Instance grows_preorder : PreOrder grows.
Proof.
  split.
  - intros ls i l H. exists l. split; [exact H | reflexivity].
  - intros l1 l2 l3 H12 H23 i l H. destruct (H12 i l H) as (l' & H2 & P1).
    destruct (H23 i l' H2) as (l'' & H3 & P2). exists l''. split; [exact H3 | etransitivity; eassumption].
Qed.

Lemma grows_length ls ls' : grows ls ls' -> List.length ls <= List.length ls'.
Proof.
  intros H. destruct (List.length ls) as [|n] eqn:E; [lia|].
  destruct (nth_error ls n) as [l|] eqn:En; [|apply nth_error_None in En; lia].
  destruct (H n l En) as (l' & Hl' & _). assert (n < List.length ls') by (apply nth_error_Some; congruence). lia.
Qed.

Lemma grows_app ls ls' : grows ls (ls ++ ls').
Proof.
  intros i l H. exists l. split; [|reflexivity].
  rewrite nth_error_app1 by (apply nth_error_Some; congruence). exact H.
Qed.

Lemma grows_replace_marker h mk mk' ls :
  nth_error ls h = Some (MarkerLayer mk) -> m_title mk' = m_title mk -> m_icon mk' = m_icon mk ->
  grows ls (replace_nth h (MarkerLayer mk') ls).
Proof.
  intros Hh Ht Hi i l H. destruct (Nat.eq_dec i h) as [->|Hne].
  - rewrite Hh in H. injection H as <-. exists (MarkerLayer mk').
    rewrite nth_error_replace_same by (apply nth_error_Some; congruence). split; [reflexivity|]. cbn. exists mk'. auto.
  - exists l. rewrite nth_error_replace_other by congruence. split; [exact H | reflexivity].
Qed.

(** ** The map operations *)

Lemma move_marker_grows h p m : grows (layers m) (layers (move_marker h p m)).
Proof.
  unfold move_marker. destruct (marker_at h m) as [mk|] eqn:Hm; [|reflexivity].
  apply (grows_replace_marker _ mk); [exact (marker_at_layer _ _ _ Hm) | reflexivity | reflexivity].
Qed.

Lemma bind_popup_grows h p m : grows (layers m) (layers (bind_popup h p m)).
Proof.
  unfold bind_popup. destruct (marker_at h m) as [mk|] eqn:Hm; [|reflexivity].
  apply (grows_replace_marker _ mk); [exact (marker_at_layer _ _ _ Hm) | reflexivity | reflexivity].
Qed.

Lemma add_polyline_grows p q st m :
  let m' := final_state (add_polyline p q st m) in
  grows (layers m) (layers m') /\ List.length (layers m') <= S (List.length (layers m)).
Proof.
  cbv zeta. destruct (add_polyline_cases p q st m) as [->|(l & _ & ->)]; [split; [reflexivity | lia]|].
  cbn. rewrite length_app. split; [apply grows_app | cbn; lia].
Qed.

Lemma set_latlng_grows h x y m m' :
  set_latlng h x y m = inr m' -> grows (layers m) (layers m') /\ List.length (layers m') = List.length (layers m).
Proof.
  unfold set_latlng. destruct (mk_latlng _ _) as [|p]; [discriminate|]. intros H. injection H as <-.
  split; [apply move_marker_grows|]. unfold move_marker.
  destruct (marker_at h m); [apply replace_nth_length | reflexivity].
Qed.

(** [getLine], completed or thrown, keeps every layer and adds at most
    one: its polyline. *)
Lemma getLine_layers t vx vy :
  let ls := layers (map t) in
  let ls' := layers (map (final_state (getLine vx vy t))) in
  grows ls ls' /\ List.length ls' <= S (List.length ls).
Proof.
  cbv zeta. rewrite getLine_eq. unfold getLine_result. fold (snapped vx vy t).
  pose proof (add_polyline_grows (lastX (snapped vx vy t), lastY (snapped vx vy t)) (vx, vy) red_line
                (map (snapped vx vy t))) as [G1 N1]. rewrite snapped_map in G1, N1 |- *.
  destruct (add_polyline _ _ _ _) as [u m1|e m1] eqn:H1; cbn [final_state set_map map] in G1, N1 |- *;
    [|split; [exact G1 | lia]].
  destruct (set_latlng _ _ _ _) as [e|m2] eqn:H2; cbn [final_state set_map set_last map]; [split; [exact G1 | lia]|].
  destruct (set_latlng_grows _ _ _ _ _ H2) as [G2 N2].
  destruct (pan_to_marker _ _) as [e|m4] eqn:H4; cbn [final_state set_map set_last map];
    rewrite ?(pan_to_marker_layers _ _ _ H4); cbn [set_zoom layers]; rewrite open_popup_layers;
    (split; [etransitivity; eassumption | lia]).
Qed.

Section Growth.
Context {C : Type} {MC : MqttClient C} {ML : MqttLaws C}.

Definition lays (w : @world C) : list layer := layers (map (tr (this w))).
Definition nlayers (w : @world C) : nat := List.length (lays w).

(** A statement that keeps every layer in place and their number. *)
Definition keeps {A} (c : M exn (@world C) A) : Prop :=
  forall K ls0, preserves (fun w => nlayers w = K /\ grows ls0 (lays w)) c.

(** A statement that keeps every layer in place and adds at most one. *)
Definition adds_one {A} (c : M exn (@world C) A) : Prop :=
  forall w, grows (lays w) (lays (final_state (c w))) /\ nlayers (final_state (c w)) <= S (nlayers w).

Lemma keeps_final {A} (c : M exn world A) w :
  keeps c -> nlayers (final_state (c w)) = nlayers w /\ grows (lays w) (lays (final_state (c w))).
Proof. intros H. apply (H (nlayers w) (lays w) w). split; reflexivity. Qed.

Lemma keeps_adds_one {A} (c : M exn world A) : keeps c -> adds_one c.
Proof. intros H w. destruct (keeps_final c w H) as [E G]. split; [exact G | lia]. Qed.

Lemma keeps_then_adds {A B} (c : M exn world A) (k : A -> M exn world B) :
  keeps c -> (forall a, adds_one (k a)) -> adds_one (bind c k).
Proof.
  intros Hc Hk w. destruct (keeps_final c w Hc) as [E G]. unfold bind.
  destruct (c w) as [a w'|e w']; cbn [final_state] in *; [|split; [exact G | lia]].
  destruct (Hk a w') as [G' N']. split; [etransitivity; eassumption | lia].
Qed.

Lemma adds_then_keeps {A B} (c : M exn world A) (k : A -> M exn world B) :
  adds_one c -> (forall a, keeps (k a)) -> adds_one (bind c k).
Proof.
  intros Hc Hk w. specialize (Hc w). unfold bind.
  destruct (c w) as [a w'|e w']; cbn [final_state] in *; [|exact Hc].
  destruct (keeps_final _ w' (Hk a)) as [E G]. destruct Hc as [G0 N0]. split; [etransitivity; eassumption | lia].
Qed.

Lemma keeps_on_map {A} (f : lmap -> lmap * A) :
  (forall m, List.length (layers (fst (f m))) = List.length (layers m) /\ grows (layers m) (layers (fst (f m)))) ->
  keeps (on_map f).
Proof.
  intros Hf K ls0. apply preserves_on_map. intros w [<- G]. unfold nlayers, lays in *.
  destruct (Hf (map (tr (this w)))) as [E G']. split; [exact E | etransitivity; eassumption].
Qed.

Lemma adds_add_layer l : adds_one (on_map (add_layer l)).
Proof. intros w. rewrite on_map_final. unfold nlayers, lays. cbn. rewrite length_app. split; [apply grows_app | cbn; lia]. Qed.

Lemma keeps_on_client f : keeps (on_client f).
Proof. intros K ls0. apply preserves_on_client. intros w k Hw _. exact Hw. Qed.

Lemma keeps_modify_this f : (forall c, tr (f c) = tr c) -> keeps (modify_this f).
Proof. intros Hf K ls0. apply preserves_modify_this. intros w Hw. unfold nlayers, lays in *. cbn. rewrite Hf. exact Hw. Qed.

Lemma keeps_publish t p : keeps (publish t p).
Proof.
  intros K ls0 w Hw. rewrite publish_run. destruct (mq_publish t p _); [exact Hw|].
  destruct (mq_subscribed t _); exact Hw.
Qed.

(** [keep] closes the statements that leave the layers alone. *)
Ltac keep :=
  intros ?K ?ls0; preserve;
  repeat match goal with
  | |- preserves _ (on_client _) => apply keeps_on_client
  | |- preserves _ (publish _ _) => apply keeps_publish
  | |- preserves _ (publish_json _) => unfold publish_json; preserve
  | |- preserves _ (modify_this _) => apply keeps_modify_this; reflexivity
  | |- preserves _ (on_map (fun m => (bind_popup _ _ m, tt))) =>
      apply keeps_on_map; intros ?m; cbn [fst]; split; [unfold bind_popup; destruct (marker_at _ _);
      [apply replace_nth_length | reflexivity] | apply bind_popup_grows]
  | |- preserves _ (on_map (fun m => (open_popup _ m, tt))) =>
      apply keeps_on_map; intros ?m; cbn [fst]; rewrite open_popup_layers; split; reflexivity
  end.

Lemma transport_handlers_keep : keeps onSuccess /\ keeps sendMessage /\ keeps ngOnDestroy.
Proof. unfold onSuccess, sendMessage, ngOnDestroy. refine (conj _ (conj _ _)); keep. Qed.

Lemma adds_getLine x y : adds_one (on_track (getLine x y)).
Proof. intros w. rewrite on_track_final. unfold nlayers, lays. cbn. apply getLine_layers. Qed.

(** [grow] walks a handler: the statements before the one that adds a
    layer keep the layers, the ones after it keep them too. *)
Ltac grow :=
  repeat lazymatch goal with
  | |- adds_one (bind (on_map (add_layer _)) _) => apply adds_then_keeps; [apply adds_add_layer | intros ?a; keep]
  | |- adds_one (bind _ _) => apply keeps_then_adds; [keep | intros ?a]
  | |- adds_one (on_track (getLine _ _)) => apply adds_getLine
  end.

Lemma track_handlers_add_one :
  adds_one getMarker /\ (forall d, adds_one (mqttMarker d)) /\
  (forall la lo, adds_one (gpsMarker_callback la lo)) /\ (forall p, adds_one (onMessageArrived p)).
Proof.
  unfold getMarker, mqttMarker, gpsMarker_callback, onMessageArrived.
  refine (conj _ (conj _ (conj _ _))); intros; grow.
Qed.

(** What one event may do to the layers: keep them all in place and add
    at most one. *)
Definition step_growth (w w' : @world C) : Prop := grows (lays w) (lays w') /\ nlayers w' <= S (nlayers w).

Lemma step_growth_same (w w' : @world C) : lays w' = lays w -> step_growth w w'.
Proof. intros E. unfold step_growth, nlayers. rewrite E. split; [reflexivity | lia]. Qed.

Lemma paho_callback_adds c (w : @world C) : adds_one c -> step_growth w (paho_callback c w).
Proof. intros H. specialize (H w). unfold paho_callback. destruct (c w); exact H. Qed.

Lemma ui_handler_adds c (w : @world C) : adds_one c -> step_growth w (ui_handler c w).
Proof. intros H. unfold ui_handler. destruct (alive w); [exact (H w) | apply step_growth_same; reflexivity]. Qed.

(** Every event keeps the layers in place and adds at most one. *)
Lemma step_adds_one ev (w : @world C) : step_growth w (step ev w).
Proof.
  destruct track_handlers_add_one as (A1 & A2 & A3 & A4). destruct transport_handlers_keep as (K1 & K2 & K3).
  assert (Kg : keeps (@gpsMarker C)) by (intros K ls0; apply preserves_modify; intros ? ?; assumption).
  destruct ev as [ok|p| | | | |la lo| | |]; cbn [step]; try (apply step_growth_same; reflexivity).
  - destruct (mq_connecting _); [|apply step_growth_same; reflexivity].
    destruct ok; [|apply step_growth_same; reflexivity].
    match goal with |- context [paho_callback _ ?w1] => exact (paho_callback_adds _ w1 (keeps_adds_one _ K1)) end.
  - destruct (mq_subscribed _ _); apply step_growth_same; reflexivity.
  - destruct (inbox w) as [|p rest]; [apply step_growth_same; reflexivity|].
    exact (paho_callback_adds _ (set_inbox rest w) (A4 p)).
  - exact (ui_handler_adds _ _ (keeps_adds_one _ K2)).
  - exact (ui_handler_adds _ _ A1).
  - exact (ui_handler_adds _ _ (keeps_adds_one _ Kg)).
  - destruct (gps_pending w) as [|n]; [apply step_growth_same; reflexivity | exact (A3 la lo (set_gps n w))].
  - destruct (gps_pending w); apply step_growth_same; reflexivity.
  - destruct (alive w); [|apply step_growth_same; reflexivity].
    destruct (keeps_final _ w K3) as [E G]. split; [exact G | unfold nlayers, lays in *; cbn [set_alive this]; lia].
  - destruct (mq_connected _); apply step_growth_same; reflexivity.
Qed.

(** C33 (bounds, spec.md sections 4.3 and 5).  The map's layers only
    accumulate, and slowly: whatever the events, from any state, every
    layer present before is still on the map at its index (a polyline,
    tile or routing layer unchanged, a marker still a marker with its
    title and icon, possibly moved), and [n] events add at most [n] layers
    (one polyline per delivered fix, one marker per click or geolocation
    answer). *)
Theorem run_layers_bounded (w : @world C) (evs : list event) :
  grows (lays w) (lays (run evs w)) /\
  nlayers w <= nlayers (run evs w) <= nlayers w + List.length evs.
Proof.
  revert w; induction evs as [|ev evs IH]; intros w; cbn [run List.length]; [split; [reflexivity | lia]|].
  destruct (step_adds_one ev w) as [G N]. destruct (IH (step ev w)) as [G' N'].
  pose proof (grows_length _ _ G). unfold nlayers in *.
  split; [etransitivity; eassumption | lia].
Qed.
End Growth.

End Resources.
